(** * Pixel functions of nansat (pixelfunctions/pixelfunctions.c)

    A shallow embedding of the derived-band pixel functions and of the part of
    the GDAL interface they are written against, followed by the properties
    the specification states about them.

    Conventions.
    - A C [double] is a binary64 number of the kernel ([PrimFloat.float]); its
      arithmetic is IEEE-754 round-to-nearest, as on the hosts GDAL runs on.
    - A C [int] is a [Z]; the sizes and strides of a tile are assumed small
      enough that the index arithmetic does not overflow.
    - A raster buffer is a byte-addressed memory [Z -> byte].  The source
      buffers are read only, the destination buffer is threaded through each
      function, and the two are assumed not to overlap (the calling
      convention of GDAL). *)

From Stdlib Require Import ZArith List Lia Bool String.
From Stdlib.Strings Require Import Byte.
From Stdlib Require Import Floats.
Import ListNotations.

#[local] Set Warnings "-inexact-float".
#[local] Open Scope Z_scope.

(** ** C numbers *)

Definition double := float.
Bind Scope float_scope with double.

Module C.

Definition INT_MAX : Z := 2147483647.
Definition INT_MIN : Z := -2147483648.

(** [(double) j] for an integer [j] of at most 32 bits: exact. *)
Definition double_of_int (j : Z) : double :=
  if j <? 0 then (- of_uint63 (Uint63.of_Z (- j)))%float
  else of_uint63 (Uint63.of_Z j).

(** The integer part of a finite [double], rounded toward zero. *)
Definition trunc (x : double) : option Z :=
  match Prim2SF x with
  | S754_zero _ => Some 0
  | S754_finite s m e =>
      let a := if 0 <=? e then Z.pos m * 2 ^ e else Z.pos m / 2 ^ (- e) in
      Some (if s then - a else a)
  | S754_infinity _ | S754_nan => None
  end.

(** [(int) x] for a [double] [x]: the integer part when it is an [int].
    C leaves the other cases undefined; they are given the result of the
    x86 conversion instruction, [INT_MIN]. *)
Definition int_of_double (x : double) : Z :=
  match trunc x with
  | Some z => if (INT_MIN <=? z) && (z <=? INT_MAX) then z else INT_MIN
  | None => INT_MIN
  end.

(** [int abs(int)] of <stdlib.h>.  ([abs(INT_MIN)] is undefined in C; two's
    complement hosts return [INT_MIN].) *)
Definition abs (j : Z) : Z :=
  if j =? INT_MIN then INT_MIN else Z.abs j.

(** [double sqrt(double)] of <math.h>: correctly rounded (IEEE-754). *)
Definition sqrt (x : double) : double := PrimFloat.sqrt x.

End C.

(** The functions of <math.h> whose results the C standard does not fix bit
    for bit are taken from the host. *)
Class LibM := {
  atan2 : double -> double -> double;
  asin  : double -> double;
  log10 : double -> double;
  pow   : double -> double -> double;
  tan   : double -> double
}.

(** ** The GDAL interface (gdal.h, cpl_error.h) *)

Inductive CPLErr := CE_None | CE_Debug | CE_Warning | CE_Failure | CE_Fatal.

Inductive GDALDataType :=
| GDT_Unknown
| GDT_Byte | GDT_UInt16 | GDT_Int16 | GDT_UInt32 | GDT_Int32
| GDT_Float32 | GDT_Float64
| GDT_CInt16 | GDT_CInt32 | GDT_CFloat32 | GDT_CFloat64.

(** Modelled from the spec: [GDALDataTypeIsComplex] of gdal.h, the
    complex-vs-real attribute of an ElementType (section 3). *)
Definition GDALDataTypeIsComplex (eDataType : GDALDataType) : bool :=
  match eDataType with
  | GDT_CInt16 | GDT_CInt32 | GDT_CFloat32 | GDT_CFloat64 => true
  | _ => false
  end.

(** Modelled from the spec: [GDALGetDataTypeSize] of gdal.h, the width of an
    ElementType in bits (section 3); a complex type is twice its part. *)
Definition GDALGetDataTypeSize (eDataType : GDALDataType) : Z :=
  match eDataType with
  | GDT_Unknown => 0
  | GDT_Byte => 8
  | GDT_UInt16 | GDT_Int16 => 16
  | GDT_UInt32 | GDT_Int32 | GDT_Float32 | GDT_CInt16 => 32
  | GDT_Float64 | GDT_CInt32 | GDT_CFloat32 => 64
  | GDT_CFloat64 => 128
  end.

(** The C types a sample, or one part of a complex sample, is stored as. *)
Inductive CType := GByte | GUInt16 | GInt16 | GUInt32 | GInt32 | c_float | c_double.

Definition sizeof (t : CType) : Z :=
  match t with
  | GByte => 1
  | GUInt16 | GInt16 => 2
  | GUInt32 | GInt32 | c_float => 4
  | c_double => 8
  end.

(** The C type of the (parts of the) samples of an element type. *)
Definition part_type (eDataType : GDALDataType) : option CType :=
  match eDataType with
  | GDT_Unknown => None
  | GDT_Byte => Some GByte
  | GDT_UInt16 => Some GUInt16
  | GDT_Int16 | GDT_CInt16 => Some GInt16
  | GDT_UInt32 => Some GUInt32
  | GDT_Int32 | GDT_CInt32 => Some GInt32
  | GDT_Float32 | GDT_CFloat32 => Some c_float
  | GDT_Float64 | GDT_CFloat64 => Some c_double
  end.

(** *** Memory *)

Definition Buffer := Z -> byte.

Record Ptr := { ptr_buf : Buffer; ptr_ofs : Z }.

(** [((GByte * ) p) + n] *)
Definition ptr_add (p : Ptr) (n : Z) : Ptr :=
  {| ptr_buf := ptr_buf p; ptr_ofs := ptr_ofs p + n |}.

Definition zero_buffer : Buffer := fun _ => x00.

Definition NULL : Ptr := {| ptr_buf := zero_buffer; ptr_ofs := 0 |}.

Definition load_bytes (b : Buffer) (ofs : Z) (n : Z) : list byte :=
  map (fun i => b (ofs + Z.of_nat i)) (seq 0 (Z.to_nat n)).

Definition store_bytes (b : Buffer) (ofs : Z) (l : list byte) : Buffer :=
  fun a =>
    if (ofs <=? a) && (a <? ofs + Z.of_nat (List.length l))
    then nth (Z.to_nat (a - ofs)) l x00
    else b a.

(** How the host stores a number: [decode t] reads the bytes of a C object of
    type [t] and promotes it to [double] (exactly: every value of these
    types is a [double]); [encode t] converts a [double] to type [t], which
    is GDAL's narrowing conversion, and gives its bytes. *)
Class Codec := {
  decode : CType -> list byte -> double;
  encode : CType -> double -> list byte;
  encode_length : forall t v, Z.of_nat (List.length (encode t v)) = sizeof t
}.

(** ** C loops and arrays *)

(** [for (i = i0; i < n; ++i) body], with [k] iterations left. *)
Fixpoint for_from {St : Type} (k : nat) (i : Z) (body : Z -> St -> St) (s : St) : St :=
  match k with
  | O => s
  | S k' => for_from k' (i + 1) body (body i s)
  end.

(** [for (i = 0; i < n; ++i) body] *)
Definition c_for {St : Type} (n : Z) (body : Z -> St -> St) (s : St) : St :=
  for_from (Z.to_nat n) 0 body s.

(** [for (iLine = 0, ii = 0; iLine < nYSize; ++iLine)
       for (iCol = 0; iCol < nXSize; ++iCol, ++ii) body]:
    the state is the counter [ii] and the destination buffer. *)
Definition for_pixels_ii (nYSize nXSize : Z)
    (body : Z -> Z -> Z -> Buffer -> Buffer) (pData : Buffer) : Buffer :=
  snd (c_for nYSize (fun iLine st =>
         c_for nXSize (fun iCol st =>
           (fst st + 1, body iLine iCol (fst st) (snd st))) st)
       (0, pData)).

(** [for (iLine = 0; iLine < nYSize; iLine++)
       for (iCol = 0; iCol < nXSize; iCol++) body] *)
Definition for_pixels (nYSize nXSize : Z)
    (body : Z -> Z -> Buffer -> Buffer) (pData : Buffer) : Buffer :=
  c_for nYSize (fun iLine pData =>
    c_for nXSize (fun iCol pData => body iLine iCol pData) pData) pData.

(** [papoSources[i]].  An index past the end of the list is outside the
    array the caller passed; C does not define that read, which is given
    [NULL]. *)
Definition at_index (papoSources : list Ptr) (i : Z) : Ptr :=
  nth (Z.to_nat i) papoSources NULL.

Notation "a .[ i ]" := (at_index a i) (at level 1, format "a .[ i ]").

(** The macro [PI], as the Nansat functions define it (the semicolon that
    ends the macro ends the statement it is used in). *)
Definition PI : double := 3.14159265.

Section PixelFunctions.

Context {codec : Codec} {libm : LibM}.

(** [((t * ) p)[i]], promoted to [double]. *)
Definition index (t : CType) (p : Ptr) (i : Z) : double :=
  decode t (load_bytes (ptr_buf p) (ptr_ofs p + i * sizeof t) (sizeof t)).

(** Modelled from the spec: the [SRCVAL] macro of gdal.h, the generic sample
    reader of section 4.1.  It reads the [ii]-th element of the packed
    buffer; for a complex type it reads the part that [papoSource] points to
    (the real one, or the imaginary one when the pointer was moved by half
    an element).  The conditional expression has type [double]. *)
Definition SRCVAL (papoSource : Ptr) (eSrcType : GDALDataType) (ii : Z) : double :=
  match eSrcType with
  | GDT_Byte => index GByte papoSource ii
  | GDT_Float32 => index c_float papoSource ii
  | GDT_Float64 => index c_double papoSource ii
  | GDT_Int32 => index GInt32 papoSource ii
  | GDT_UInt16 => index GUInt16 papoSource ii
  | GDT_Int16 => index GInt16 papoSource ii
  | GDT_UInt32 => index GUInt32 papoSource ii
  | GDT_CInt16 => index GInt16 papoSource (ii * 2)
  | GDT_CInt32 => index GInt32 papoSource (ii * 2)
  | GDT_CFloat32 => index c_float papoSource (ii * 2)
  | GDT_CFloat64 => index c_double papoSource (ii * 2)
  | GDT_Unknown => 0
  end.

(** One word of type [eType] at byte [ofs] of a buffer, as a complex number:
    the imaginary part of a real word is 0. *)
Definition load_word (eType : GDALDataType) (b : Buffer) (ofs : Z) : double * double :=
  match part_type eType with
  | None => (0, 0)%float
  | Some t =>
      let re := decode t (load_bytes b ofs (sizeof t)) in
      if GDALDataTypeIsComplex eType
      then (re, decode t (load_bytes b (ofs + sizeof t) (sizeof t)))
      else (re, 0%float)
  end.

(** Converts a complex number to type [eType] and stores it at byte [ofs]:
    a real type keeps the real part only. *)
Definition store_word (eType : GDALDataType) (b : Buffer) (ofs : Z)
    (w : double * double) : Buffer :=
  match part_type eType with
  | None => b
  | Some t =>
      let b' := store_bytes b ofs (encode t (fst w)) in
      if GDALDataTypeIsComplex eType
      then store_bytes b' (ofs + sizeof t) (encode t (snd w))
      else b'
  end.

(** What the first argument of [GDALCopyWords] points to: a place in a raster
    buffer, a local [double] ([&dfPixVal]) or a local [double[2]]
    ([adfPixVal]). *)
Inductive WordSource :=
| AtPtr (p : Ptr)
| AtDouble (v : double)
| AtDoubles (re im : double).

(** The word of type [eType] found [ofs] bytes after the start of a source.
    A local read at its own type is its value; read at another type, it is
    what its bytes hold. *)
Definition read_word (s : WordSource) (eType : GDALDataType) (ofs : Z) : double * double :=
  match s, eType with
  | AtPtr p, _ => load_word eType (ptr_buf p) (ptr_ofs p + ofs)
  | AtDouble v, GDT_Float64 => (v, 0%float)
  | AtDouble v, _ => load_word eType (store_bytes zero_buffer 0 (encode c_double v)) ofs
  | AtDoubles re im, GDT_CFloat64 => (re, im)
  | AtDoubles re im, _ =>
      load_word eType
        (store_bytes (store_bytes zero_buffer 0 (encode c_double re)) 8
           (encode c_double im)) ofs
  end.

Fixpoint copy_words (n : nat) (i : Z) (pSrcData : WordSource) (eSrcType : GDALDataType)
    (nSrcPixelOffset : Z) (pDstData : Buffer) (nDstOfs : Z) (eDstType : GDALDataType)
    (nDstPixelOffset : Z) : Buffer :=
  match n with
  | O => pDstData
  | S n' =>
      copy_words n' (i + 1) pSrcData eSrcType nSrcPixelOffset
        (store_word eDstType pDstData (nDstOfs + i * nDstPixelOffset)
           (read_word pSrcData eSrcType (i * nSrcPixelOffset)))
        nDstOfs eDstType nDstPixelOffset
  end.

(** Modelled from the spec: [GDALCopyWords] of gdal.h, the generic sample
    writer and type converter of section 4.2.  It copies [nWordCount] words:
    the [i]-th is read [i * nSrcPixelOffset] bytes after [pSrcData] at type
    [eSrcType], converted, and stored [i * nDstPixelOffset] bytes after the
    destination address at type [eDstType].  The destination address is
    given as the buffer and a byte offset in it. *)
Definition GDALCopyWords (pSrcData : WordSource) (eSrcType : GDALDataType)
    (nSrcPixelOffset : Z) (pDstData : Buffer) (nDstOfs : Z) (eDstType : GDALDataType)
    (nDstPixelOffset : Z) (nWordCount : Z) : Buffer :=
  copy_words (Z.to_nat nWordCount) 0 pSrcData eSrcType nSrcPixelOffset
    pDstData nDstOfs eDstType nDstPixelOffset.

(** ** The pixel functions *)

(** [CPLErr f(void **papoSources, int nSources, void *pData,
              int nXSize, int nYSize,
              GDALDataType eSrcType, GDALDataType eBufType,
              int nPixelSpace, int nLineSpace)]: the result is the error code
    and the destination buffer the call leaves. *)
Definition PixelFunc : Type :=
  list Ptr -> Z -> Buffer -> Z -> Z -> GDALDataType -> GDALDataType -> Z -> Z
  -> CPLErr * Buffer.

Definition RealPixelFunc : PixelFunc :=
  fun papoSources nSources pData nXSize nYSize eSrcType eBufType nPixelSpace nLineSpace =>
  if negb (nSources =? 1) then (CE_Failure, pData) else
  let nPixelSpaceSrc := GDALGetDataTypeSize eSrcType ÷ 8 in
  let nLineSpaceSrc := nPixelSpaceSrc * nXSize in
  (CE_None,
   c_for nYSize (fun iLine pData =>
     GDALCopyWords (AtPtr (ptr_add papoSources.[0] (nLineSpaceSrc * iLine)))
                   eSrcType nPixelSpaceSrc
                   pData (nLineSpace * iLine)
                   eBufType nPixelSpace nXSize) pData).

Definition ImagPixelFunc : PixelFunc :=
  fun papoSources nSources pData nXSize nYSize eSrcType eBufType nPixelSpace nLineSpace =>
  if negb (nSources =? 1) then (CE_Failure, pData) else
  if GDALDataTypeIsComplex eSrcType then
    let nPixelSpaceSrc := GDALGetDataTypeSize eSrcType ÷ 8 in
    let nLineSpaceSrc := nPixelSpaceSrc * nXSize in
    let pImag := ptr_add papoSources.[0] (GDALGetDataTypeSize eSrcType ÷ 8 ÷ 2) in
    (CE_None,
     c_for nYSize (fun iLine pData =>
       GDALCopyWords (AtPtr (ptr_add pImag (nLineSpaceSrc * iLine)))
                     eSrcType nPixelSpaceSrc
                     pData (nLineSpace * iLine)
                     eBufType nPixelSpace nXSize) pData)
  else
    let dfImag : double := 0%float in
    (CE_None,
     c_for nYSize (fun iLine pData =>
       GDALCopyWords (AtDouble dfImag) eSrcType 0
                     pData (nLineSpace * iLine)
                     eBufType nPixelSpace nXSize) pData).

Definition ModulePixelFunc : PixelFunc :=
  fun papoSources nSources pData nXSize nYSize eSrcType eBufType nPixelSpace nLineSpace =>
  if negb (nSources =? 1) then (CE_Failure, pData) else
  if GDALDataTypeIsComplex eSrcType then
    let pReal := papoSources.[0] in
    let pImag := ptr_add papoSources.[0] (GDALGetDataTypeSize eSrcType ÷ 8 ÷ 2) in
    (CE_None,
     for_pixels_ii nYSize nXSize (fun iLine iCol ii pData =>
       let dfReal := SRCVAL pReal eSrcType ii in
       let dfImag := SRCVAL pImag eSrcType ii in
       let dfPixVal := C.sqrt (dfReal * dfReal + dfImag * dfImag) in
       GDALCopyWords (AtDouble dfPixVal) GDT_Float64 0
                     pData (nLineSpace * iLine + iCol * nPixelSpace)
                     eBufType nPixelSpace 1) pData)
  else
    (CE_None,
     for_pixels_ii nYSize nXSize (fun iLine iCol ii pData =>
       let dfPixVal :=
         C.double_of_int (C.abs (C.int_of_double (SRCVAL papoSources.[0] eSrcType ii))) in
       GDALCopyWords (AtDouble dfPixVal) GDT_Float64 0
                     pData (nLineSpace * iLine + iCol * nPixelSpace)
                     eBufType nPixelSpace 1) pData).

Definition PhasePixelFunc : PixelFunc :=
  fun papoSources nSources pData nXSize nYSize eSrcType eBufType nPixelSpace nLineSpace =>
  if negb (nSources =? 1) then (CE_Failure, pData) else
  if GDALDataTypeIsComplex eSrcType then
    let pReal := papoSources.[0] in
    let pImag := ptr_add papoSources.[0] (GDALGetDataTypeSize eSrcType ÷ 8 ÷ 2) in
    (CE_None,
     for_pixels_ii nYSize nXSize (fun iLine iCol ii pData =>
       let dfReal := SRCVAL pReal eSrcType ii in
       let dfImag := SRCVAL pImag eSrcType ii in
       let dfPixVal := atan2 dfImag dfReal in
       GDALCopyWords (AtDouble dfPixVal) GDT_Float64 0
                     pData (nLineSpace * iLine + iCol * nPixelSpace)
                     eBufType nPixelSpace 1) pData)
  else
    let pi := atan2 0 (-1) in
    (CE_None,
     for_pixels_ii nYSize nXSize (fun iLine iCol ii pData =>
       let pReal := papoSources.[0] in
       let dfReal := SRCVAL pReal eSrcType ii in
       let dfPixVal : double := if (dfReal <? 0)%float then pi else 0%float in
       GDALCopyWords (AtDouble dfPixVal) GDT_Float64 (C.int_of_double dfPixVal)
                     pData (nLineSpace * iLine + iCol * nPixelSpace)
                     eBufType nPixelSpace 1) pData).

Definition ConjPixelFunc : PixelFunc :=
  fun papoSources nSources pData nXSize nYSize eSrcType eBufType nPixelSpace nLineSpace =>
  if negb (nSources =? 1) then (CE_Failure, pData) else
  if GDALDataTypeIsComplex eSrcType && GDALDataTypeIsComplex eBufType then
    let nOffset := GDALGetDataTypeSize eSrcType ÷ 8 ÷ 2 in
    let pReal := papoSources.[0] in
    let pImag := ptr_add papoSources.[0] nOffset in
    (CE_None,
     for_pixels_ii nYSize nXSize (fun iLine iCol ii pData =>
       let adfPixVal0 := SRCVAL pReal eSrcType ii in
       let adfPixVal1 := (- SRCVAL pImag eSrcType ii)%float in
       GDALCopyWords (AtDoubles adfPixVal0 adfPixVal1) GDT_CFloat64 0
                     pData (nLineSpace * iLine + iCol * nPixelSpace)
                     eBufType nPixelSpace 1) pData)
  else
    RealPixelFunc papoSources nSources pData nXSize nYSize
                  eSrcType eBufType nPixelSpace nLineSpace.

Definition SumPixelFunc : PixelFunc :=
  fun papoSources nSources pData nXSize nYSize eSrcType eBufType nPixelSpace nLineSpace =>
  if nSources <? 2 then (CE_Failure, pData) else
  if GDALDataTypeIsComplex eSrcType then
    let nOffset := GDALGetDataTypeSize eSrcType ÷ 8 ÷ 2 in
    (CE_None,
     for_pixels_ii nYSize nXSize (fun iLine iCol ii pData =>
       let adfSum :=
         c_for nSources (fun iSrc (adfSum : double * double) =>
           let pReal := papoSources.[iSrc] in
           let pImag := ptr_add pReal nOffset in
           (fst adfSum + SRCVAL pReal eSrcType ii,
            snd adfSum + SRCVAL pImag eSrcType ii)%float) (0, 0)%float in
       GDALCopyWords (AtDoubles (fst adfSum) (snd adfSum)) GDT_CFloat64 0
                     pData (nLineSpace * iLine + iCol * nPixelSpace)
                     eBufType nPixelSpace 1) pData)
  else
    (CE_None,
     for_pixels_ii nYSize nXSize (fun iLine iCol ii pData =>
       let dfSum :=
         c_for nSources (fun iSrc (dfSum : double) =>
           (dfSum + SRCVAL papoSources.[iSrc] eSrcType ii)%float) 0%float in
       GDALCopyWords (AtDouble dfSum) GDT_Float64 0
                     pData (nLineSpace * iLine + iCol * nPixelSpace)
                     eBufType nPixelSpace 1) pData).

Definition DiffPixelFunc : PixelFunc :=
  fun papoSources nSources pData nXSize nYSize eSrcType eBufType nPixelSpace nLineSpace =>
  if negb (nSources =? 2) then (CE_Failure, pData) else
  if GDALDataTypeIsComplex eSrcType then
    let nOffset := GDALGetDataTypeSize eSrcType ÷ 8 ÷ 2 in
    let pReal0 := papoSources.[0] in
    let pImag0 := ptr_add papoSources.[0] nOffset in
    let pReal1 := papoSources.[1] in
    let pImag1 := ptr_add papoSources.[1] nOffset in
    (CE_None,
     for_pixels_ii nYSize nXSize (fun iLine iCol ii pData =>
       let adfPixVal0 := (SRCVAL pReal0 eSrcType ii - SRCVAL pReal1 eSrcType ii)%float in
       let adfPixVal1 := (SRCVAL pImag0 eSrcType ii - SRCVAL pImag1 eSrcType ii)%float in
       GDALCopyWords (AtDoubles adfPixVal0 adfPixVal1) GDT_CFloat64 0
                     pData (nLineSpace * iLine + iCol * nPixelSpace)
                     eBufType nPixelSpace 1) pData)
  else
    (CE_None,
     for_pixels_ii nYSize nXSize (fun iLine iCol ii pData =>
       let dfPixVal :=
         (SRCVAL papoSources.[0] eSrcType ii - SRCVAL papoSources.[1] eSrcType ii)%float in
       GDALCopyWords (AtDouble dfPixVal) GDT_Float64 0
                     pData (nLineSpace * iLine + iCol * nPixelSpace)
                     eBufType nPixelSpace 1) pData).

Definition MulPixelFunc : PixelFunc :=
  fun papoSources nSources pData nXSize nYSize eSrcType eBufType nPixelSpace nLineSpace =>
  if nSources <? 2 then (CE_Failure, pData) else
  if GDALDataTypeIsComplex eSrcType then
    let nOffset := GDALGetDataTypeSize eSrcType ÷ 8 ÷ 2 in
    (CE_None,
     for_pixels_ii nYSize nXSize (fun iLine iCol ii pData =>
       let adfPixVal :=
         c_for nSources (fun iSrc (adfPixVal : double * double) =>
           let pReal := papoSources.[iSrc] in
           let pImag := ptr_add pReal nOffset in
           let dfOldR := fst adfPixVal in
           let dfOldI := snd adfPixVal in
           let dfNewR := SRCVAL pReal eSrcType ii in
           let dfNewI := SRCVAL pImag eSrcType ii in
           (dfOldR * dfNewR - dfOldI * dfNewI,
            dfOldR * dfNewI + dfOldI * dfNewR)%float) (1, 0)%float in
       GDALCopyWords (AtDoubles (fst adfPixVal) (snd adfPixVal)) GDT_CFloat64 0
                     pData (nLineSpace * iLine + iCol * nPixelSpace)
                     eBufType nPixelSpace 1) pData)
  else
    (CE_None,
     for_pixels_ii nYSize nXSize (fun iLine iCol ii pData =>
       let dfPixVal :=
         c_for nSources (fun iSrc (dfPixVal : double) =>
           (dfPixVal * SRCVAL papoSources.[iSrc] eSrcType ii)%float) 1%float in
       GDALCopyWords (AtDouble dfPixVal) GDT_Float64 0
                     pData (nLineSpace * iLine + iCol * nPixelSpace)
                     eBufType nPixelSpace 1) pData).

Definition CMulPixelFunc : PixelFunc :=
  fun papoSources nSources pData nXSize nYSize eSrcType eBufType nPixelSpace nLineSpace =>
  if negb (nSources =? 2) then (CE_Failure, pData) else
  if GDALDataTypeIsComplex eSrcType then
    let nOffset := GDALGetDataTypeSize eSrcType ÷ 8 ÷ 2 in
    let pReal0 := papoSources.[0] in
    let pImag0 := ptr_add papoSources.[0] nOffset in
    let pReal1 := papoSources.[1] in
    let pImag1 := ptr_add papoSources.[1] nOffset in
    (CE_None,
     for_pixels_ii nYSize nXSize (fun iLine iCol ii pData =>
       let dfReal0 := SRCVAL pReal0 eSrcType ii in
       let dfReal1 := SRCVAL pReal1 eSrcType ii in
       let dfImag0 := SRCVAL pImag0 eSrcType ii in
       let dfImag1 := SRCVAL pImag1 eSrcType ii in
       let adfPixVal0 := (dfReal0 * dfReal1 + dfImag0 * dfImag1)%float in
       let adfPixVal1 := (dfReal1 * dfImag0 - dfReal0 * dfImag1)%float in
       GDALCopyWords (AtDoubles adfPixVal0 adfPixVal1) GDT_CFloat64 0
                     pData (nLineSpace * iLine + iCol * nPixelSpace)
                     eBufType nPixelSpace 1) pData)
  else
    let adfPixVal1 : double := 0%float in
    (CE_None,
     for_pixels_ii nYSize nXSize (fun iLine iCol ii pData =>
       let adfPixVal0 :=
         (SRCVAL papoSources.[0] eSrcType ii * SRCVAL papoSources.[1] eSrcType ii)%float in
       GDALCopyWords (AtDoubles adfPixVal0 adfPixVal1) GDT_CFloat64 0
                     pData (nLineSpace * iLine + iCol * nPixelSpace)
                     eBufType nPixelSpace 1) pData).

Definition InvPixelFunc : PixelFunc :=
  fun papoSources nSources pData nXSize nYSize eSrcType eBufType nPixelSpace nLineSpace =>
  if negb (nSources =? 1) then (CE_Failure, pData) else
  if GDALDataTypeIsComplex eSrcType then
    let nOffset := GDALGetDataTypeSize eSrcType ÷ 8 ÷ 2 in
    let pReal := papoSources.[0] in
    let pImag := ptr_add papoSources.[0] nOffset in
    (CE_None,
     for_pixels_ii nYSize nXSize (fun iLine iCol ii pData =>
       let dfReal := SRCVAL pReal eSrcType ii in
       let dfImag := SRCVAL pImag eSrcType ii in
       let dfAux := (dfReal * dfReal + dfImag * dfImag)%float in
       let adfPixVal0 := (dfReal / dfAux)%float in
       let adfPixVal1 := (- dfImag / dfAux)%float in
       GDALCopyWords (AtDoubles adfPixVal0 adfPixVal1) GDT_CFloat64 0
                     pData (nLineSpace * iLine + iCol * nPixelSpace)
                     eBufType nPixelSpace 1) pData)
  else
    (CE_None,
     for_pixels_ii nYSize nXSize (fun iLine iCol ii pData =>
       let dfPixVal := (1 / SRCVAL papoSources.[0] eSrcType ii)%float in
       GDALCopyWords (AtDouble dfPixVal) GDT_Float64 0
                     pData (nLineSpace * iLine + iCol * nPixelSpace)
                     eBufType nPixelSpace 1) pData).

Definition IntensityPixelFunc : PixelFunc :=
  fun papoSources nSources pData nXSize nYSize eSrcType eBufType nPixelSpace nLineSpace =>
  if negb (nSources =? 1) then (CE_Failure, pData) else
  if GDALDataTypeIsComplex eSrcType then
    let nOffset := GDALGetDataTypeSize eSrcType ÷ 8 ÷ 2 in
    let pReal := papoSources.[0] in
    let pImag := ptr_add papoSources.[0] nOffset in
    (CE_None,
     for_pixels_ii nYSize nXSize (fun iLine iCol ii pData =>
       let dfReal := SRCVAL pReal eSrcType ii in
       let dfImag := SRCVAL pImag eSrcType ii in
       let dfPixVal := (dfReal * dfReal + dfImag * dfImag)%float in
       GDALCopyWords (AtDouble dfPixVal) GDT_Float64 0
                     pData (nLineSpace * iLine + iCol * nPixelSpace)
                     eBufType nPixelSpace 1) pData)
  else
    (CE_None,
     for_pixels_ii nYSize nXSize (fun iLine iCol ii pData =>
       let dfPixVal := SRCVAL papoSources.[0] eSrcType ii in
       let dfPixVal := (dfPixVal * dfPixVal)%float in
       GDALCopyWords (AtDouble dfPixVal) GDT_Float64 0
                     pData (nLineSpace * iLine + iCol * nPixelSpace)
                     eBufType nPixelSpace 1) pData).

Definition SqrtPixelFunc : PixelFunc :=
  fun papoSources nSources pData nXSize nYSize eSrcType eBufType nPixelSpace nLineSpace =>
  if negb (nSources =? 1) then (CE_Failure, pData) else
  if GDALDataTypeIsComplex eSrcType then (CE_Failure, pData) else
  (CE_None,
   for_pixels_ii nYSize nXSize (fun iLine iCol ii pData =>
     let dfPixVal := C.sqrt (SRCVAL papoSources.[0] eSrcType ii) in
     GDALCopyWords (AtDouble dfPixVal) GDT_Float64 0
                   pData (nLineSpace * iLine + iCol * nPixelSpace)
                   eBufType nPixelSpace 1) pData).

Definition Log10PixelFunc : PixelFunc :=
  fun papoSources nSources pData nXSize nYSize eSrcType eBufType nPixelSpace nLineSpace =>
  if negb (nSources =? 1) then (CE_Failure, pData) else
  if GDALDataTypeIsComplex eSrcType then
    let nOffset := GDALGetDataTypeSize eSrcType ÷ 8 ÷ 2 in
    let pReal := papoSources.[0] in
    let pImag := ptr_add papoSources.[0] nOffset in
    (CE_None,
     for_pixels_ii nYSize nXSize (fun iLine iCol ii pData =>
       let dfReal := SRCVAL pReal eSrcType ii in
       let dfImag := SRCVAL pImag eSrcType ii in
       let dfPixVal := log10 (dfReal * dfReal + dfImag * dfImag) in
       GDALCopyWords (AtDouble dfPixVal) GDT_Float64 0
                     pData (nLineSpace * iLine + iCol * nPixelSpace)
                     eBufType nPixelSpace 1) pData)
  else
    (CE_None,
     for_pixels_ii nYSize nXSize (fun iLine iCol ii pData =>
       let dfPixVal := SRCVAL papoSources.[0] eSrcType ii in
       let dfPixVal := log10 (C.double_of_int (C.abs (C.int_of_double dfPixVal))) in
       GDALCopyWords (AtDouble dfPixVal) GDT_Float64 0
                     pData (nLineSpace * iLine + iCol * nPixelSpace)
                     eBufType nPixelSpace 1) pData).

Definition PowPixelFuncHelper (papoSources : list Ptr) (nSources : Z) (pData : Buffer)
    (nXSize nYSize : Z) (eSrcType eBufType : GDALDataType)
    (nPixelSpace nLineSpace : Z) (base fact : double) : CPLErr * Buffer :=
  if negb (nSources =? 1) then (CE_Failure, pData) else
  if GDALDataTypeIsComplex eSrcType then (CE_Failure, pData) else
  (CE_None,
   for_pixels_ii nYSize nXSize (fun iLine iCol ii pData =>
     let dfPixVal := SRCVAL papoSources.[0] eSrcType ii in
     let dfPixVal := pow base (dfPixVal / fact) in
     GDALCopyWords (AtDouble dfPixVal) GDT_Float64 0
                   pData (nLineSpace * iLine + iCol * nPixelSpace)
                   eBufType nPixelSpace 1) pData).

Definition dB2AmpPixelFunc : PixelFunc :=
  fun papoSources nSources pData nXSize nYSize eSrcType eBufType nPixelSpace nLineSpace =>
  PowPixelFuncHelper papoSources nSources pData nXSize nYSize eSrcType eBufType
                     nPixelSpace nLineSpace 10 20.

Definition dB2PowPixelFunc : PixelFunc :=
  fun papoSources nSources pData nXSize nYSize eSrcType eBufType nPixelSpace nLineSpace =>
  PowPixelFuncHelper papoSources nSources pData nXSize nYSize eSrcType eBufType
                     nPixelSpace nLineSpace 10 10.

(** *** Nansat pixel functions *)

Definition BetaSigmaToIncidence : PixelFunc :=
  fun papoSources nSources pData nXSize nYSize eSrcType eBufType nPixelSpace nLineSpace =>
  if negb (nSources =? 2) then (CE_Failure, pData) else
  (CE_None,
   for_pixels nYSize nXSize (fun iLine iCol pData =>
     let ii := iLine * nXSize + iCol in
     let beta0 := SRCVAL papoSources.[0] eSrcType ii in
     let sigma0 := SRCVAL papoSources.[1] eSrcType ii in
     let incidence : double :=
       if negb (beta0 =? 0)%float then (asin (sigma0 / beta0) * 180 / PI)%float
       else 0%float in
     GDALCopyWords (AtDouble incidence) GDT_Float64 0
                   pData (nLineSpace * iLine + iCol * nPixelSpace)
                   eBufType nPixelSpace 1) pData).

Definition UVToMagnitude : PixelFunc :=
  fun papoSources nSources pData nXSize nYSize eSrcType eBufType nPixelSpace nLineSpace =>
  if negb (nSources =? 2) then (CE_Failure, pData) else
  (CE_None,
   for_pixels nYSize nXSize (fun iLine iCol pData =>
     let ii := iLine * nXSize + iCol in
     let u := SRCVAL papoSources.[0] eSrcType ii in
     let v := SRCVAL papoSources.[1] eSrcType ii in
     let magnitude := C.sqrt (u * u + v * v) in
     GDALCopyWords (AtDouble magnitude) GDT_Float64 0
                   pData (nLineSpace * iLine + iCol * nPixelSpace)
                   eBufType nPixelSpace 1) pData).

Definition UVToDirectionTo : PixelFunc :=
  fun papoSources nSources pData nXSize nYSize eSrcType eBufType nPixelSpace nLineSpace =>
  if negb (nSources =? 2) then (CE_Failure, pData) else
  (CE_None,
   for_pixels nYSize nXSize (fun iLine iCol pData =>
     let ii := iLine * nXSize + iCol in
     let u := SRCVAL papoSources.[0] eSrcType ii in
     let v := SRCVAL papoSources.[1] eSrcType ii in
     let winddir_to := (atan2 (- u) (- v) * 180 / PI)%float in
     let winddir_to := (winddir_to + 180)%float in
     GDALCopyWords (AtDouble winddir_to) GDT_Float64 0
                   pData (nLineSpace * iLine + iCol * nPixelSpace)
                   eBufType nPixelSpace 1) pData).

Definition UVToDirectionFrom : PixelFunc :=
  fun papoSources nSources pData nXSize nYSize eSrcType eBufType nPixelSpace nLineSpace =>
  if negb (nSources =? 2) then (CE_Failure, pData) else
  (CE_None,
   for_pixels nYSize nXSize (fun iLine iCol pData =>
     let ii := iLine * nXSize + iCol in
     let u := SRCVAL papoSources.[0] eSrcType ii in
     let v := SRCVAL papoSources.[1] eSrcType ii in
     let winddir_from := (atan2 u v * 180 / PI)%float in
     let winddir_from := (winddir_from + 180)%float in
     GDALCopyWords (AtDouble winddir_from) GDT_Float64 0
                   pData (nLineSpace * iLine + iCol * nPixelSpace)
                   eBufType nPixelSpace 1) pData).

Definition Sigma0HHIncidenceToSigma0VV : PixelFunc :=
  fun papoSources nSources pData nXSize nYSize eSrcType eBufType nPixelSpace nLineSpace =>
  if negb (nSources =? 2) then (CE_Failure, pData) else
  (CE_None,
   for_pixels nYSize nXSize (fun iLine iCol pData =>
     let ii := iLine * nXSize + iCol in
     let sigma0HH := SRCVAL papoSources.[0] eSrcType ii in
     let incidence_angle := (SRCVAL papoSources.[1] eSrcType ii * PI)%float in
     let incidence_angle := (incidence_angle / 180)%float in
     let factor :=
       pow ((1 + 2 * pow (tan incidence_angle) 2)
            / (1 + 0.6 * pow (tan incidence_angle) 2)) 2 in
     let sigma0VV := (sigma0HH * factor)%float in
     GDALCopyWords (AtDouble sigma0VV) GDT_Float64 0
                   pData (nLineSpace * iLine + iCol * nPixelSpace)
                   eBufType nPixelSpace 1) pData).

(** *** Registration *)

(** Modelled from the spec: [GDALAddDerivedBandPixelFunc] of gdal.h, the
    registration surface of section 6.  The host keeps a name-to-transform
    table: registering a function under a name binds the name to it, in
    place of the function the name was bound to before, if any. *)
Fixpoint GDALAddDerivedBandPixelFunc (pszFuncName : string) (pfnPixelFunc : PixelFunc)
    (registry : list (string * PixelFunc)) : list (string * PixelFunc) :=
  match registry with
  | [] => [(pszFuncName, pfnPixelFunc)]
  | (name, f) :: registry' =>
      if String.eqb name pszFuncName
      then (pszFuncName, pfnPixelFunc) :: registry'
      else (name, f) :: GDALAddDerivedBandPixelFunc pszFuncName pfnPixelFunc registry'
  end.

Definition GDALRegisterDefaultPixelFunc (registry : list (string * PixelFunc))
  : CPLErr * list (string * PixelFunc) :=
  let registry := GDALAddDerivedBandPixelFunc "real" RealPixelFunc registry in
  let registry := GDALAddDerivedBandPixelFunc "imag" ImagPixelFunc registry in
  let registry := GDALAddDerivedBandPixelFunc "mod" ModulePixelFunc registry in
  let registry := GDALAddDerivedBandPixelFunc "phase" PhasePixelFunc registry in
  let registry := GDALAddDerivedBandPixelFunc "conj" ConjPixelFunc registry in
  let registry := GDALAddDerivedBandPixelFunc "sum" SumPixelFunc registry in
  let registry := GDALAddDerivedBandPixelFunc "diff" DiffPixelFunc registry in
  let registry := GDALAddDerivedBandPixelFunc "mul" MulPixelFunc registry in
  let registry := GDALAddDerivedBandPixelFunc "cmul" CMulPixelFunc registry in
  let registry := GDALAddDerivedBandPixelFunc "inv" InvPixelFunc registry in
  let registry := GDALAddDerivedBandPixelFunc "intensity" IntensityPixelFunc registry in
  let registry := GDALAddDerivedBandPixelFunc "sqrt" SqrtPixelFunc registry in
  let registry := GDALAddDerivedBandPixelFunc "log10" Log10PixelFunc registry in
  let registry := GDALAddDerivedBandPixelFunc "dB2amp" dB2AmpPixelFunc registry in
  let registry := GDALAddDerivedBandPixelFunc "dB2pow" dB2PowPixelFunc registry in
  let registry :=
    GDALAddDerivedBandPixelFunc "BetaSigmaToIncidence" BetaSigmaToIncidence registry in
  let registry := GDALAddDerivedBandPixelFunc "UVToMagnitude" UVToMagnitude registry in
  let registry := GDALAddDerivedBandPixelFunc "UVToDirectionTo" UVToDirectionTo registry in
  let registry :=
    GDALAddDerivedBandPixelFunc "UVToDirectionFrom" UVToDirectionFrom registry in
  let registry :=
    GDALAddDerivedBandPixelFunc "Sigma0HHIncidenceToSigma0VV"
      Sigma0HHIncidenceToSigma0VV registry in
  (CE_None, registry).

End PixelFunctions.

(** ** A host

    A little-endian IEEE-754 host with GDAL's conversions, and the results
    Annex F of the C standard prescribes for <math.h>.  The properties below
    hold for every host; this one evaluates the functions on examples. *)

Module Host.

Definition byte_of_Z (z : Z) : byte :=
  match Byte.of_N (Z.to_N (z mod 256)) with
  | Some b => b
  | None => x00
  end.

Definition Z_of_byte (b : byte) : Z := Z.of_N (Byte.to_N b).

(** The [n] low bytes of [z], least significant first (two's complement). *)
Fixpoint bytes_of_Z (n : nat) (z : Z) : list byte :=
  match n with
  | O => []
  | S n' => byte_of_Z z :: bytes_of_Z n' (z / 256)
  end.

Fixpoint Z_of_bytes (l : list byte) : Z :=
  match l with
  | [] => 0
  | b :: l' => Z_of_byte b + 256 * Z_of_bytes l'
  end.

(** The signed reading of a [bits]-bit pattern. *)
Definition signed (bits : Z) (u : Z) : Z :=
  if u <? 2 ^ (bits - 1) then u else u - 2 ^ bits.

(** The IEEE-754 interchange format with [mw] fraction bits and [ew]
    exponent bits ([mw = 52, ew = 11] for binary64; [23, 8] for binary32).
    The kernel's floats have one not-a-number: every NaN pattern is read as
    it, and it is stored as the positive quiet NaN with an empty payload.
    So the sign and the payload of a NaN are not tracked through a copy;
    every other number keeps its bits. *)
Definition bits_of_SF (mw ew : Z) (f : spec_float) : Z :=
  let sign (s : bool) := if s then 2 ^ (mw + ew) else 0 in
  let bias := 2 ^ (ew - 1) - 1 in
  match f with
  | S754_zero s => sign s
  | S754_infinity s => sign s + (2 ^ ew - 1) * 2 ^ mw
  | S754_nan => (2 ^ ew - 1) * 2 ^ mw + 2 ^ (mw - 1)
  | S754_finite s m e =>
      if 2 ^ mw <=? Z.pos m
      then sign s + (e + mw + bias) * 2 ^ mw + (Z.pos m - 2 ^ mw)
      else sign s + Z.pos m
  end.

Definition SF_of_bits (mw ew : Z) (u : Z) : spec_float :=
  let s := Z.odd (u / 2 ^ (mw + ew)) in
  let E := (u / 2 ^ mw) mod 2 ^ ew in
  let M := u mod 2 ^ mw in
  let bias := 2 ^ (ew - 1) - 1 in
  if E =? 2 ^ ew - 1 then (if M =? 0 then S754_infinity s else S754_nan)
  else if E =? 0 then
    match M with
    | Z.pos m => S754_finite s m (1 - bias - mw)
    | _ => S754_zero s
    end
  else
    match 2 ^ mw + M with
    | Z.pos m => S754_finite s m (E - bias - mw)
    | _ => S754_zero s
    end.

(** [(float) v]: round to nearest, ties to even. *)
Definition float_of_double (v : double) : spec_float :=
  match Prim2SF v with
  | S754_finite s m e => binary_round 24 128 s m e
  | f => f
  end.

(** [floor] of a finite [double]. *)
Definition floor (x : double) : Z :=
  match Prim2SF x with
  | S754_finite s m e =>
      let a := if s then Z.neg m else Z.pos m in
      if 0 <=? e then a * 2 ^ e else a / 2 ^ (- e)
  | _ => 0
  end.

(** GDAL's conversion of a [double] to an integer type with the values
    [lo .. hi]: round half up and clamp; not-a-number gives 0. *)
Definition clamp_round (lo hi : Z) (v : double) : Z :=
  if is_nan v then 0 else
  let w := (v + 0.5)%float in
  if (w <? C.double_of_int lo)%float then lo
  else if (C.double_of_int hi <? w)%float then hi
  else floor w.

Definition host_decode (t : CType) (l : list byte) : double :=
  match t with
  | GByte | GUInt16 | GUInt32 => C.double_of_int (Z_of_bytes l)
  | GInt16 => C.double_of_int (signed 16 (Z_of_bytes l))
  | GInt32 => C.double_of_int (signed 32 (Z_of_bytes l))
  | c_float => SF2Prim (SF_of_bits 23 8 (Z_of_bytes l))
  | c_double => SF2Prim (SF_of_bits 52 11 (Z_of_bytes l))
  end.

Definition host_encode (t : CType) (v : double) : list byte :=
  bytes_of_Z (Z.to_nat (sizeof t))
    match t with
    | GByte => clamp_round 0 255 v
    | GUInt16 => clamp_round 0 65535 v
    | GInt16 => clamp_round (-32768) 32767 v
    | GUInt32 => clamp_round 0 4294967295 v
    | GInt32 => clamp_round C.INT_MIN C.INT_MAX v
    | c_float => bits_of_SF 23 8 (float_of_double v)
    | c_double => bits_of_SF 52 11 (Prim2SF v)
    end.

Lemma bytes_of_Z_length (n : nat) (z : Z) : List.length (bytes_of_Z n z) = n.
Proof.
  revert z; induction n as [|n IH]; intros z; simpl; [reflexivity|].
  now rewrite IH.
Qed.

Lemma host_encode_length (t : CType) (v : double) :
  Z.of_nat (List.length (host_encode t v)) = sizeof t.
Proof.
  unfold host_encode. rewrite bytes_of_Z_length. destruct t; reflexivity.
Qed.

Definition codec : Codec :=
  {| decode := host_decode; encode := host_encode; encode_length := host_encode_length |}.

(** A packed buffer holding the numbers [l] at type [t]. *)
Fixpoint buffer_of (t : CType) (l : list double) (ofs : Z) (b : Buffer) : Buffer :=
  match l with
  | [] => b
  | v :: l' => buffer_of t l' (ofs + sizeof t) (store_bytes b ofs (host_encode t v))
  end.

Definition packed (t : CType) (l : list double) : Ptr :=
  {| ptr_buf := buffer_of t l 0 zero_buffer; ptr_ofs := 0 |}.

End Host.

(** The results Annex F (F.9) of the C standard prescribes for the functions
    of <math.h>.  An argument the annex says nothing exact about has no entry
    in these tables; the value given there, [nan], stands for no host. *)

Module AnnexF.

Definition pi : double := 0x1.921fb54442d18p+1.
Definition pi_2 : double := 0x1.921fb54442d18p+0.
Definition pi_4 : double := 0x1.921fb54442d18p-1.
Definition pi_3_4 : double := 0x1.2d97c7f3321d2p+1.

(** [copysign(v, y)] for a [v] that is not negative. *)
Definition with_sign_of (y v : double) : double :=
  if get_sign y then (- v)%float else v.

Definition annexF_atan2 (y x : double) : double :=
  if is_nan y || is_nan x then nan
  else if is_zero y then
    if get_sign x then with_sign_of y pi else with_sign_of y 0
  else if is_zero x then with_sign_of y pi_2
  else if is_infinity y then
    if is_infinity x
    then (if get_sign x then with_sign_of y pi_3_4 else with_sign_of y pi_4)
    else with_sign_of y pi_2
  else if is_infinity x then
    if get_sign x then with_sign_of y pi else with_sign_of y 0
  else nan.

Definition annexF_asin (x : double) : double :=
  if is_nan x then nan
  else if is_zero x then x
  else if (1 <? abs x)%float then nan
  else nan.

Definition annexF_log10 (x : double) : double :=
  if is_nan x then nan
  else if is_zero x then neg_infinity
  else if (x <? 0)%float then nan
  else if (x =? 1)%float then 0%float
  else if is_infinity x then infinity
  else nan.

Definition annexF_pow (x y : double) : double :=
  if is_zero y then 1%float
  else if (x =? 1)%float then 1%float
  else nan.

Definition annexF_tan (x : double) : double :=
  if is_nan x then nan
  else if is_zero x then x
  else nan.

Definition libm : LibM :=
  {| atan2 := annexF_atan2; asin := annexF_asin; log10 := annexF_log10;
     pow := annexF_pow; tan := annexF_tan |}.

End AnnexF.

(** ** The catalog of the specification *)

Inductive Arity := Exactly (n : Z) | AtLeast (n : Z).

Definition arity_holds (a : Arity) (nSources : Z) : bool :=
  match a with
  | Exactly n => nSources =? n
  | AtLeast n => n <=? nSources
  end.

(** Modelled from the spec: the catalog of section 4.3, each transform with
    its arity and whether it rejects a complex source. *)
Definition catalog : list (string * (Arity * bool)) :=
  [ ("real", (Exactly 1, false));
    ("imag", (Exactly 1, false));
    ("mod", (Exactly 1, false));
    ("phase", (Exactly 1, false));
    ("conj", (Exactly 1, false));
    ("sum", (AtLeast 2, false));
    ("diff", (Exactly 2, false));
    ("mul", (AtLeast 2, false));
    ("cmul", (Exactly 2, false));
    ("inv", (Exactly 1, false));
    ("intensity", (Exactly 1, false));
    ("sqrt", (Exactly 1, true));
    ("log10", (Exactly 1, false));
    ("dB2amp", (Exactly 1, true));
    ("dB2pow", (Exactly 1, true));
    ("BetaSigmaToIncidence", (Exactly 2, false));
    ("UVToMagnitude", (Exactly 2, false));
    ("UVToDirectionTo", (Exactly 2, false));
    ("UVToDirectionFrom", (Exactly 2, false));
    ("Sigma0HHIncidenceToSigma0VV", (Exactly 2, false)) ]%string.

Fixpoint catalog_entry (l : list (string * (Arity * bool))) (name : string)
  : option (Arity * bool) :=
  match l with
  | [] => None
  | (n, e) :: l' => if String.eqb n name then Some e else catalog_entry l' name
  end.

(** A call has a shape error when the number of sources is not the one the
    transform takes (ArityMismatch) or when the source type is complex and
    the transform takes real sources only (UnsupportedType). *)
Definition shape_error (name : string) (nSources : Z) (eSrcType : GDALDataType) : bool :=
  match catalog_entry catalog name with
  | Some (a, real_only) =>
      negb (arity_holds a nSources) || (real_only && GDALDataTypeIsComplex eSrcType)
  | None => false
  end.


(** [x] and [y] are the same number: the same [double], or equal as IEEE
    numbers, for which a zero of either sign is the same number. *)
Definition same_number (x y : double) : Prop := x = y \/ (x =? y)%float = true.

(** ** What a call writes *)

(** [i; i + 1; ...], [k] numbers. *)
Fixpoint zfrom (i : Z) (k : nat) : list Z :=
  match k with
  | O => []
  | S k' => i :: zfrom (i + 1) k'
  end.

(** The positions [(row, col)] of a tile of [nYSize] lines and [nXSize]
    columns, in row-major order. *)
Definition tile (nYSize nXSize : Z) : list (Z * Z) :=
  flat_map (fun row => map (pair row) (zfrom 0 (Z.to_nat nXSize)))
           (zfrom 0 (Z.to_nat nYSize)).

(** The destination after the word [val row col] was converted and stored
    at the address of each position [(row, col)] of the tile, in row-major
    order. *)
Definition write_tile {codec : Codec} (eBufType : GDALDataType)
    (nPixelSpace nLineSpace : Z) (nYSize nXSize : Z)
    (val : Z -> Z -> double * double) (pData : Buffer) : Buffer :=
  fold_left (fun d rc =>
               store_word eBufType d (nLineSpace * fst rc + snd rc * nPixelSpace)
                          (val (fst rc) (snd rc)))
            (tile nYSize nXSize) pData.

(** The byte address of a position in a packed buffer of complex words
    whose parts have type [t]. *)
Definition packed_ofs (t : CType) (nXSize : Z) (rc : Z * Z) : Z :=
  2 * sizeof t * nXSize * fst rc + snd rc * (2 * sizeof t).

(** The width of an element in bytes. *)
Definition word_size (eType : GDALDataType) : Z := GDALGetDataTypeSize eType ÷ 8.

(** The word read back from where [w] was stored at type [eType]: each part
    converted to the type of the parts and promoted again. *)
Definition converted {codec : Codec} (eType : GDALDataType) (w : double * double)
  : double * double :=
  match part_type eType with
  | None => (0, 0)%float
  | Some t =>
      (decode t (encode t (fst w)),
       if GDALDataTypeIsComplex eType then decode t (encode t (snd w)) else 0%float)
  end.

(** ** Examples on the host *)

(** A destination buffer filled with a sentinel pattern. *)
Definition sentinel : Buffer := fun _ => xa5.

(** The samples at the indices [l] of a packed buffer of type [eType], as
    the host reads them. *)
Definition host_samples (b : Buffer) (eType : GDALDataType) (l : list Z) : list double :=
  map (SRCVAL (codec := Host.codec) {| ptr_buf := b; ptr_ofs := 0 |} eType) l.


(** conj applied to a packed one-sample buffer of 16-bit complex integers,
    on the host, and the imaginary part of what it leaves. *)
Definition conj_CInt16 (pSrc : Ptr) : Ptr :=
  {| ptr_buf :=
       snd (ConjPixelFunc (codec := Host.codec) [pSrc] 1 zero_buffer
              1 1 GDT_CInt16 GDT_CInt16 4 4);
     ptr_ofs := 0 |}.

Definition imag_CInt16 (p : Ptr) : double :=
  SRCVAL (codec := Host.codec) (ptr_add p 2) GDT_CInt16 0.

(** ** Loops *)

Lemma fold_left_ext_in {A B : Type} (f g : A -> B -> A) (l : list B) :
  (forall a x, In x l -> f a x = g a x) ->
  forall a, fold_left f l a = fold_left g l a.
Proof.
  induction l as [|x l IH]; intros E a; simpl; [reflexivity|].
  rewrite (E a x (or_introl eq_refl)).
  apply IH. intros a' y Hy. apply E. now right.
Qed.

Lemma fold_left_flat_map {A B C : Type} (f : A -> C -> A) (g : B -> list C)
    (l : list B) (a : A) :
  fold_left f (flat_map g l) a = fold_left (fun a x => fold_left f (g x) a) l a.
Proof.
  revert a; induction l as [|x l IH]; intros a; simpl; [reflexivity|].
  now rewrite fold_left_app, IH.
Qed.

Lemma fold_left_map {A B C : Type} (f : A -> C -> A) (h : B -> C)
    (l : list B) (a : A) :
  fold_left f (map h l) a = fold_left (fun a x => f a (h x)) l a.
Proof.
  revert a; induction l as [|x l IH]; intros a; simpl; [reflexivity|].
  apply IH.
Qed.

Lemma in_zfrom (j i : Z) (k : nat) :
  In j (zfrom i k) <-> i <= j < i + Z.of_nat k.
Proof.
  revert i; induction k as [|k IH]; intros i; simpl.
  - split; [tauto | lia].
  - rewrite IH. lia.
Qed.

Lemma in_tile (row col nYSize nXSize : Z) :
  In (row, col) (tile nYSize nXSize) <->
  0 <= row < nYSize /\ 0 <= col < nXSize.
Proof.
  unfold tile. rewrite in_flat_map. split.
  - intros (r & Hr & Hc). apply in_map_iff in Hc as (c & E & Hc).
    inversion E; subst. apply in_zfrom in Hr, Hc. lia.
  - intros [Hr Hc]. exists row. split.
    + apply in_zfrom. lia.
    + apply in_map. apply in_zfrom. lia.
Qed.

Lemma for_from_fold {St : Type} (k : nat) (i : Z) (body : Z -> St -> St) (s : St) :
  for_from k i body s = fold_left (fun s j => body j s) (zfrom i k) s.
Proof.
  revert i s; induction k as [|k IH]; intros i s; simpl; [reflexivity|].
  apply IH.
Qed.

(** The inner loop of [for_pixels_ii]: it runs the body on the columns in
    order, the counter going up by one from one column to the next. *)
Lemma columns_ii (body : Z -> Z -> Buffer -> Buffer) (k : nat) (c0 ii0 : Z) (d : Buffer) :
  fold_left (fun (st : Z * Buffer) c => (fst st + 1, body c (fst st) (snd st)))
            (zfrom c0 k) (ii0, d)
  = (ii0 + Z.of_nat k,
     fold_left (fun d c => body c (ii0 + (c - c0)) d) (zfrom c0 k) d).
Proof.
  revert c0 ii0 d; induction k as [|k IH]; intros c0 ii0 d.
  - simpl. f_equal. lia.
  - cbn [zfrom fold_left fst snd]. rewrite IH. f_equal; [lia|].
    replace (ii0 + (c0 - c0)) with ii0 by lia.
    apply fold_left_ext_in. intros a c _. f_equal. lia.
Qed.

Lemma rows_ii (body : Z -> Z -> Z -> Buffer -> Buffer) (w h : nat) (r0 : Z) (d : Buffer) :
  fold_left (fun (st : Z * Buffer) r =>
               fold_left (fun (st : Z * Buffer) c =>
                            (fst st + 1, body r c (fst st) (snd st)))
                         (zfrom 0 w) st)
            (zfrom r0 h) (r0 * Z.of_nat w, d)
  = ((r0 + Z.of_nat h) * Z.of_nat w,
     fold_left (fun d r =>
                  fold_left (fun d c => body r c (r * Z.of_nat w + c) d) (zfrom 0 w) d)
               (zfrom r0 h) d).
Proof.
  revert r0 d; induction h as [|h IH]; intros r0 d.
  - simpl. f_equal. lia.
  - cbn [zfrom fold_left].
    rewrite (columns_ii (body r0)).
    replace (r0 * Z.of_nat w + Z.of_nat w) with ((r0 + 1) * Z.of_nat w) by lia.
    rewrite IH. f_equal; [lia|]. f_equal.
    apply fold_left_ext_in. intros a c _. f_equal. lia.
Qed.

(** [for_pixels_ii] runs its body once on each position of the tile, in
    row-major order, and the counter [ii] is the linear index
    [row * nXSize + col] of the position. *)
Lemma for_pixels_ii_tile (nYSize nXSize : Z)
    (body : Z -> Z -> Z -> Buffer -> Buffer) (pData : Buffer) :
  for_pixels_ii nYSize nXSize body pData
  = fold_left (fun d rc => body (fst rc) (snd rc) (fst rc * nXSize + snd rc) d)
              (tile nYSize nXSize) pData.
Proof.
  unfold for_pixels_ii, c_for, tile.
  rewrite for_from_fold.
  rewrite (fold_left_ext_in _
             (fun (st : Z * Buffer) r =>
                fold_left (fun (st : Z * Buffer) c =>
                             (fst st + 1, body r c (fst st) (snd st)))
                          (zfrom 0 (Z.to_nat nXSize)) st))
    by (intros a r _; apply for_from_fold).
  change (0, pData) with (0 * Z.of_nat (Z.to_nat nXSize), pData).
  rewrite rows_ii. cbn [snd].
  rewrite fold_left_flat_map.
  apply fold_left_ext_in. intros d r _.
  rewrite fold_left_map. cbn [fst snd].
  apply fold_left_ext_in. intros d' c Hc.
  apply in_zfrom in Hc.
  replace (Z.of_nat (Z.to_nat nXSize)) with nXSize by lia.
  reflexivity.
Qed.

Lemma for_pixels_tile (nYSize nXSize : Z)
    (body : Z -> Z -> Buffer -> Buffer) (pData : Buffer) :
  for_pixels nYSize nXSize body pData
  = fold_left (fun d rc => body (fst rc) (snd rc) d) (tile nYSize nXSize) pData.
Proof.
  unfold for_pixels, c_for, tile.
  rewrite for_from_fold, fold_left_flat_map.
  apply fold_left_ext_in. intros d r _.
  rewrite for_from_fold, fold_left_map. reflexivity.
Qed.

(** Reading the sources [papoSources[0]], ..., [papoSources[nSources - 1]]
    in a loop is a fold over the list of the sources. *)
Lemma for_sources_fold_aux {A : Type} (f : A -> Ptr -> A) (l2 l1 : list Ptr) (a : A) :
  fold_left (fun a iSrc => f a (l1 ++ l2).[iSrc])
            (zfrom (Z.of_nat (List.length l1)) (List.length l2)) a
  = fold_left f l2 a.
Proof.
  revert l1 a; induction l2 as [|p l2 IH]; intros l1 a; [reflexivity|].
  cbn [List.length zfrom fold_left].
  replace (at_index (l1 ++ p :: l2) (Z.of_nat (List.length l1))) with p
    by (unfold at_index; now rewrite Nat2Z.id, nth_middle).
  specialize (IH (l1 ++ [p]) (f a p)).
  rewrite <- app_assoc, length_app, Nat2Z.inj_add in IH. exact IH.
Qed.

Lemma for_sources_fold {A : Type} (f : A -> Ptr -> A) (papoSources : list Ptr)
    (nSources : Z) (a : A) :
  nSources = Z.of_nat (List.length papoSources) ->
  c_for nSources (fun iSrc a => f a papoSources.[iSrc]) a = fold_left f papoSources a.
Proof.
  intros ->. unfold c_for. rewrite for_from_fold, Nat2Z.id.
  exact (for_sources_fold_aux f papoSources [] a).
Qed.

Section Properties.

Context {codec : Codec} {libm : LibM}.

(** Copying one word stores the word found at the source. *)
Lemma GDALCopyWords_one (pSrcData : WordSource) (eSrcType : GDALDataType)
    (nSrcPixelOffset : Z) (pDstData : Buffer) (nDstOfs : Z) (eDstType : GDALDataType)
    (nDstPixelOffset : Z) :
  GDALCopyWords pSrcData eSrcType nSrcPixelOffset pDstData nDstOfs eDstType
                nDstPixelOffset 1
  = store_word eDstType pDstData nDstOfs (read_word pSrcData eSrcType 0).
Proof.
  unfold GDALCopyWords. simpl. now rewrite Z.add_0_r.
Qed.

(** A pixel loop whose body copies one local word to the address of its
    position writes the tile. *)
Lemma pixels_ii_write_tile (eBufType : GDALDataType) (nPixelSpace nLineSpace : Z)
    (nYSize nXSize : Z) (src : Z -> WordSource) (eType : GDALDataType)
    (nSrcPixelOffset : Z -> Z) (val : Z -> Z -> double * double) (pData : Buffer) :
  (forall row col, read_word (src (row * nXSize + col)) eType 0 = val row col) ->
  for_pixels_ii nYSize nXSize (fun iLine iCol ii pData =>
    GDALCopyWords (src ii) eType (nSrcPixelOffset ii)
                  pData (nLineSpace * iLine + iCol * nPixelSpace)
                  eBufType nPixelSpace 1) pData
  = write_tile eBufType nPixelSpace nLineSpace nYSize nXSize val pData.
Proof.
  intros E. unfold write_tile. rewrite for_pixels_ii_tile.
  apply fold_left_ext_in. intros d [row col] _. cbn [fst snd].
  now rewrite GDALCopyWords_one, E.
Qed.

Lemma pixels_write_tile (eBufType : GDALDataType) (nPixelSpace nLineSpace : Z)
    (nYSize nXSize : Z) (src : Z -> WordSource) (eType : GDALDataType)
    (val : Z -> Z -> double * double) (pData : Buffer) :
  (forall row col, read_word (src (row * nXSize + col)) eType 0 = val row col) ->
  for_pixels nYSize nXSize (fun iLine iCol pData =>
    GDALCopyWords (src (iLine * nXSize + iCol)) eType 0
                  pData (nLineSpace * iLine + iCol * nPixelSpace)
                  eBufType nPixelSpace 1) pData
  = write_tile eBufType nPixelSpace nLineSpace nYSize nXSize val pData.
Proof.
  intros E. unfold write_tile. rewrite for_pixels_tile.
  apply fold_left_ext_in. intros d [row col] _. cbn [fst snd].
  now rewrite GDALCopyWords_one, E.
Qed.

(** *** sum *)

Lemma SumPixelFunc_real (papoSources : list Ptr) (nSources : Z) (pData : Buffer)
    (nXSize nYSize : Z) (eSrcType eBufType : GDALDataType) (nPixelSpace nLineSpace : Z) :
  nSources = Z.of_nat (List.length papoSources) ->
  2 <= nSources ->
  GDALDataTypeIsComplex eSrcType = false ->
  SumPixelFunc papoSources nSources pData nXSize nYSize eSrcType eBufType
               nPixelSpace nLineSpace
  = (CE_None,
     write_tile eBufType nPixelSpace nLineSpace nYSize nXSize
       (fun row col =>
          (fold_left (fun dfSum p => (dfSum + SRCVAL p eSrcType (row * nXSize + col))%float)
                     papoSources 0%float,
           0%float))
       pData).
Proof.
  intros Hn H2 Hc. unfold SumPixelFunc.
  destruct (Z.ltb_spec nSources 2) as [?|_]; [lia|]. rewrite Hc. f_equal.
  apply (pixels_ii_write_tile _ _ _ _ _
           (fun ii => AtDouble (c_for nSources (fun iSrc (dfSum : double) =>
              (dfSum + SRCVAL papoSources.[iSrc] eSrcType ii)%float) 0%float))
           GDT_Float64 (fun _ => 0)).
  intros row col. cbn [read_word]. f_equal.
  exact (for_sources_fold (fun dfSum p => (dfSum + SRCVAL p eSrcType (row * nXSize + col))%float)
           papoSources nSources 0%float Hn).
Qed.

(** *** mod, phase, log10, inv *)

Lemma ModulePixelFunc_complex (papoSources : list Ptr) (pData : Buffer)
    (nXSize nYSize : Z) (eSrcType eBufType : GDALDataType) (nPixelSpace nLineSpace : Z) :
  GDALDataTypeIsComplex eSrcType = true ->
  ModulePixelFunc papoSources 1 pData nXSize nYSize eSrcType eBufType
                  nPixelSpace nLineSpace
  = (CE_None,
     write_tile eBufType nPixelSpace nLineSpace nYSize nXSize
       (fun row col =>
          let dfReal := SRCVAL papoSources.[0] eSrcType (row * nXSize + col) in
          let dfImag :=
            SRCVAL (ptr_add papoSources.[0] (GDALGetDataTypeSize eSrcType ÷ 8 ÷ 2))
                   eSrcType (row * nXSize + col) in
          (C.sqrt (dfReal * dfReal + dfImag * dfImag), 0%float))
       pData).
Proof.
  intros Hc. unfold ModulePixelFunc. cbn [Z.eqb Pos.eqb negb]. rewrite Hc. f_equal.
  now apply (pixels_ii_write_tile _ _ _ _ _ (fun ii => AtDouble _) GDT_Float64 (fun _ => 0)).
Qed.

Lemma ModulePixelFunc_real (papoSources : list Ptr) (pData : Buffer)
    (nXSize nYSize : Z) (eSrcType eBufType : GDALDataType) (nPixelSpace nLineSpace : Z) :
  GDALDataTypeIsComplex eSrcType = false ->
  ModulePixelFunc papoSources 1 pData nXSize nYSize eSrcType eBufType
                  nPixelSpace nLineSpace
  = (CE_None,
     write_tile eBufType nPixelSpace nLineSpace nYSize nXSize
       (fun row col =>
          (C.double_of_int
             (C.abs (C.int_of_double
                       (SRCVAL papoSources.[0] eSrcType (row * nXSize + col)))),
           0%float))
       pData).
Proof.
  intros Hc. unfold ModulePixelFunc. cbn [Z.eqb Pos.eqb negb]. rewrite Hc. f_equal.
  now apply (pixels_ii_write_tile _ _ _ _ _ (fun ii => AtDouble _) GDT_Float64 (fun _ => 0)).
Qed.

Lemma PhasePixelFunc_complex (papoSources : list Ptr) (pData : Buffer)
    (nXSize nYSize : Z) (eSrcType eBufType : GDALDataType) (nPixelSpace nLineSpace : Z) :
  GDALDataTypeIsComplex eSrcType = true ->
  PhasePixelFunc papoSources 1 pData nXSize nYSize eSrcType eBufType
                 nPixelSpace nLineSpace
  = (CE_None,
     write_tile eBufType nPixelSpace nLineSpace nYSize nXSize
       (fun row col =>
          let dfReal := SRCVAL papoSources.[0] eSrcType (row * nXSize + col) in
          let dfImag :=
            SRCVAL (ptr_add papoSources.[0] (GDALGetDataTypeSize eSrcType ÷ 8 ÷ 2))
                   eSrcType (row * nXSize + col) in
          (atan2 dfImag dfReal, 0%float))
       pData).
Proof.
  intros Hc. unfold PhasePixelFunc. cbn [Z.eqb Pos.eqb negb]. rewrite Hc. f_equal.
  now apply (pixels_ii_write_tile _ _ _ _ _ (fun ii => AtDouble _) GDT_Float64 (fun _ => 0)).
Qed.

Lemma PhasePixelFunc_real (papoSources : list Ptr) (pData : Buffer)
    (nXSize nYSize : Z) (eSrcType eBufType : GDALDataType) (nPixelSpace nLineSpace : Z) :
  GDALDataTypeIsComplex eSrcType = false ->
  PhasePixelFunc papoSources 1 pData nXSize nYSize eSrcType eBufType
                 nPixelSpace nLineSpace
  = (CE_None,
     write_tile eBufType nPixelSpace nLineSpace nYSize nXSize
       (fun row col =>
          let dfReal := SRCVAL papoSources.[0] eSrcType (row * nXSize + col) in
          (if (dfReal <? 0)%float then atan2 0 (-1) else 0%float, 0%float))
       pData).
Proof.
  intros Hc. unfold PhasePixelFunc. cbn [Z.eqb Pos.eqb negb]. rewrite Hc. f_equal.
  now apply (pixels_ii_write_tile _ _ _ _ _ (fun ii => AtDouble _) GDT_Float64
               (fun ii => C.int_of_double _)).
Qed.

Lemma Log10PixelFunc_complex (papoSources : list Ptr) (pData : Buffer)
    (nXSize nYSize : Z) (eSrcType eBufType : GDALDataType) (nPixelSpace nLineSpace : Z) :
  GDALDataTypeIsComplex eSrcType = true ->
  Log10PixelFunc papoSources 1 pData nXSize nYSize eSrcType eBufType
                 nPixelSpace nLineSpace
  = (CE_None,
     write_tile eBufType nPixelSpace nLineSpace nYSize nXSize
       (fun row col =>
          let dfReal := SRCVAL papoSources.[0] eSrcType (row * nXSize + col) in
          let dfImag :=
            SRCVAL (ptr_add papoSources.[0] (GDALGetDataTypeSize eSrcType ÷ 8 ÷ 2))
                   eSrcType (row * nXSize + col) in
          (log10 (dfReal * dfReal + dfImag * dfImag), 0%float))
       pData).
Proof.
  intros Hc. unfold Log10PixelFunc. cbn [Z.eqb Pos.eqb negb]. rewrite Hc. f_equal.
  now apply (pixels_ii_write_tile _ _ _ _ _ (fun ii => AtDouble _) GDT_Float64 (fun _ => 0)).
Qed.

Lemma Log10PixelFunc_real (papoSources : list Ptr) (pData : Buffer)
    (nXSize nYSize : Z) (eSrcType eBufType : GDALDataType) (nPixelSpace nLineSpace : Z) :
  GDALDataTypeIsComplex eSrcType = false ->
  Log10PixelFunc papoSources 1 pData nXSize nYSize eSrcType eBufType
                 nPixelSpace nLineSpace
  = (CE_None,
     write_tile eBufType nPixelSpace nLineSpace nYSize nXSize
       (fun row col =>
          (log10 (C.double_of_int
                    (C.abs (C.int_of_double
                              (SRCVAL papoSources.[0] eSrcType (row * nXSize + col))))),
           0%float))
       pData).
Proof.
  intros Hc. unfold Log10PixelFunc. cbn [Z.eqb Pos.eqb negb]. rewrite Hc. f_equal.
  now apply (pixels_ii_write_tile _ _ _ _ _ (fun ii => AtDouble _) GDT_Float64 (fun _ => 0)).
Qed.

Lemma InvPixelFunc_real (papoSources : list Ptr) (pData : Buffer)
    (nXSize nYSize : Z) (eSrcType eBufType : GDALDataType) (nPixelSpace nLineSpace : Z) :
  GDALDataTypeIsComplex eSrcType = false ->
  InvPixelFunc papoSources 1 pData nXSize nYSize eSrcType eBufType
               nPixelSpace nLineSpace
  = (CE_None,
     write_tile eBufType nPixelSpace nLineSpace nYSize nXSize
       (fun row col =>
          ((1 / SRCVAL papoSources.[0] eSrcType (row * nXSize + col))%float, 0%float))
       pData).
Proof.
  intros Hc. unfold InvPixelFunc. cbn [Z.eqb Pos.eqb negb]. rewrite Hc. f_equal.
  now apply (pixels_ii_write_tile _ _ _ _ _ (fun ii => AtDouble _) GDT_Float64 (fun _ => 0)).
Qed.

(** *** conj *)

Lemma ConjPixelFunc_complex (papoSources : list Ptr) (pData : Buffer)
    (nXSize nYSize : Z) (eSrcType eBufType : GDALDataType) (nPixelSpace nLineSpace : Z) :
  GDALDataTypeIsComplex eSrcType = true ->
  GDALDataTypeIsComplex eBufType = true ->
  ConjPixelFunc papoSources 1 pData nXSize nYSize eSrcType eBufType
                nPixelSpace nLineSpace
  = (CE_None,
     write_tile eBufType nPixelSpace nLineSpace nYSize nXSize
       (fun row col =>
          (SRCVAL papoSources.[0] eSrcType (row * nXSize + col),
           (- SRCVAL (ptr_add papoSources.[0] (GDALGetDataTypeSize eSrcType ÷ 8 ÷ 2))
                     eSrcType (row * nXSize + col))%float))
       pData).
Proof.
  intros Hs Hb. unfold ConjPixelFunc. cbn [Z.eqb Pos.eqb negb].
  rewrite Hs, Hb. cbn [andb]. f_equal.
  now apply (pixels_ii_write_tile _ _ _ _ _ (fun ii => AtDoubles _ _) GDT_CFloat64
               (fun _ => 0)).
Qed.

(** *** Nansat functions *)

Lemma BetaSigmaToIncidence_writes (papoSources : list Ptr) (pData : Buffer)
    (nXSize nYSize : Z) (eSrcType eBufType : GDALDataType) (nPixelSpace nLineSpace : Z) :
  BetaSigmaToIncidence papoSources 2 pData nXSize nYSize eSrcType eBufType
                       nPixelSpace nLineSpace
  = (CE_None,
     write_tile eBufType nPixelSpace nLineSpace nYSize nXSize
       (fun row col =>
          let beta0 := SRCVAL papoSources.[0] eSrcType (row * nXSize + col) in
          let sigma0 := SRCVAL papoSources.[1] eSrcType (row * nXSize + col) in
          (if negb (beta0 =? 0)%float then (asin (sigma0 / beta0) * 180 / PI)%float
           else 0%float,
           0%float))
       pData).
Proof.
  unfold BetaSigmaToIncidence. cbn [Z.eqb Pos.eqb negb]. f_equal.
  now apply (pixels_write_tile _ _ _ _ _
               (fun ii =>
                  let beta0 := SRCVAL papoSources.[0] eSrcType ii in
                  let sigma0 := SRCVAL papoSources.[1] eSrcType ii in
                  AtDouble (if negb (beta0 =? 0)%float
                            then (asin (sigma0 / beta0) * 180 / PI)%float
                            else 0%float))
               GDT_Float64).
Qed.

Lemma UVToDirectionTo_writes (papoSources : list Ptr) (pData : Buffer)
    (nXSize nYSize : Z) (eSrcType eBufType : GDALDataType) (nPixelSpace nLineSpace : Z) :
  UVToDirectionTo papoSources 2 pData nXSize nYSize eSrcType eBufType
                  nPixelSpace nLineSpace
  = (CE_None,
     write_tile eBufType nPixelSpace nLineSpace nYSize nXSize
       (fun row col =>
          let u := SRCVAL papoSources.[0] eSrcType (row * nXSize + col) in
          let v := SRCVAL papoSources.[1] eSrcType (row * nXSize + col) in
          ((atan2 (- u) (- v) * 180 / PI + 180)%float, 0%float))
       pData).
Proof.
  unfold UVToDirectionTo. cbn [Z.eqb Pos.eqb negb]. f_equal.
  now apply (pixels_write_tile _ _ _ _ _
               (fun ii =>
                  let u := SRCVAL papoSources.[0] eSrcType ii in
                  let v := SRCVAL papoSources.[1] eSrcType ii in
                  AtDouble (atan2 (- u) (- v) * 180 / PI + 180)%float)
               GDT_Float64).
Qed.

(** *** real *)

Lemma copy_words_fold (n : nat) (i : Z) (pSrcData : WordSource) (eSrcType : GDALDataType)
    (nSrcPixelOffset : Z) (pDstData : Buffer) (nDstOfs : Z) (eDstType : GDALDataType)
    (nDstPixelOffset : Z) :
  copy_words n i pSrcData eSrcType nSrcPixelOffset pDstData nDstOfs eDstType
             nDstPixelOffset
  = fold_left (fun d j =>
                 store_word eDstType d (nDstOfs + j * nDstPixelOffset)
                            (read_word pSrcData eSrcType (j * nSrcPixelOffset)))
              (zfrom i n) pDstData.
Proof.
  revert i pDstData; induction n as [|n IH]; intros i d; simpl; [reflexivity|].
  apply IH.
Qed.

(** A real destination type keeps the real part of a word only. *)
Lemma store_word_real (eType : GDALDataType) (b : Buffer) (ofs : Z) (w : double * double) :
  GDALDataTypeIsComplex eType = false ->
  store_word eType b ofs w = store_word eType b ofs (fst w, 0%float).
Proof.
  intros H. unfold store_word. now rewrite H.
Qed.

(** The real part of the [ii]-th word of a packed buffer is what [SRCVAL]
    reads at index [ii]. *)
Lemma load_word_SRCVAL (eType : GDALDataType) (p : Ptr) (ii : Z) :
  fst (load_word eType (ptr_buf p) (ptr_ofs p + GDALGetDataTypeSize eType ÷ 8 * ii))
  = SRCVAL p eType ii.
Proof.
  unfold load_word, SRCVAL, index.
  destruct eType; cbn [part_type GDALDataTypeIsComplex GDALGetDataTypeSize sizeof fst];
    try reflexivity;
    match goal with
    | |- decode _ (load_bytes _ ?a _) = decode _ (load_bytes _ ?b _) =>
        replace a with b; [reflexivity|]
    end;
    match goal with
    | |- context [?n ÷ 8] =>
        let v := eval vm_compute in (n ÷ 8) in change (n ÷ 8) with v
    end; lia.
Qed.

(** real copies each line of the tile with [GDALCopyWords]: it writes at
    each position the word of the source at the linear index of the
    position. *)
Lemma RealPixelFunc_writes (papoSources : list Ptr) (pData : Buffer)
    (nXSize nYSize : Z) (eSrcType eBufType : GDALDataType) (nPixelSpace nLineSpace : Z) :
  RealPixelFunc papoSources 1 pData nXSize nYSize eSrcType eBufType
                nPixelSpace nLineSpace
  = (CE_None,
     write_tile eBufType nPixelSpace nLineSpace nYSize nXSize
       (fun row col =>
          load_word eSrcType (ptr_buf papoSources.[0])
            (ptr_ofs papoSources.[0]
             + GDALGetDataTypeSize eSrcType ÷ 8 * (row * nXSize + col)))
       pData).
Proof.
  unfold RealPixelFunc. cbn [Z.eqb Pos.eqb negb]. f_equal.
  unfold write_tile, tile, c_for, GDALCopyWords.
  rewrite for_from_fold, fold_left_flat_map.
  apply fold_left_ext_in. intros d row _.
  rewrite copy_words_fold, fold_left_map.
  apply fold_left_ext_in. intros d' col _. cbn [fst snd read_word ptr_add ptr_buf ptr_ofs].
  do 2 f_equal. lia.
Qed.

Lemma RealPixelFunc_real_destination (papoSources : list Ptr) (pData : Buffer)
    (nXSize nYSize : Z) (eSrcType eBufType : GDALDataType) (nPixelSpace nLineSpace : Z) :
  GDALDataTypeIsComplex eBufType = false ->
  RealPixelFunc papoSources 1 pData nXSize nYSize eSrcType eBufType
                nPixelSpace nLineSpace
  = (CE_None,
     write_tile eBufType nPixelSpace nLineSpace nYSize nXSize
       (fun row col => (SRCVAL papoSources.[0] eSrcType (row * nXSize + col), 0%float))
       pData).
Proof.
  intros Hb. rewrite RealPixelFunc_writes. f_equal. unfold write_tile.
  apply fold_left_ext_in. intros d [row col] _. cbn [fst snd].
  rewrite store_word_real by exact Hb. now rewrite load_word_SRCVAL.
Qed.

(** *** Shape errors *)

Ltac split_tests :=
  repeat match goal with
    | H : context [GDALDataTypeIsComplex ?t] |- _ =>
        destruct (GDALDataTypeIsComplex t); cbn [andb orb negb] in H
    | |- context [GDALDataTypeIsComplex ?t] =>
        destruct (GDALDataTypeIsComplex t); cbn [andb orb negb]
    | |- context [Z.eqb ?a ?b] => destruct (Z.eqb_spec a b); cbn [andb orb negb]
    | |- context [Z.ltb ?a ?b] => destruct (Z.ltb_spec a b); cbn [andb orb negb]
    | H : context [Z.eqb ?a ?b] |- _ => destruct (Z.eqb_spec a b); cbn [andb orb negb] in H
    | H : context [Z.leb ?a ?b] |- _ => destruct (Z.leb_spec a b); cbn [andb orb negb] in H
    end.

Ltac unfold_pixel_functions :=
  unfold ConjPixelFunc, dB2AmpPixelFunc, dB2PowPixelFunc;
  unfold RealPixelFunc, ImagPixelFunc, ModulePixelFunc, PhasePixelFunc,
    SumPixelFunc, DiffPixelFunc, MulPixelFunc, CMulPixelFunc, InvPixelFunc,
    IntensityPixelFunc, SqrtPixelFunc, Log10PixelFunc, PowPixelFuncHelper,
    BetaSigmaToIncidence, UVToMagnitude, UVToDirectionTo, UVToDirectionFrom,
    Sigma0HHIncidenceToSigma0VV.

Ltac each_registered H :=
  unfold GDALRegisterDefaultPixelFunc in H;
  cbn [GDALAddDerivedBandPixelFunc String.eqb Ascii.eqb Bool.eqb snd In] in H;
  repeat (destruct H as [H|H]; [injection H as <- <- | ]); [ .. | contradiction ].

Lemma registered_shape_error (name : string) (f : PixelFunc) :
  In (name, f) (snd (GDALRegisterDefaultPixelFunc [])) ->
  forall papoSources nSources pData nXSize nYSize eSrcType eBufType nPixelSpace nLineSpace,
    shape_error name nSources eSrcType = true ->
    f papoSources nSources pData nXSize nYSize eSrcType eBufType nPixelSpace nLineSpace
    = (CE_Failure, pData).
Proof.
  intros H. each_registered H; intros until nLineSpace;
    unfold shape_error; cbn [catalog catalog_entry String.eqb Ascii.eqb Bool.eqb arity_holds];
    intros E; unfold_pixel_functions; split_tests;
    solve [reflexivity | discriminate | lia].
Qed.

Lemma registered_no_shape_error (name : string) (f : PixelFunc) :
  In (name, f) (snd (GDALRegisterDefaultPixelFunc [])) ->
  forall papoSources nSources pData nXSize nYSize eSrcType eBufType nPixelSpace nLineSpace,
    shape_error name nSources eSrcType = false ->
    fst (f papoSources nSources pData nXSize nYSize eSrcType eBufType
           nPixelSpace nLineSpace)
    = CE_None.
Proof.
  intros H. each_registered H; intros until nLineSpace;
    unfold shape_error; cbn [catalog catalog_entry String.eqb Ascii.eqb Bool.eqb arity_holds];
    intros E; unfold_pixel_functions; split_tests;
    solve [reflexivity | discriminate | lia].
Qed.

End Properties.

(** ** Floating-point facts *)

Lemma opp_involutive (x : double) : (- - x)%float = x.
Proof.
  apply Prim2SF_inj. rewrite !opp_spec.
  destruct (Prim2SF x) as [s|s| |s m e]; simpl;
    try rewrite negb_involutive; reflexivity.
Qed.

Lemma leb_0_not_ltb (x : double) : (0 <=? x)%float = true -> (x <? 0)%float = false.
Proof.
  rewrite leb_spec, ltb_spec.
  change (Prim2SF 0) with (S754_zero false).
  unfold SFleb, SFltb.
  destruct (Prim2SF x) as [s|s| |s m e]; simpl; try destruct s; simpl; congruence.
Qed.

Lemma eqb_0_inv (x : double) : (x =? 0)%float = true -> x = 0%float \/ x = (-0)%float.
Proof.
  rewrite eqb_spec. change (Prim2SF 0) with (S754_zero false).
  intros H. rewrite <- (SF2Prim_Prim2SF x).
  unfold SFeqb in H.
  destruct (Prim2SF x) as [s|s| |s m e]; simpl in H;
    try destruct s; simpl in H; try discriminate.
  - right. reflexivity.
  - left. reflexivity.
Qed.

(** A tile of one sample is one store at the start of the destination. *)
Lemma write_tile_one {codec : Codec} (eBufType : GDALDataType)
    (nPixelSpace nLineSpace : Z) (val : Z -> Z -> double * double) (pData : Buffer) :
  write_tile eBufType nPixelSpace nLineSpace 1 1 val pData
  = store_word eBufType pData 0 (val 0 0).
Proof.
  unfold write_tile. change (tile 1 1) with [(0, 0)].
  cbn [fold_left fst snd]. now rewrite Z.mul_0_r.
Qed.

(** ** Memory *)

Lemma nth_map_seq {A : Type} (f : nat -> A) (len n : nat) (d : A) :
  (n < len)%nat -> nth n (map f (seq 0 len)) d = f n.
Proof.
  intros Hn.
  rewrite (nth_indep _ d (f 0%nat)) by now rewrite length_map, length_seq.
  pose proof (map_nth f (seq 0 len) 0%nat n) as E. rewrite E.
  now rewrite seq_nth.
Qed.

Lemma load_store_same (b : Buffer) (ofs : Z) (l : list byte) :
  load_bytes (store_bytes b ofs l) ofs (Z.of_nat (List.length l)) = l.
Proof.
  unfold load_bytes. rewrite Nat2Z.id.
  apply nth_ext with (d := x00) (d' := x00).
  - now rewrite length_map, length_seq.
  - intros n Hn. rewrite length_map, length_seq in Hn.
    rewrite nth_map_seq by exact Hn.
    unfold store_bytes.
    destruct (Z.leb_spec ofs (ofs + Z.of_nat n)); [|lia].
    destruct (Z.ltb_spec (ofs + Z.of_nat n) (ofs + Z.of_nat (List.length l))); [|lia].
    cbn [andb]. f_equal. lia.
Qed.

Lemma load_store_other (b : Buffer) (ofs : Z) (l : list byte) (ofs' n : Z) :
  ofs' + n <= ofs \/ ofs + Z.of_nat (List.length l) <= ofs' ->
  load_bytes (store_bytes b ofs l) ofs' n = load_bytes b ofs' n.
Proof.
  intros H. unfold load_bytes. apply map_ext_in. intros i Hi.
  apply in_seq in Hi. unfold store_bytes.
  destruct (Z.leb_spec ofs (ofs' + Z.of_nat i));
    destruct (Z.ltb_spec (ofs' + Z.of_nat i) (ofs + Z.of_nat (List.length l)));
    cbn [andb]; try reflexivity; lia.
Qed.

Section ComplexWords.

Context {codec : Codec}.

Variables (eType : GDALDataType) (t : CType).
Hypothesis complex : GDALDataTypeIsComplex eType = true.
Hypothesis part : part_type eType = Some t.

Lemma sizeof_pos : 0 < sizeof t.
Proof. destruct t; reflexivity. Qed.

Lemma complex_size : GDALGetDataTypeSize eType ÷ 8 = 2 * sizeof t.
Proof.
  destruct eType; try discriminate complex;
    injection part as <-; reflexivity.
Qed.

Lemma complex_offset : GDALGetDataTypeSize eType ÷ 8 ÷ 2 = sizeof t.
Proof.
  destruct eType; try discriminate complex;
    injection part as <-; reflexivity.
Qed.

(** On a complex type, [SRCVAL] reads the part found at the pointer in the
    [ii]-th pair of parts. *)
Lemma SRCVAL_complex (p : Ptr) (ii : Z) :
  SRCVAL p eType ii
  = decode t (load_bytes (ptr_buf p) (ptr_ofs p + ii * (2 * sizeof t)) (sizeof t)).
Proof.
  unfold SRCVAL, index.
  destruct eType; try discriminate complex;
    injection part as <-; do 2 f_equal; cbn [sizeof]; lia.
Qed.

Lemma store_word_complex (b : Buffer) (ofs : Z) (w : double * double) :
  store_word eType b ofs w
  = store_bytes (store_bytes b ofs (encode t (fst w))) (ofs + sizeof t)
                (encode t (snd w)).
Proof.
  unfold store_word. now rewrite part, complex.
Qed.

(** Two words with the same bytes are stored alike. *)
Lemma store_word_same_encoding (b : Buffer) (ofs : Z) (w w' : double * double) :
  encode t (fst w) = encode t (fst w') ->
  encode t (snd w) = encode t (snd w') ->
  store_word eType b ofs w = store_word eType b ofs w'.
Proof.
  intros E1 E2. rewrite !store_word_complex. now rewrite E1, E2.
Qed.

Lemma load_store_word_re (b : Buffer) (ofs : Z) (w : double * double) :
  load_bytes (store_word eType b ofs w) ofs (sizeof t) = encode t (fst w).
Proof.
  rewrite store_word_complex.
  rewrite load_store_other by (rewrite encode_length; lia).
  rewrite <- (encode_length t (fst w)). apply load_store_same.
Qed.

Lemma load_store_word_im (b : Buffer) (ofs : Z) (w : double * double) :
  load_bytes (store_word eType b ofs w) (ofs + sizeof t) (sizeof t) = encode t (snd w).
Proof.
  rewrite store_word_complex.
  rewrite <- (encode_length t (snd w)). apply load_store_same.
Qed.

Lemma load_store_word_other (b : Buffer) (ofs : Z) (w : double * double) (ofs' n : Z) :
  ofs' + n <= ofs \/ ofs + 2 * sizeof t <= ofs' ->
  load_bytes (store_word eType b ofs w) ofs' n = load_bytes b ofs' n.
Proof.
  intros H. pose proof sizeof_pos as Hs. rewrite store_word_complex.
  rewrite !load_store_other; [reflexivity | |]; rewrite encode_length; lia.
Qed.

Lemma packed_ofs_linear (nXSize : Z) (rc : Z * Z) :
  packed_ofs t nXSize rc = (fst rc * nXSize + snd rc) * (2 * sizeof t).
Proof. unfold packed_ofs. lia. Qed.

(** Two positions of a tile are the same or their words do not overlap. *)
Lemma packed_disjoint (nYSize nXSize : Z) (p q : Z * Z) :
  In p (tile nYSize nXSize) -> In q (tile nYSize nXSize) ->
  q = p
  \/ packed_ofs t nXSize q + 2 * sizeof t <= packed_ofs t nXSize p
  \/ packed_ofs t nXSize p + 2 * sizeof t <= packed_ofs t nXSize q.
Proof.
  destruct p as [r c], q as [r' c']. intros Hp Hq.
  apply in_tile in Hp, Hq. rewrite !packed_ofs_linear. cbn [fst snd].
  pose proof sizeof_pos as Hs.
  destruct (Z.lt_trichotomy (r' * nXSize + c') (r * nXSize + c)) as [L | [E | L]].
  - right; left. nia.
  - left. assert (r' = r) by nia. subst r'. f_equal. lia.
  - right; right. nia.
Qed.

(** After a list of words was stored, each at the address of its position,
    the word of a position that overlaps no other position of the list is
    in place. *)
Lemma packed_stores_in_place (nXSize : Z) (val : Z -> Z -> double * double)
    (p : Z * Z) (l : list (Z * Z)) :
  (forall q, In q l ->
     q = p
     \/ packed_ofs t nXSize q + 2 * sizeof t <= packed_ofs t nXSize p
     \/ packed_ofs t nXSize p + 2 * sizeof t <= packed_ofs t nXSize q) ->
  forall d,
    In p l
    \/ (load_bytes d (packed_ofs t nXSize p) (sizeof t) = encode t (fst (val (fst p) (snd p)))
        /\ load_bytes d (packed_ofs t nXSize p + sizeof t) (sizeof t)
           = encode t (snd (val (fst p) (snd p)))) ->
    let d' :=
      fold_left (fun d rc => store_word eType d (packed_ofs t nXSize rc)
                                        (val (fst rc) (snd rc))) l d in
    load_bytes d' (packed_ofs t nXSize p) (sizeof t) = encode t (fst (val (fst p) (snd p)))
    /\ load_bytes d' (packed_ofs t nXSize p + sizeof t) (sizeof t)
       = encode t (snd (val (fst p) (snd p))).
Proof.
  pose proof sizeof_pos as Hs.
  induction l as [|q l IH]; intros Hdis d Hp; cbn [fold_left].
  - destruct Hp as [[] | Hp]. exact Hp.
  - apply IH; [intros q' Hq'; apply Hdis; now right|].
    assert (Hhere : q = p ->
              load_bytes (store_word eType d (packed_ofs t nXSize q) (val (fst q) (snd q)))
                         (packed_ofs t nXSize p) (sizeof t)
              = encode t (fst (val (fst p) (snd p)))
              /\ load_bytes (store_word eType d (packed_ofs t nXSize q) (val (fst q) (snd q)))
                            (packed_ofs t nXSize p + sizeof t) (sizeof t)
                 = encode t (snd (val (fst p) (snd p)))).
    { intros ->. split; [apply load_store_word_re | apply load_store_word_im]. }
    destruct Hp as [[E | Hin] | [Hre Him]].
    + right. now apply Hhere.
    + now left.
    + destruct (Hdis q (or_introl eq_refl)) as [E | Hd].
      * right. now apply Hhere.
      * right. rewrite !load_store_word_other by lia. now split.
Qed.

(** The words of a packed tile are in place after [write_tile]. *)
Lemma write_tile_packed_in_place (nYSize nXSize : Z) (val : Z -> Z -> double * double)
    (pData : Buffer) (row col : Z) :
  In (row, col) (tile nYSize nXSize) ->
  let d' := write_tile eType (2 * sizeof t) (2 * sizeof t * nXSize) nYSize nXSize
                       val pData in
  load_bytes d' ((row * nXSize + col) * (2 * sizeof t)) (sizeof t)
  = encode t (fst (val row col))
  /\ load_bytes d' ((row * nXSize + col) * (2 * sizeof t) + sizeof t) (sizeof t)
     = encode t (snd (val row col)).
Proof.
  intros Hin d'.
  pose proof (packed_stores_in_place nXSize val (row, col) (tile nYSize nXSize)
                (fun q Hq => packed_disjoint nYSize nXSize (row, col) q Hin Hq)
                pData (or_introl Hin)) as H.
  rewrite packed_ofs_linear in H. cbn [fst snd] in H. exact H.
Qed.

End ComplexWords.

(** ** The 64-bit floats of the host *)

Lemma Z_of_byte_of_Z (z : Z) : Host.Z_of_byte (Host.byte_of_Z z) = z mod 256.
Proof.
  unfold Host.Z_of_byte, Host.byte_of_Z.
  assert (H : 0 <= z mod 256 < 256) by (apply Z.mod_pos_bound; lia).
  destruct (Byte.of_N (Z.to_N (z mod 256))) as [b|] eqn:E.
  - apply Byte.to_of_N in E. rewrite E. lia.
  - apply Byte.of_N_None_iff in E. lia.
Qed.

Lemma Z_of_bytes_of_Z (n : nat) (z : Z) :
  Host.Z_of_bytes (Host.bytes_of_Z n z) = z mod 256 ^ Z.of_nat n.
Proof.
  revert z; induction n as [|n IH]; intros z.
  - simpl. now rewrite Z.mod_1_r.
  - cbn [Host.bytes_of_Z Host.Z_of_bytes]. rewrite IH, Z_of_byte_of_Z.
    rewrite Nat2Z.inj_succ, Z.pow_succ_r by lia.
    rewrite Z.rem_mul_r by lia. lia.
Qed.

Lemma digits2_pos_bounds (m : positive) :
  2 ^ (Z.pos (digits2_pos m) - 1) <= Z.pos m < 2 ^ Z.pos (digits2_pos m).
Proof.
  induction m as [m IH | m IH |]; cbn [digits2_pos].
  - rewrite Pos2Z.inj_succ.
    replace (Z.succ (Z.pos (digits2_pos m)) - 1)
      with (Z.succ (Z.pos (digits2_pos m) - 1)) by lia.
    rewrite !Z.pow_succ_r by lia. lia.
  - rewrite Pos2Z.inj_succ.
    replace (Z.succ (Z.pos (digits2_pos m)) - 1)
      with (Z.succ (Z.pos (digits2_pos m) - 1)) by lia.
    rewrite !Z.pow_succ_r by lia. lia.
  - cbn. lia.
Qed.

(** A finite binary64 number is normal, with a fraction of 53 bits, or
    subnormal, with the least exponent. *)
Lemma valid_finite (s : bool) (m : positive) (e : Z) :
  valid_binary (S754_finite s m e) = true ->
  (2 ^ 52 <= Z.pos m < 2 ^ 53 /\ -1074 <= e <= 971)
  \/ (Z.pos m < 2 ^ 52 /\ e = -1074).
Proof.
  cbn [SpecFloat.valid_binary].
  unfold bounded, canonical_mantissa, fexp, SpecFloat.emin, prec, emax.
  intros H. apply andb_true_iff in H as [H1 H2].
  apply Z.eqb_eq in H1. apply Z.leb_le in H2.
  pose proof (digits2_pos_bounds m) as [Hlo Hhi].
  destruct (Z.max_spec (Z.pos (digits2_pos m) + e - 53) (3 - 1024 - 53))
    as [[Hc Hm] | [Hc Hm]]; rewrite Hm in H1.
  - right. split; [|lia].
    apply Z.lt_le_trans with (1 := Hhi). apply Z.pow_le_mono_r; lia.
  - left. assert (Z.pos (digits2_pos m) = 53) as Hd by lia.
    rewrite Hd in Hlo, Hhi. change (53 - 1) with 52 in Hlo. lia.
Qed.

(** The binary64 interchange format holds every binary64 number. *)
Lemma SF_of_bits_of_SF (f : spec_float) :
  valid_binary f = true ->
  0 <= Host.bits_of_SF 52 11 f < 2 ^ 64
  /\ Host.SF_of_bits 52 11 (Host.bits_of_SF 52 11 f) = f.
Proof.
  destruct f as [s | s | | s m e]; intros Hv.
  - destruct s; vm_compute; repeat split; congruence.
  - destruct s; vm_compute; repeat split; congruence.
  - vm_compute; repeat split; congruence.
  - apply valid_finite in Hv.
    unfold Host.bits_of_SF, Host.SF_of_bits.
    change (2 ^ (52 + 11)) with 9223372036854775808.
    change (2 ^ 52) with 4503599627370496 in *.
    change (2 ^ 53) with 9007199254740992 in *.
    change (2 ^ 64) with 18446744073709551616.
    change (2 ^ 11) with 2048.
    change (2 ^ (11 - 1) - 1) with 1023.
    destruct Hv as [[Hm He] | [Hm He]].
    + destruct (Z.leb_spec 4503599627370496 (Z.pos m)) as [_|?]; [|lia].
      set (u := (if s then 9223372036854775808 else 0)
                + (e + 52 + 1023) * 4503599627370496
                + (Z.pos m - 4503599627370496)).
      assert (Hs : u / 9223372036854775808 = if s then 1 else 0)
        by (subst u; destruct s; Z.div_mod_to_equations; lia).
      assert (HE : (u / 4503599627370496) mod 2048 = e + 1075)
        by (subst u; destruct s; Z.div_mod_to_equations; lia).
      assert (HM : u mod 4503599627370496 = Z.pos m - 4503599627370496)
        by (subst u; destruct s; Z.div_mod_to_equations; lia).
      split; [subst u; destruct s; lia|].
      rewrite Hs, HE, HM.
      destruct (Z.eqb_spec (e + 1075) (2048 - 1)); [lia|].
      destruct (Z.eqb_spec (e + 1075) 0); [lia|].
      replace (4503599627370496 + (Z.pos m - 4503599627370496)) with (Z.pos m) by lia.
      replace (e + 1075 - 1023 - 52) with e by lia.
      now destruct s.
    + destruct (Z.leb_spec 4503599627370496 (Z.pos m)) as [?|_]; [lia|].
      set (u := (if s then 9223372036854775808 else 0) + Z.pos m).
      assert (Hs : u / 9223372036854775808 = if s then 1 else 0)
        by (subst u; destruct s; Z.div_mod_to_equations; lia).
      assert (HE : (u / 4503599627370496) mod 2048 = 0)
        by (subst u; destruct s; Z.div_mod_to_equations; lia).
      assert (HM : u mod 4503599627370496 = Z.pos m)
        by (subst u; destruct s; Z.div_mod_to_equations; lia).
      split; [subst u; destruct s; lia|].
      rewrite Hs, HE, HM. cbn [Z.eqb]. subst e.
      now destruct s.
Qed.

(** A [double] stored as a [double] on the host is read back as it was. *)
Lemma host_double_lossless (x : double) :
  decode (Codec := Host.codec) c_double (encode (Codec := Host.codec) c_double x) = x.
Proof.
  change (Host.host_decode c_double (Host.host_encode c_double x) = x).
  unfold Host.host_decode, Host.host_encode. cbn [sizeof].
  rewrite Z_of_bytes_of_Z.
  destruct (SF_of_bits_of_SF (Prim2SF x) (Prim2SF_valid x)) as [Hr E].
  change (256 ^ Z.of_nat (Z.to_nat 8)) with (2 ^ 64).
  rewrite Z.mod_small by exact Hr.
  rewrite E. apply SF2Prim_Prim2SF.
Qed.

(** ** conj, twice *)

(** conj applied twice, through a packed buffer of the same complex type,
    stores the original samples, when the conversion of each sample to the
    type of its parts survives the way there and back. *)
Lemma ConjPixelFunc_twice {codec : Codec} (pSrc : Ptr) (pData1 pData2 : Buffer)
    (nXSize nYSize : Z) (eType : GDALDataType) (t : CType)
    (nPixelSpace nLineSpace : Z) :
  GDALDataTypeIsComplex eType = true ->
  part_type eType = Some t ->
  let re ii := SRCVAL pSrc eType ii in
  let im ii := SRCVAL (ptr_add pSrc (GDALGetDataTypeSize eType ÷ 8 ÷ 2)) eType ii in
  (forall row col,
      In (row, col) (tile nYSize nXSize) ->
      encode t (decode t (encode t (re (row * nXSize + col))))
      = encode t (re (row * nXSize + col))
      /\ encode t (- decode t (encode t (- im (row * nXSize + col)%Z)))%float
         = encode t (im (row * nXSize + col))) ->
  let nPacked := GDALGetDataTypeSize eType ÷ 8 in
  let once :=
    ConjPixelFunc [pSrc] 1 pData1 nXSize nYSize eType eType
                  nPacked (nPacked * nXSize) in
  let twice :=
    ConjPixelFunc [{| ptr_buf := snd once; ptr_ofs := 0 |}] 1 pData2
                  nXSize nYSize eType eType nPixelSpace nLineSpace in
  fst once = CE_None
  /\ twice
     = (CE_None,
        write_tile eType nPixelSpace nLineSpace nYSize nXSize
          (fun row col => (re (row * nXSize + col), im (row * nXSize + col)))
          pData2).
Proof.
  intros Hc Hp re im Hfit nPacked once twice.
  assert (Eonce : once
            = (CE_None,
               write_tile eType (2 * sizeof t) (2 * sizeof t * nXSize) nYSize nXSize
                 (fun row col =>
                    (re (row * nXSize + col), (- im (row * nXSize + col)%Z)%float))
                 pData1)).
  { unfold once, nPacked. rewrite (complex_size eType t Hc Hp).
    now rewrite ConjPixelFunc_complex. }
  split; [now rewrite Eonce|].
  unfold twice. rewrite ConjPixelFunc_complex by exact Hc. f_equal.
  apply (fold_left_ext_in _ _ (tile nYSize nXSize)). intros d [row col] Hin.
  cbn [fst snd].
  change ([{| ptr_buf := snd once; ptr_ofs := 0 |}].[0])
    with {| ptr_buf := snd once; ptr_ofs := 0 |}.
  rewrite !(SRCVAL_complex eType t Hc Hp). rewrite (complex_offset eType t Hc Hp).
  cbn [ptr_add ptr_buf ptr_ofs]. rewrite Eonce. cbn [snd].
  destruct (write_tile_packed_in_place eType t Hc Hp nYSize nXSize
              (fun row col =>
                 (re (row * nXSize + col), (- im (row * nXSize + col)%Z)%float))
              pData1 row col Hin) as [Ere Eim].
  cbn [fst snd] in Ere, Eim.
  rewrite Z.add_0_l, Ere.
  replace (0 + sizeof t + (row * nXSize + col) * (2 * sizeof t))
    with ((row * nXSize + col) * (2 * sizeof t) + sizeof t) by lia.
  rewrite Eim.
  destruct (Hfit row col Hin) as [Hre Him].
  now apply (store_word_same_encoding eType t Hc Hp).
Qed.

(** ** The claims *)

(** C1. A shape error is detected before any write: every registered
    transform called with a number of sources other than its arity, and
    sqrt, dB2amp and dB2pow called on a complex source type, return
    [CE_Failure] and the destination buffer they were given, unchanged.
    So do sum with 1 source, diff with 3 and cmul with 1. *)
Theorem shape_error_fails_before_any_write {codec : Codec} {libm : LibM} :
  (forall name f,
      In (name, f) (snd (GDALRegisterDefaultPixelFunc [])) ->
      forall papoSources nSources pData nXSize nYSize eSrcType eBufType
             nPixelSpace nLineSpace,
        shape_error name nSources eSrcType = true ->
        f papoSources nSources pData nXSize nYSize eSrcType eBufType
          nPixelSpace nLineSpace
        = (CE_Failure, pData))
  /\ (forall papoSources pData nXSize nYSize eSrcType eBufType nPixelSpace nLineSpace,
        SumPixelFunc papoSources 1 pData nXSize nYSize eSrcType eBufType
                     nPixelSpace nLineSpace = (CE_Failure, pData)
        /\ DiffPixelFunc papoSources 3 pData nXSize nYSize eSrcType eBufType
                         nPixelSpace nLineSpace = (CE_Failure, pData)
        /\ CMulPixelFunc papoSources 1 pData nXSize nYSize eSrcType eBufType
                         nPixelSpace nLineSpace = (CE_Failure, pData))
  /\ (forall papoSources nSources pData nXSize nYSize eSrcType eBufType
             nPixelSpace nLineSpace,
        GDALDataTypeIsComplex eSrcType = true ->
        SqrtPixelFunc papoSources nSources pData nXSize nYSize eSrcType eBufType
                      nPixelSpace nLineSpace = (CE_Failure, pData)
        /\ dB2AmpPixelFunc papoSources nSources pData nXSize nYSize eSrcType eBufType
                           nPixelSpace nLineSpace = (CE_Failure, pData)
        /\ dB2PowPixelFunc papoSources nSources pData nXSize nYSize eSrcType eBufType
                           nPixelSpace nLineSpace = (CE_Failure, pData)).
Proof.
  split; [exact registered_shape_error|]. split.
  - intros. repeat split; reflexivity.
  - intros until nLineSpace. intros Hc.
    unfold dB2AmpPixelFunc, dB2PowPixelFunc, PowPixelFuncHelper, SqrtPixelFunc.
    rewrite Hc. destruct (negb (nSources =? 1)); repeat split; reflexivity.
Qed.

(** sum with one source fails and leaves the sentinel pattern. *)
Lemma shape_error_fails_before_any_write_witness :
  SumPixelFunc (codec := Host.codec) [Host.packed c_float [1; 2]%float] 1 sentinel
               2 1 GDT_Float32 GDT_Float32 4 8
  = (CE_Failure, sentinel).
Proof.
  apply (proj1 (@shape_error_fails_before_any_write Host.codec AnnexF.libm)
           "sum"%string).
  - unfold GDALRegisterDefaultPixelFunc.
    cbn [GDALAddDerivedBandPixelFunc String.eqb Ascii.eqb Bool.eqb snd In].
    do 5 right. left. reflexivity.
  - reflexivity.
Defined.

(** C2. On a real source, phase writes exactly 0 for a sample that is >= 0
    (0 itself included) and exactly pi, the value of [atan2(0, -1)], for a
    sample that is < 0; on a complex source it writes [atan2(im, re)] of the
    parts of the sample.  [atan2(0, -1)] is the [double] nearest to pi on a
    host that follows Annex F: there the samples 2, 0, -0, -3 leave
    0, 0, 0, pi in a 64-bit-float destination. *)
Theorem PhasePixelFunc_writes_phase {codec : Codec} {libm : LibM} :
  forall papoSources pData nXSize nYSize eSrcType eBufType nPixelSpace nLineSpace,
    let pReal := papoSources.[0] in
    let pImag := ptr_add papoSources.[0] (GDALGetDataTypeSize eSrcType ÷ 8 ÷ 2) in
    let phase (dfReal : double) : double :=
      if (dfReal <? 0)%float then atan2 0 (-1) else 0%float in
    (GDALDataTypeIsComplex eSrcType = false ->
     PhasePixelFunc papoSources 1 pData nXSize nYSize eSrcType eBufType
                    nPixelSpace nLineSpace
     = (CE_None,
        write_tile eBufType nPixelSpace nLineSpace nYSize nXSize
          (fun row col => (phase (SRCVAL pReal eSrcType (row * nXSize + col)), 0%float))
          pData))
    /\ (forall dfReal,
          ((0 <=? dfReal)%float = true -> phase dfReal = 0%float)
          /\ ((dfReal <? 0)%float = true -> phase dfReal = atan2 0 (-1)))
    /\ phase 0%float = 0%float
    /\ (atan2 0 (-1) = AnnexF.pi ->
        forall dfReal, (dfReal <? 0)%float = true -> phase dfReal = AnnexF.pi)
    /\ (GDALDataTypeIsComplex eSrcType = true ->
        PhasePixelFunc papoSources 1 pData nXSize nYSize eSrcType eBufType
                       nPixelSpace nLineSpace
        = (CE_None,
           write_tile eBufType nPixelSpace nLineSpace nYSize nXSize
             (fun row col =>
                (atan2 (SRCVAL pImag eSrcType (row * nXSize + col))
                       (SRCVAL pReal eSrcType (row * nXSize + col)),
                 0%float))
             pData))
    /\ host_samples
         (snd (PhasePixelFunc (codec := Host.codec) (libm := AnnexF.libm)
                 [Host.packed c_double [2; 0; -0; -3]%float] 1 sentinel
                 4 1 GDT_Float64 GDT_Float64 8 32))
         GDT_Float64 [0; 1; 2; 3]
       = [0; 0; 0; AnnexF.pi]%float.
Proof.
  intros. repeat split.
  - intros Hc. now apply PhasePixelFunc_real.
  - intros H. unfold phase. now rewrite (leb_0_not_ltb _ H).
  - intros H. unfold phase. now rewrite H.
  - intros E x H. unfold phase. now rewrite H.
  - intros Hc. now apply PhasePixelFunc_complex.
Qed.

(** phase of the real samples 2 and -3. *)
Lemma PhasePixelFunc_writes_phase_witness :
  PhasePixelFunc (codec := Host.codec) (libm := AnnexF.libm)
                 [Host.packed c_double [2; -3]%float] 1 zero_buffer
                 2 1 GDT_Float64 GDT_Float64 8 16
  = (CE_None,
     write_tile (codec := Host.codec) GDT_Float64 8 16 1 2
       (fun row col =>
          (if (SRCVAL (codec := Host.codec) (Host.packed c_double [2; -3]%float)
                      GDT_Float64 (row * 2 + col) <? 0)%float
           then AnnexF.pi else 0%float, 0%float))
       zero_buffer).
Proof.
  apply (proj1 (@PhasePixelFunc_writes_phase Host.codec AnnexF.libm
                  [Host.packed c_double [2; -3]%float] zero_buffer
                  2 1 GDT_Float64 GDT_Float64 8 16)).
  reflexivity.
Defined.

(** C3 (the code differs).  On a real source, mod applies the integer [abs]
    of <stdlib.h> to the sample, which first truncates it to an [int]: for
    the [double] sample 0.5 it writes 0, not 0.5, and for -2.75 it writes
    2, not 2.75. *)
Theorem ModulePixelFunc_real_truncates :
  forall pData eBufType nPixelSpace nLineSpace,
    SRCVAL (codec := Host.codec) (Host.packed c_double [0.5%float]) GDT_Float64 0
    = 0.5%float
    /\ ModulePixelFunc (codec := Host.codec) [Host.packed c_double [0.5%float]] 1 pData
                       1 1 GDT_Float64 eBufType nPixelSpace nLineSpace
       = (CE_None, store_word (codec := Host.codec) eBufType pData 0 (0%float, 0%float))
    /\ host_samples
         (snd (ModulePixelFunc (codec := Host.codec)
                 [Host.packed c_double [0.5; -2.75]%float] 1 sentinel
                 2 1 GDT_Float64 GDT_Float64 8 16))
         GDT_Float64 [0; 1]
       = [0; 2]%float.
Proof.
  intros. split; [reflexivity|]. split; [|vm_compute; reflexivity].
  rewrite ModulePixelFunc_real by reflexivity.
  rewrite write_tile_one. reflexivity.
Qed.

(** C4 (the code differs).  On a real source, log10 takes the logarithm of
    the integer [abs] of the sample, which first truncates it to an [int]:
    for the [double] sample 0.5 it writes [log10(0)], not [log10(0.5)]; on
    a host that follows Annex F that is minus infinity. *)
Theorem Log10PixelFunc_real_truncates {libm : LibM} :
  forall pData eBufType nPixelSpace nLineSpace,
    SRCVAL (codec := Host.codec) (Host.packed c_double [0.5%float]) GDT_Float64 0
    = 0.5%float
    /\ Log10PixelFunc (codec := Host.codec) [Host.packed c_double [0.5%float]] 1 pData
                      1 1 GDT_Float64 eBufType nPixelSpace nLineSpace
       = (CE_None,
          store_word (codec := Host.codec) eBufType pData 0 (log10 0, 0%float))
    /\ host_samples
         (snd (Log10PixelFunc (codec := Host.codec) (libm := AnnexF.libm)
                 [Host.packed c_double [0.5%float]] 1 sentinel
                 1 1 GDT_Float64 GDT_Float64 8 8))
         GDT_Float64 [0]
       = [neg_infinity].
Proof.
  intros. split; [reflexivity|]. split; [|vm_compute; reflexivity].
  rewrite Log10PixelFunc_real by reflexivity.
  rewrite write_tile_one. reflexivity.
Qed.

(** C6. BetaSigmaToIncidence writes [asin(sigma0 / beta0)] in degrees (the
    radians times 180 over the macro [PI]) where [beta0] is not zero and
    exactly 0 where [beta0 == 0]; where [asin] fails on its domain the
    not-a-number it returns is what is written, and the call still returns
    [CE_None].  On a host that follows Annex F the pairs (0, 5) and (1, 2)
    leave 0 and not-a-number in a 64-bit-float destination. *)
Theorem BetaSigmaToIncidence_writes_incidence {codec : Codec} {libm : LibM} :
  forall papoSources pData nXSize nYSize eSrcType eBufType nPixelSpace nLineSpace,
    let incidence (beta0 sigma0 : double) : double :=
      if negb (beta0 =? 0)%float then (asin (sigma0 / beta0) * 180 / PI)%float
      else 0%float in
    BetaSigmaToIncidence papoSources 2 pData nXSize nYSize eSrcType eBufType
                         nPixelSpace nLineSpace
    = (CE_None,
       write_tile eBufType nPixelSpace nLineSpace nYSize nXSize
         (fun row col =>
            (incidence (SRCVAL papoSources.[0] eSrcType (row * nXSize + col))
                       (SRCVAL papoSources.[1] eSrcType (row * nXSize + col)),
             0%float))
         pData)
    /\ (forall beta0 sigma0,
          ((beta0 =? 0)%float = true -> incidence beta0 sigma0 = 0%float)
          /\ ((beta0 =? 0)%float = false ->
              incidence beta0 sigma0 = (asin (sigma0 / beta0) * 180 / PI)%float)
          /\ ((beta0 =? 0)%float = false ->
              (forall q, (1 <? abs q)%float = true -> asin q = nan) ->
              (1 <? abs (sigma0 / beta0))%float = true ->
              incidence beta0 sigma0 = nan))
    /\ (let out :=
          BetaSigmaToIncidence (codec := Host.codec) (libm := AnnexF.libm)
            [Host.packed c_double [0; 1]%float; Host.packed c_double [5; 2]%float]
            2 sentinel 2 1 GDT_Float64 GDT_Float64 8 16 in
        fst out = CE_None
        /\ host_samples (snd out) GDT_Float64 [0; 1] = [0%float; nan]).
Proof.
  intros. split; [apply BetaSigmaToIncidence_writes|].
  split; [|vm_compute; split; reflexivity].
  intros beta0 sigma0. unfold incidence. repeat split.
  - intros ->. reflexivity.
  - intros ->. reflexivity.
  - intros -> Hdom Hq. cbn [negb]. now rewrite (Hdom _ Hq).
Qed.

(** The asin of Annex F fails outside [-1, 1]. *)
Lemma annexF_asin_domain (q : double) :
  (1 <? abs q)%float = true -> AnnexF.annexF_asin q = nan.
Proof.
  intros H. unfold AnnexF.annexF_asin.
  destruct (is_nan q); [reflexivity|].
  destruct (is_zero q) eqn:Hz; [|now rewrite H].
  apply eqb_0_inv in Hz. destruct Hz as [-> | ->]; discriminate H.
Qed.

(** beta0 = 1, sigma0 = 2: the quotient is outside the domain of asin. *)
Lemma BetaSigmaToIncidence_writes_incidence_witness :
  (if negb (1 =? 0)%float
   then (asin (LibM := AnnexF.libm) (2 / 1) * 180 / PI)%float else 0%float)
  = nan.
Proof.
  apply (proj1 (proj2 (@BetaSigmaToIncidence_writes_incidence Host.codec AnnexF.libm
                         [] zero_buffer 0 0 GDT_Float64 GDT_Float64 8 8))
           1%float 2%float).
  - reflexivity.
  - exact annexF_asin_domain.
  - reflexivity.
Defined.

(** C7. inv on a real source writes [1 / x] for the sample [x]: plus
    infinity for the sample 0.0 (minus infinity for -0.0), which is what a
    64-bit-float destination then holds, and the call returns [CE_None].  No registered transform returns an error for the
    values of the samples: a call without a shape error returns [CE_None]
    whatever the source buffers hold. *)
Theorem degenerate_samples_are_written_not_reported {codec : Codec} {libm : LibM} :
  (forall papoSources pData nXSize nYSize eSrcType eBufType nPixelSpace nLineSpace,
      GDALDataTypeIsComplex eSrcType = false ->
      InvPixelFunc papoSources 1 pData nXSize nYSize eSrcType eBufType
                   nPixelSpace nLineSpace
      = (CE_None,
         write_tile eBufType nPixelSpace nLineSpace nYSize nXSize
           (fun row col =>
              ((1 / SRCVAL papoSources.[0] eSrcType (row * nXSize + col))%float,
               0%float))
           pData))
  /\ (let out :=
        InvPixelFunc (codec := Host.codec) [Host.packed c_double [0; -0; 4]%float]
                     1 sentinel 3 1 GDT_Float64 GDT_Float64 8 24 in
      fst out = CE_None
      /\ host_samples (snd out) GDT_Float64 [0; 1; 2]
         = [infinity; neg_infinity; 0.25%float])
  /\ (forall x : double,
         (x =? 0)%float = true ->
         (1 / x)%float = infinity \/ (1 / x)%float = neg_infinity)
  /\ (forall name f,
         In (name, f) (snd (GDALRegisterDefaultPixelFunc [])) ->
         forall papoSources nSources pData nXSize nYSize eSrcType eBufType
                nPixelSpace nLineSpace,
           shape_error name nSources eSrcType = false ->
           fst (f papoSources nSources pData nXSize nYSize eSrcType eBufType
                  nPixelSpace nLineSpace)
           = CE_None).
Proof.
  split; [intros; now apply InvPixelFunc_real|].
  split; [vm_compute; split; reflexivity|].
  split; [|exact registered_no_shape_error].
  intros x H. destruct (eqb_0_inv x H) as [-> | ->]; [left | right]; reflexivity.
Qed.

(** inv of the 32-bit-float sample 0. *)
Lemma degenerate_samples_are_written_not_reported_witness :
  InvPixelFunc (codec := Host.codec) [Host.packed c_float [0%float]] 1 zero_buffer
               1 1 GDT_Float32 GDT_Float64 8 8
  = (CE_None,
     write_tile (codec := Host.codec) GDT_Float64 8 8 1 1
       (fun row col =>
          ((1 / SRCVAL (codec := Host.codec) (Host.packed c_float [0%float])
                       GDT_Float32 (row * 1 + col))%float,
           0%float))
       zero_buffer).
Proof.
  apply (proj1 (@degenerate_samples_are_written_not_reported Host.codec AnnexF.libm)).
  reflexivity.
Defined.

(** C8. On [n >= 2] real sources, sum writes at each position [(row, col)]
    of the tile the sum of the samples of all the sources at the linear
    index [row * nXSize + col], each read as a [double].  The 2x2 tile of
    the 32-bit-float bands [[1,2],[3,4]] and [[5,6],[7,8]] gives
    [[6,8],[10,12]] in whichever type the destination declares. *)
Theorem SumPixelFunc_sums_the_sources {codec : Codec} :
  (forall papoSources nSources pData nXSize nYSize eSrcType eBufType
          nPixelSpace nLineSpace,
      nSources = Z.of_nat (List.length papoSources) ->
      2 <= nSources ->
      GDALDataTypeIsComplex eSrcType = false ->
      SumPixelFunc papoSources nSources pData nXSize nYSize eSrcType eBufType
                   nPixelSpace nLineSpace
      = (CE_None,
         write_tile eBufType nPixelSpace nLineSpace nYSize nXSize
           (fun row col =>
              (fold_left
                 (fun dfSum p => (dfSum + SRCVAL p eSrcType (row * nXSize + col))%float)
                 papoSources 0%float,
               0%float))
           pData))
  /\ (forall eBufType,
         eBufType <> GDT_Unknown ->
         let nPixelSpace := GDALGetDataTypeSize eBufType ÷ 8 in
         let out :=
           SumPixelFunc (codec := Host.codec)
             [Host.packed c_float [1; 2; 3; 4]%float;
              Host.packed c_float [5; 6; 7; 8]%float]
             2 sentinel 2 2 GDT_Float32 eBufType nPixelSpace (2 * nPixelSpace) in
         fst out = CE_None
         /\ host_samples (snd out) eBufType [0; 1; 2; 3] = [6; 8; 10; 12]%float).
Proof.
  split; [exact SumPixelFunc_real|].
  intros eBufType H.
  destruct eBufType; try contradiction; vm_compute; split; reflexivity.
Qed.

(** sum of three 32-bit-float bands of two samples. *)
Lemma SumPixelFunc_sums_the_sources_witness :
  SumPixelFunc (codec := Host.codec)
    [Host.packed c_float [1; 2]%float; Host.packed c_float [5; 6]%float;
     Host.packed c_float [7; 8]%float]
    3 sentinel 2 1 GDT_Float32 GDT_Int16 2 4
  = (CE_None,
     write_tile (codec := Host.codec) GDT_Int16 2 4 1 2
       (fun row col =>
          (fold_left
             (fun dfSum p =>
                (dfSum + SRCVAL (codec := Host.codec) p GDT_Float32 (row * 2 + col))%float)
             [Host.packed c_float [1; 2]%float; Host.packed c_float [5; 6]%float;
              Host.packed c_float [7; 8]%float] 0%float,
           0%float))
       sentinel).
Proof.
  apply (proj1 (@SumPixelFunc_sums_the_sources Host.codec)).
  - reflexivity.
  - lia.
  - reflexivity.
Defined.

(** C10. conj conjugates only when the source type and the destination type
    are both complex.  On a complex source and a real destination it is the
    real transform: a converting copy that writes the real part of each
    sample, the negated imaginary part being never computed. *)
Theorem ConjPixelFunc_real_destination_is_RealPixelFunc {codec : Codec} :
  forall papoSources nSources pData nXSize nYSize eSrcType eBufType
         nPixelSpace nLineSpace,
    (GDALDataTypeIsComplex eSrcType && GDALDataTypeIsComplex eBufType = false ->
     ConjPixelFunc papoSources nSources pData nXSize nYSize eSrcType eBufType
                   nPixelSpace nLineSpace
     = RealPixelFunc papoSources nSources pData nXSize nYSize eSrcType eBufType
                     nPixelSpace nLineSpace)
    /\ (GDALDataTypeIsComplex eSrcType = true ->
        GDALDataTypeIsComplex eBufType = false ->
        ConjPixelFunc papoSources 1 pData nXSize nYSize eSrcType eBufType
                      nPixelSpace nLineSpace
        = (CE_None,
           write_tile eBufType nPixelSpace nLineSpace nYSize nXSize
             (fun row col =>
                (SRCVAL papoSources.[0] eSrcType (row * nXSize + col), 0%float))
             pData))
    /\ (GDALDataTypeIsComplex eSrcType = true ->
        GDALDataTypeIsComplex eBufType = true ->
        ConjPixelFunc papoSources 1 pData nXSize nYSize eSrcType eBufType
                      nPixelSpace nLineSpace
        = (CE_None,
           write_tile eBufType nPixelSpace nLineSpace nYSize nXSize
             (fun row col =>
                (SRCVAL papoSources.[0] eSrcType (row * nXSize + col),
                 (- SRCVAL (ptr_add papoSources.[0]
                                    (GDALGetDataTypeSize eSrcType ÷ 8 ÷ 2))
                           eSrcType (row * nXSize + col))%float))
             pData)).
Proof.
  intros. repeat split.
  - intros H. unfold ConjPixelFunc. rewrite H.
    unfold RealPixelFunc. now destruct (negb (nSources =? 1)).
  - intros Hs Hb.
    rewrite <- (RealPixelFunc_real_destination _ _ _ _ eSrcType) by exact Hb.
    unfold ConjPixelFunc. now rewrite Hs, Hb.
  - intros Hs Hb. now apply ConjPixelFunc_complex.
Qed.

(** conj from 32-bit complex floats to 32-bit floats. *)
Lemma ConjPixelFunc_real_destination_is_RealPixelFunc_witness :
  ConjPixelFunc (codec := Host.codec) [Host.packed c_float [1; 2; 3; 4]%float] 1 sentinel
                2 1 GDT_CFloat32 GDT_Float32 4 8
  = RealPixelFunc (codec := Host.codec) [Host.packed c_float [1; 2; 3; 4]%float] 1 sentinel
                  2 1 GDT_CFloat32 GDT_Float32 4 8.
Proof.
  apply (proj1 (@ConjPixelFunc_real_destination_is_RealPixelFunc Host.codec
                  [Host.packed c_float [1; 2; 3; 4]%float] 1 sentinel
                  2 1 GDT_CFloat32 GDT_Float32 4 8)).
  reflexivity.
Defined.




(** C9, as the specification states it, fails on a sample whose conjugate
    the type cannot hold: the imaginary part -32768 of a 16-bit complex
    integer is negated to 32768, stored as 32767 by GDAL's conversion, and
    comes back as -32767 from the second conj. *)
Lemma ConjPixelFunc_twice_CInt16_differs :
  let pSrc := Host.packed GInt16 [1; -32768]%float in
  imag_CInt16 pSrc = (-32768)%float
  /\ imag_CInt16 (conj_CInt16 pSrc) = 32767%float
  /\ imag_CInt16 (conj_CInt16 (conj_CInt16 pSrc)) = (-32767)%float.
Proof.
  repeat split; vm_compute; reflexivity.
Qed.

(** C9, amended.  conj applied twice to a complex source, through a packed
    buffer of the same complex type, gives back the original complex value
    at every sample, provided the type holds the conjugate of each sample:
    the conversion of the sample, and of its negated imaginary part, to the
    type of the parts survives the way there and back.  conj keeps the real
    part and negates the imaginary part, and negating twice is the
    identity.  64-bit complex floats hold the conjugate of every sample. *)
Theorem ConjPixelFunc_twice_is_identity {codec : Codec} :
  (forall (pSrc : Ptr) (pData1 pData2 : Buffer) (nXSize nYSize : Z)
          (eType : GDALDataType) (t : CType) (nPixelSpace nLineSpace : Z),
      GDALDataTypeIsComplex eType = true ->
      part_type eType = Some t ->
      let re ii := SRCVAL pSrc eType ii in
      let im ii := SRCVAL (ptr_add pSrc (GDALGetDataTypeSize eType ÷ 8 ÷ 2)) eType ii in
      (forall row col,
          In (row, col) (tile nYSize nXSize) ->
          encode t (decode t (encode t (re (row * nXSize + col))))
          = encode t (re (row * nXSize + col))
          /\ encode t (- decode t (encode t (- im (row * nXSize + col)%Z)))%float
             = encode t (im (row * nXSize + col))) ->
      let nPacked := GDALGetDataTypeSize eType ÷ 8 in
      let once :=
        ConjPixelFunc [pSrc] 1 pData1 nXSize nYSize eType eType
                      nPacked (nPacked * nXSize) in
      let twice :=
        ConjPixelFunc [{| ptr_buf := snd once; ptr_ofs := 0 |}] 1 pData2
                      nXSize nYSize eType eType nPixelSpace nLineSpace in
      fst once = CE_None
      /\ twice
         = (CE_None,
            write_tile eType nPixelSpace nLineSpace nYSize nXSize
              (fun row col => (re (row * nXSize + col), im (row * nXSize + col)))
              pData2))
  /\ (forall (pSrc : Ptr) (pData1 pData2 : Buffer) (nXSize nYSize : Z)
             (nPixelSpace nLineSpace : Z),
         let once :=
           ConjPixelFunc (codec := Host.codec) [pSrc] 1 pData1 nXSize nYSize
                         GDT_CFloat64 GDT_CFloat64 16 (16 * nXSize) in
         let twice :=
           ConjPixelFunc (codec := Host.codec)
                         [{| ptr_buf := snd once; ptr_ofs := 0 |}] 1 pData2
                         nXSize nYSize GDT_CFloat64 GDT_CFloat64
                         nPixelSpace nLineSpace in
         fst once = CE_None
         /\ twice
            = (CE_None,
               write_tile (codec := Host.codec) GDT_CFloat64 nPixelSpace nLineSpace
                 nYSize nXSize
                 (fun row col =>
                    (SRCVAL (codec := Host.codec) pSrc GDT_CFloat64
                            (row * nXSize + col),
                     SRCVAL (codec := Host.codec) (ptr_add pSrc 8) GDT_CFloat64
                            (row * nXSize + col)))
                 pData2)).
Proof.
  split; [exact ConjPixelFunc_twice|].
  intros pSrc pData1 pData2 nXSize nYSize nPixelSpace nLineSpace.
  apply (ConjPixelFunc_twice (codec := Host.codec) pSrc pData1 pData2 nXSize nYSize
           GDT_CFloat64 c_double nPixelSpace nLineSpace eq_refl eq_refl).
  intros row col _. rewrite !host_double_lossless. split; [reflexivity|].
  now rewrite opp_involutive.
Qed.

(** conj twice on the 16-bit complex integers 1 - 2i and 3 + 0i. *)
Lemma ConjPixelFunc_twice_is_identity_witness :
  let pSrc := Host.packed GInt16 [1; -2; 3; 0]%float in
  let once :=
    ConjPixelFunc (codec := Host.codec) [pSrc] 1 zero_buffer 2 1
                  GDT_CInt16 GDT_CInt16 4 (4 * 2) in
  let twice :=
    ConjPixelFunc (codec := Host.codec) [{| ptr_buf := snd once; ptr_ofs := 0 |}] 1
                  sentinel 2 1 GDT_CInt16 GDT_CInt16 8 16 in
  fst once = CE_None
  /\ twice
     = (CE_None,
        write_tile (codec := Host.codec) GDT_CInt16 8 16 1 2
          (fun row col =>
             (SRCVAL (codec := Host.codec) pSrc GDT_CInt16 (row * 2 + col),
              SRCVAL (codec := Host.codec) (ptr_add pSrc 2) GDT_CInt16 (row * 2 + col)))
          sentinel).
Proof.
  apply (proj1 (@ConjPixelFunc_twice_is_identity Host.codec)
           (Host.packed GInt16 [1; -2; 3; 0]%float) zero_buffer sentinel 2 1
           GDT_CInt16 GInt16 8 16 eq_refl eq_refl).
  intros row col Hin. apply in_tile in Hin.
  assert (row = 0) as -> by lia.
  assert (col = 0 \/ col = 1) as [-> | ->] by lia; split; vm_compute; reflexivity.
Defined.

(** * Further properties of the pixel functions *)

(** ** Every registered function *)

Lemma tile_no_columns (nYSize nXSize : Z) : nXSize <= 0 -> tile nYSize nXSize = [].
Proof.
  intros H. unfold tile. replace (Z.to_nat nXSize) with 0%nat by lia.
  induction (zfrom 0 (Z.to_nat nYSize)) as [|r l IH]; [reflexivity|exact IH].
Qed.

Lemma tile_no_lines (nYSize nXSize : Z) : nYSize <= 0 -> tile nYSize nXSize = [].
Proof.
  intros H. unfold tile. now replace (Z.to_nat nYSize) with 0%nat by lia.
Qed.

Section Frame.

Context {codec : Codec}.

(** A store of a word leaves the bytes outside the word as they are. *)
Lemma store_word_outside (eType : GDALDataType) (b : Buffer) (ofs : Z)
    (w : double * double) (a : Z) :
  a < ofs \/ ofs + word_size eType <= a ->
  store_word eType b ofs w a = b a.
Proof.
  unfold store_word, word_size. intros H.
  destruct (part_type eType) as [t|] eqn:Hp; [|reflexivity].
  assert (Hs : GDALGetDataTypeSize eType ÷ 8
               = if GDALDataTypeIsComplex eType then 2 * sizeof t else sizeof t)
    by (destruct eType; try discriminate Hp; injection Hp as <-; reflexivity).
  rewrite Hs in H.
  assert (Hpos : 0 < sizeof t) by (destruct t; reflexivity).
  destruct (GDALDataTypeIsComplex eType); unfold store_bytes; rewrite !encode_length;
    repeat match goal with
      | |- context [Z.leb ?x ?y] => destruct (Z.leb_spec x y)
      | |- context [Z.ltb ?x ?y] => destruct (Z.ltb_spec x y)
      end; cbn [andb]; try reflexivity; lia.
Qed.

Lemma write_tile_outside (eBufType : GDALDataType) (nPixelSpace nLineSpace : Z)
    (nYSize nXSize : Z) (val : Z -> Z -> double * double) (pData : Buffer) (a : Z) :
  (forall row col,
      In (row, col) (tile nYSize nXSize) ->
      a < nLineSpace * row + col * nPixelSpace
      \/ nLineSpace * row + col * nPixelSpace + word_size eBufType <= a) ->
  write_tile eBufType nPixelSpace nLineSpace nYSize nXSize val pData a = pData a.
Proof.
  unfold write_tile. generalize (tile nYSize nXSize) as l. intros l; revert pData.
  induction l as [|[row col] l IH]; intros pData H; [reflexivity|].
  cbn [fold_left fst snd]. rewrite IH by (intros r c Hin; apply H; now right).
  apply store_word_outside. apply H. now left.
Qed.

End Frame.

Section Registered.

Context {codec : Codec} {libm : LibM}.

Lemma ImagPixelFunc_complex_writes (papoSources : list Ptr) (pData : Buffer)
    (nXSize nYSize : Z) (eSrcType eBufType : GDALDataType) (nPixelSpace nLineSpace : Z) :
  GDALDataTypeIsComplex eSrcType = true ->
  ImagPixelFunc papoSources 1 pData nXSize nYSize eSrcType eBufType
                nPixelSpace nLineSpace
  = (CE_None,
     write_tile eBufType nPixelSpace nLineSpace nYSize nXSize
       (fun row col =>
          load_word eSrcType (ptr_buf papoSources.[0])
            (ptr_ofs papoSources.[0] + GDALGetDataTypeSize eSrcType ÷ 8 ÷ 2
             + GDALGetDataTypeSize eSrcType ÷ 8 * (row * nXSize + col)))
       pData).
Proof.
  intros Hc. unfold ImagPixelFunc. cbn [Z.eqb Pos.eqb negb]. rewrite Hc. f_equal.
  unfold write_tile, tile, c_for, GDALCopyWords.
  rewrite for_from_fold, fold_left_flat_map.
  apply fold_left_ext_in. intros d row _.
  rewrite copy_words_fold, fold_left_map.
  apply fold_left_ext_in. intros d' col _. cbn [fst snd read_word ptr_add ptr_buf ptr_ofs].
  do 2 f_equal. lia.
Qed.

Lemma ImagPixelFunc_real_writes (papoSources : list Ptr) (pData : Buffer)
    (nXSize nYSize : Z) (eSrcType eBufType : GDALDataType) (nPixelSpace nLineSpace : Z) :
  GDALDataTypeIsComplex eSrcType = false ->
  ImagPixelFunc papoSources 1 pData nXSize nYSize eSrcType eBufType
                nPixelSpace nLineSpace
  = (CE_None,
     write_tile eBufType nPixelSpace nLineSpace nYSize nXSize
       (fun _ _ => read_word (AtDouble 0) eSrcType 0) pData).
Proof.
  intros Hc. unfold ImagPixelFunc. cbn [Z.eqb Pos.eqb negb]. rewrite Hc. f_equal.
  unfold write_tile, tile, c_for, GDALCopyWords.
  rewrite for_from_fold, fold_left_flat_map.
  apply fold_left_ext_in. intros d row _.
  rewrite copy_words_fold, fold_left_map.
  apply fold_left_ext_in. intros d' col _. cbn [fst snd].
  now rewrite Z.mul_0_r.
Qed.

Lemma pixels_rc_write_tile (eBufType : GDALDataType) (nPixelSpace nLineSpace : Z)
    (nYSize nXSize : Z) (src : Z -> Z -> WordSource) (eType : GDALDataType)
    (pData : Buffer) :
  for_pixels nYSize nXSize (fun iLine iCol pData =>
    GDALCopyWords (src iLine iCol) eType 0
                  pData (nLineSpace * iLine + iCol * nPixelSpace)
                  eBufType nPixelSpace 1) pData
  = write_tile eBufType nPixelSpace nLineSpace nYSize nXSize
      (fun row col => read_word (src row col) eType 0) pData.
Proof.
  unfold write_tile. rewrite for_pixels_tile.
  apply fold_left_ext_in. intros d [row col] _. cbn [fst snd].
  now rewrite GDALCopyWords_one.
Qed.

Lemma pixels_ii_src_write_tile (eBufType : GDALDataType) (nPixelSpace nLineSpace : Z)
    (nYSize nXSize : Z) (src : Z -> WordSource) (eType : GDALDataType)
    (nSrcPixelOffset : Z -> Z) (pData : Buffer) :
  for_pixels_ii nYSize nXSize (fun iLine iCol ii pData =>
    GDALCopyWords (src ii) eType (nSrcPixelOffset ii)
                  pData (nLineSpace * iLine + iCol * nPixelSpace)
                  eBufType nPixelSpace 1) pData
  = write_tile eBufType nPixelSpace nLineSpace nYSize nXSize
      (fun row col => read_word (src (row * nXSize + col)) eType 0) pData.
Proof. now apply pixels_ii_write_tile. Qed.

Ltac registered_cases H :=
  unfold GDALRegisterDefaultPixelFunc in H;
  cbn [GDALAddDerivedBandPixelFunc String.eqb Ascii.eqb Bool.eqb snd In] in H;
  repeat (destruct H as [H|H]; [injection H as <- <- | ]); [ .. | contradiction ].

Ltac unfold_pixel_loops :=
  unfold dB2AmpPixelFunc, dB2PowPixelFunc;
  unfold ModulePixelFunc, PhasePixelFunc, ConjPixelFunc,
    SumPixelFunc, DiffPixelFunc, MulPixelFunc, CMulPixelFunc, InvPixelFunc,
    IntensityPixelFunc, SqrtPixelFunc, Log10PixelFunc, PowPixelFuncHelper,
    BetaSigmaToIncidence, UVToMagnitude, UVToDirectionTo, UVToDirectionFrom,
    Sigma0HHIncidenceToSigma0VV.

Ltac one_word_per_position :=
  first
    [ eexists; intros; apply RealPixelFunc_writes
    | eexists; intros; apply ImagPixelFunc_complex_writes; assumption
    | eexists; intros; apply ImagPixelFunc_real_writes; assumption
    | eexists; intros; cbv zeta; f_equal;
      first [ apply pixels_ii_src_write_tile | apply pixels_rc_write_tile ] ].

Lemma registered_write_tile (name : string) (f : PixelFunc) :
  In (name, f) (snd (GDALRegisterDefaultPixelFunc [])) ->
  forall papoSources nSources nXSize eSrcType eBufType,
    shape_error name nSources eSrcType = false ->
    exists val,
      forall pData nYSize nPixelSpace nLineSpace,
        f papoSources nSources pData nXSize nYSize eSrcType eBufType
          nPixelSpace nLineSpace
        = (CE_None,
           write_tile eBufType nPixelSpace nLineSpace nYSize nXSize val pData).
Proof.
  intros H. registered_cases H; intros until eBufType;
    unfold shape_error; cbn [catalog catalog_entry String.eqb Ascii.eqb Bool.eqb arity_holds];
    intros E.
  all: try (destruct (Z.eqb_spec nSources 1) as [->|]; [|discriminate E]).
  all: try (destruct (Z.eqb_spec nSources 2) as [->|]; [|discriminate E]).
  all: destruct (GDALDataTypeIsComplex eSrcType) eqn:Hs; try discriminate E.
  all: unfold_pixel_loops; cbn [Z.eqb Pos.eqb negb andb]; rewrite ?Hs; cbn [andb].
  all: try (destruct (Z.ltb_spec nSources 2);
            [destruct (Z.leb_spec 2 nSources); [lia | discriminate E]|]).
  all: try (destruct (GDALDataTypeIsComplex eBufType); cbn [andb]).
  all: one_word_per_position.
Qed.

End Registered.

Section InPlace.

Context {codec : Codec}.

Lemma word_size_parts (eType : GDALDataType) (t : CType) :
  part_type eType = Some t ->
  0 < sizeof t
  /\ word_size eType = if GDALDataTypeIsComplex eType then 2 * sizeof t else sizeof t.
Proof.
  intros Hp. split; [destruct t; reflexivity|].
  destruct eType; try discriminate Hp; injection Hp as <-; reflexivity.
Qed.

Lemma load_store_encoded (b : Buffer) (ofs : Z) (t : CType) (v : double) :
  load_bytes (store_bytes b ofs (encode t v)) ofs (sizeof t) = encode t v.
Proof. rewrite <- (encode_length t v). apply load_store_same. Qed.

Lemma load_store_word_same (eType : GDALDataType) (b : Buffer) (ofs : Z)
    (w : double * double) :
  load_word eType (store_word eType b ofs w) ofs = converted eType w.
Proof.
  unfold load_word, store_word, converted.
  destruct (part_type eType) as [t|] eqn:Hp; [|reflexivity].
  assert (Hpos : 0 < sizeof t) by (destruct t; reflexivity).
  cbv zeta. destruct (GDALDataTypeIsComplex eType).
  - rewrite load_store_encoded.
    rewrite load_store_other by (rewrite encode_length; lia).
    now rewrite load_store_encoded.
  - now rewrite load_store_encoded.
Qed.

Lemma load_store_word_disjoint (eType : GDALDataType) (b : Buffer) (ofs ofs' : Z)
    (w : double * double) :
  ofs' + word_size eType <= ofs \/ ofs + word_size eType <= ofs' ->
  load_word eType (store_word eType b ofs w) ofs' = load_word eType b ofs'.
Proof.
  unfold load_word, store_word. intros H.
  destruct (part_type eType) as [t|] eqn:Hp; [|reflexivity].
  destruct (word_size_parts eType t Hp) as [Hpos Hs]. rewrite Hs in H.
  destruct (GDALDataTypeIsComplex eType).
  - rewrite !load_store_other by (rewrite encode_length; lia). reflexivity.
  - rewrite !load_store_other by (rewrite encode_length; lia). reflexivity.
Qed.

(** Two positions of a tile whose lines and pixels do not overlap are the
    same or their words are apart. *)
Lemma strided_disjoint (w nPixelSpace nLineSpace nYSize nXSize : Z) (p q : Z * Z) :
  0 < w <= nPixelSpace ->
  nPixelSpace * nXSize <= nLineSpace ->
  In p (tile nYSize nXSize) -> In q (tile nYSize nXSize) ->
  q = p
  \/ nLineSpace * fst q + snd q * nPixelSpace + w
     <= nLineSpace * fst p + snd p * nPixelSpace
  \/ nLineSpace * fst p + snd p * nPixelSpace + w
     <= nLineSpace * fst q + snd q * nPixelSpace.
Proof.
  destruct p as [r c], q as [r' c']. intros Hw Hl Hp Hq.
  apply in_tile in Hp, Hq. cbn [fst snd].
  assert (Hc : c * nPixelSpace + nPixelSpace <= nPixelSpace * nXSize) by nia.
  assert (Hc' : c' * nPixelSpace + nPixelSpace <= nPixelSpace * nXSize) by nia.
  assert (0 <= c * nPixelSpace) by nia.
  assert (0 <= c' * nPixelSpace) by nia.
  destruct (Z.lt_trichotomy r' r) as [L | [E | L]].
  - right; left.
    assert (nLineSpace * r' + nLineSpace <= nLineSpace * r) by nia. lia.
  - subst r'. destruct (Z.lt_trichotomy c' c) as [L | [E | L]].
    + right; left. nia.
    + left. now subst.
    + right; right. nia.
  - right; right.
    assert (nLineSpace * r + nLineSpace <= nLineSpace * r') by nia. lia.
Qed.

Lemma stores_in_place (eType : GDALDataType) (nPixelSpace nLineSpace : Z)
    (val : Z -> Z -> double * double) (p : Z * Z) (l : list (Z * Z)) :
  (forall q, In q l ->
     q = p
     \/ nLineSpace * fst q + snd q * nPixelSpace + word_size eType
        <= nLineSpace * fst p + snd p * nPixelSpace
     \/ nLineSpace * fst p + snd p * nPixelSpace + word_size eType
        <= nLineSpace * fst q + snd q * nPixelSpace) ->
  forall d,
    In p l
    \/ load_word eType d (nLineSpace * fst p + snd p * nPixelSpace)
       = converted eType (val (fst p) (snd p)) ->
    load_word eType
      (fold_left (fun d rc =>
                    store_word eType d (nLineSpace * fst rc + snd rc * nPixelSpace)
                               (val (fst rc) (snd rc))) l d)
      (nLineSpace * fst p + snd p * nPixelSpace)
    = converted eType (val (fst p) (snd p)).
Proof.
  induction l as [|q l IH]; intros Hdis d Hp; cbn [fold_left].
  - destruct Hp as [[] | Hp]. exact Hp.
  - apply IH; [intros q' Hq'; apply Hdis; now right|].
    destruct Hp as [[E | Hin] | Hd].
    + right. subst q. apply load_store_word_same.
    + now left.
    + destruct (Hdis q (or_introl eq_refl)) as [E | Hq].
      * right. subst q. apply load_store_word_same.
      * right. rewrite load_store_word_disjoint by lia. exact Hd.
Qed.

(** After [write_tile] on a destination whose pixels and lines do not
    overlap, each position holds its word. *)
Lemma write_tile_in_place (eBufType : GDALDataType) (nPixelSpace nLineSpace : Z)
    (nYSize nXSize : Z) (val : Z -> Z -> double * double) (pData : Buffer)
    (row col : Z) :
  word_size eBufType <= nPixelSpace ->
  nPixelSpace * nXSize <= nLineSpace ->
  In (row, col) (tile nYSize nXSize) ->
  load_word eBufType
    (write_tile eBufType nPixelSpace nLineSpace nYSize nXSize val pData)
    (nLineSpace * row + col * nPixelSpace)
  = converted eBufType (val row col).
Proof.
  intros Hw Hl Hin.
  destruct (part_type eBufType) as [t|] eqn:Hp.
  - destruct (word_size_parts eBufType t Hp) as [Hpos Hs].
    assert (0 < word_size eBufType)
      by (rewrite Hs; destruct (GDALDataTypeIsComplex eBufType); lia).
    apply (stores_in_place eBufType nPixelSpace nLineSpace val (row, col)
             (tile nYSize nXSize)).
    + intros q Hq.
      apply (strided_disjoint (word_size eBufType) nPixelSpace nLineSpace
               nYSize nXSize (row, col) q); try assumption; lia.
    + now left.
  - unfold load_word, converted. now rewrite Hp.
Qed.

End InPlace.
Section EveryRegistered.

Context {codec : Codec} {libm : LibM}.

(** A call of a registered function fails and returns the destination it
    was given, or returns [CE_None] and the destination with the tile
    written; which of the two is decided by the number of sources and the
    source type. *)
Lemma registered_outcome (name : string) (f : PixelFunc) :
  In (name, f) (snd (GDALRegisterDefaultPixelFunc [])) ->
  forall papoSources nSources nXSize eSrcType eBufType,
    (forall papoSources' pData nXSize' nYSize eBufType' nPixelSpace nLineSpace,
        f papoSources' nSources pData nXSize' nYSize eSrcType eBufType'
          nPixelSpace nLineSpace
        = (CE_Failure, pData))
    \/ (exists val, forall pData nYSize nPixelSpace nLineSpace,
          f papoSources nSources pData nXSize nYSize eSrcType eBufType
            nPixelSpace nLineSpace
          = (CE_None,
             write_tile eBufType nPixelSpace nLineSpace nYSize nXSize val pData)).
Proof.
  intros H papoSources nSources nXSize eSrcType eBufType.
  destruct (shape_error name nSources eSrcType) eqn:E.
  - left. intros. now apply (registered_shape_error name f H).
  - right. now apply (registered_write_tile name f H).
Qed.

End EveryRegistered.

Ltac is_registered :=
  unfold GDALRegisterDefaultPixelFunc;
  cbn [GDALAddDerivedBandPixelFunc String.eqb Ascii.eqb Bool.eqb snd In];
  repeat (first [left; reflexivity | right]).

(** X1.  Every registered pixel function either fails, returning
    [CE_Failure] and the destination untouched whatever the sources, the
    sizes and the strides are, or succeeds, returning [CE_None] and the
    destination in which one word was stored at the address
    [nLineSpace * row + col * nPixelSpace] of each position of the tile, in
    row-major order.  The word stored at a position does not depend on the
    contents of the destination, on the strides or on the number of lines. *)
Theorem registered_function_fails_or_writes_each_position
    {codec : Codec} {libm : LibM} (name : string) (f : PixelFunc) :
  In (name, f) (snd (GDALRegisterDefaultPixelFunc [])) ->
  forall papoSources nSources nXSize eSrcType eBufType,
    (forall papoSources' pData nXSize' nYSize eBufType' nPixelSpace nLineSpace,
        f papoSources' nSources pData nXSize' nYSize eSrcType eBufType'
          nPixelSpace nLineSpace
        = (CE_Failure, pData))
    \/ (exists val, forall pData nYSize nPixelSpace nLineSpace,
          f papoSources nSources pData nXSize nYSize eSrcType eBufType
            nPixelSpace nLineSpace
          = (CE_None,
             write_tile eBufType nPixelSpace nLineSpace nYSize nXSize val pData)).
Proof. exact (registered_outcome name f). Qed.

(** diff of two real sources writes its tile. *)
Lemma registered_function_fails_or_writes_each_position_witness :
  (forall papoSources' pData nXSize' nYSize eBufType' nPixelSpace nLineSpace,
      DiffPixelFunc (codec := Host.codec) papoSources' 2 pData nXSize' nYSize
        GDT_Float64 eBufType' nPixelSpace nLineSpace
      = (CE_Failure, pData))
  \/ (exists val, forall pData nYSize nPixelSpace nLineSpace,
        DiffPixelFunc (codec := Host.codec)
          [Host.packed c_double [5]%float; Host.packed c_double [3]%float] 2
          pData 1 nYSize GDT_Float64 GDT_Float64 nPixelSpace nLineSpace
        = (CE_None,
           write_tile (codec := Host.codec) GDT_Float64 nPixelSpace nLineSpace
             nYSize 1 val pData)).
Proof.
  apply (@registered_function_fails_or_writes_each_position Host.codec AnnexF.libm
           "diff"%string DiffPixelFunc).
  is_registered.
Defined.

(** X2.  A registered pixel function changes no byte of the destination
    outside the words of the tile: a byte at an address that lies in none
    of the words at [nLineSpace * row + col * nPixelSpace] is after the
    call what it was before, whether the call succeeds or fails. *)
Theorem registered_function_changes_only_the_tile
    {codec : Codec} {libm : LibM} (name : string) (f : PixelFunc) :
  In (name, f) (snd (GDALRegisterDefaultPixelFunc [])) ->
  forall papoSources nSources pData nXSize nYSize eSrcType eBufType
         nPixelSpace nLineSpace a,
    (forall row col, 0 <= row < nYSize -> 0 <= col < nXSize ->
        a < nLineSpace * row + col * nPixelSpace
        \/ nLineSpace * row + col * nPixelSpace + word_size eBufType <= a) ->
    snd (f papoSources nSources pData nXSize nYSize eSrcType eBufType
           nPixelSpace nLineSpace) a
    = pData a.
Proof.
  intros H papoSources nSources pData nXSize nYSize eSrcType eBufType
         nPixelSpace nLineSpace a Ha.
  destruct (registered_outcome name f H papoSources nSources nXSize eSrcType eBufType)
    as [E | [val E]]; rewrite E; [reflexivity|].
  cbn [snd]. apply write_tile_outside.
  intros row col Hin. apply in_tile in Hin. now apply Ha.
Qed.

(** sum of two sources into a destination of 2 columns whose pixels are 8
    bytes apart, at type 32-bit float: the bytes 4..7, between the two
    words, keep the sentinel. *)
Lemma registered_function_changes_only_the_tile_witness :
  snd (SumPixelFunc (codec := Host.codec)
         [Host.packed c_float [1; 2]%float; Host.packed c_float [3; 4]%float] 2
         sentinel 2 1 GDT_Float32 GDT_Float32 8 16) 5
  = sentinel 5.
Proof.
  apply (@registered_function_changes_only_the_tile Host.codec AnnexF.libm
           "sum"%string SumPixelFunc).
  - is_registered.
  - intros row col Hr Hc. change (word_size GDT_Float32) with 4. lia.
Defined.

(** X3.  On a tile without columns or without lines a registered pixel
    function returns the destination it was given. *)
Theorem registered_function_empty_tile
    {codec : Codec} {libm : LibM} (name : string) (f : PixelFunc) :
  In (name, f) (snd (GDALRegisterDefaultPixelFunc [])) ->
  forall papoSources nSources pData nXSize nYSize eSrcType eBufType
         nPixelSpace nLineSpace,
    nXSize <= 0 \/ nYSize <= 0 ->
    snd (f papoSources nSources pData nXSize nYSize eSrcType eBufType
           nPixelSpace nLineSpace)
    = pData.
Proof.
  intros H papoSources nSources pData nXSize nYSize eSrcType eBufType
         nPixelSpace nLineSpace Hempty.
  destruct (registered_outcome name f H papoSources nSources nXSize eSrcType eBufType)
    as [E | [val E]]; rewrite E; [reflexivity|].
  cbn [snd]. unfold write_tile.
  destruct Hempty as [Hx | Hy];
    [rewrite tile_no_columns by exact Hx | rewrite tile_no_lines by exact Hy];
    reflexivity.
Qed.

(** mod on a tile of 3 lines and no column. *)
Lemma registered_function_empty_tile_witness :
  snd (ModulePixelFunc (codec := Host.codec) [Host.packed c_double []] 1
         sentinel 0 3 GDT_Float64 GDT_Float64 8 0)
  = sentinel.
Proof.
  apply (@registered_function_empty_tile Host.codec AnnexF.libm
           "mod"%string ModulePixelFunc).
  - is_registered.
  - left. lia.
Defined.

(** X4.  When the pixels and the lines of the destination do not overlap
    (the pixel stride is at least the width of a word and the line stride at
    least the width of a line), a successful call of a registered pixel
    function overwrites every word of the tile: the word a position holds
    afterwards is the same whatever the destination held before. *)
Theorem registered_function_overwrites_the_tile
    {codec : Codec} {libm : LibM} (name : string) (f : PixelFunc) :
  In (name, f) (snd (GDALRegisterDefaultPixelFunc [])) ->
  forall papoSources nSources nXSize nYSize eSrcType eBufType nPixelSpace nLineSpace
         pData,
    word_size eBufType <= nPixelSpace ->
    nPixelSpace * nXSize <= nLineSpace ->
    fst (f papoSources nSources pData nXSize nYSize eSrcType eBufType
           nPixelSpace nLineSpace) = CE_None ->
    forall pData' row col,
      0 <= row < nYSize -> 0 <= col < nXSize ->
      load_word eBufType
        (snd (f papoSources nSources pData nXSize nYSize eSrcType eBufType
                nPixelSpace nLineSpace))
        (nLineSpace * row + col * nPixelSpace)
      = load_word eBufType
          (snd (f papoSources nSources pData' nXSize nYSize eSrcType eBufType
                  nPixelSpace nLineSpace))
          (nLineSpace * row + col * nPixelSpace).
Proof.
  intros H papoSources nSources nXSize nYSize eSrcType eBufType nPixelSpace nLineSpace
         pData Hw Hl Hok pData' row col Hr Hc.
  destruct (registered_outcome name f H papoSources nSources nXSize eSrcType eBufType)
    as [E | [val E]].
  - rewrite E in Hok. discriminate Hok.
  - rewrite !E. cbn [snd].
    rewrite !write_tile_in_place; try assumption; try reflexivity;
      apply in_tile; split; assumption.
Qed.

(** inv into a destination holding the sentinel and into one holding
    zeros. *)
Lemma registered_function_overwrites_the_tile_witness :
  load_word (codec := Host.codec) GDT_Float64
    (snd (InvPixelFunc (codec := Host.codec) [Host.packed c_double [4]%float] 1
            sentinel 1 1 GDT_Float64 GDT_Float64 8 8)) (8 * 0 + 0 * 8)
  = load_word (codec := Host.codec) GDT_Float64
      (snd (InvPixelFunc (codec := Host.codec) [Host.packed c_double [4]%float] 1
              zero_buffer 1 1 GDT_Float64 GDT_Float64 8 8)) (8 * 0 + 0 * 8).
Proof.
  apply (@registered_function_overwrites_the_tile Host.codec AnnexF.libm
           "inv"%string InvPixelFunc).
  - is_registered.
  - change (word_size GDT_Float64) with 8. lia.
  - lia.
  - reflexivity.
  - lia.
  - lia.
Defined.

(** X5.  The error code of a registered pixel function is [CE_None] or
    [CE_Failure], and it is decided by the number of sources and the source
    type alone: the sources, the destination, its type, the sizes and the
    strides do not change it. *)
Theorem registered_function_error_code
    {codec : Codec} {libm : LibM} (name : string) (f : PixelFunc) :
  In (name, f) (snd (GDALRegisterDefaultPixelFunc [])) ->
  forall nSources eSrcType,
    exists err, (err = CE_None \/ err = CE_Failure)
      /\ forall papoSources pData nXSize nYSize eBufType nPixelSpace nLineSpace,
          fst (f papoSources nSources pData nXSize nYSize eSrcType eBufType
                 nPixelSpace nLineSpace) = err.
Proof.
  intros H nSources eSrcType.
  destruct (shape_error name nSources eSrcType) eqn:E.
  - exists CE_Failure. split; [now right|]. intros.
    now rewrite (registered_shape_error name f H).
  - exists CE_None. split; [now left|]. intros.
    now apply (registered_no_shape_error name f H).
Qed.

Lemma registered_function_error_code_witness :
  exists err, (err = CE_None \/ err = CE_Failure)
    /\ forall papoSources pData nXSize nYSize eBufType nPixelSpace nLineSpace,
        fst (SqrtPixelFunc (codec := Host.codec) papoSources 1 pData nXSize nYSize
               GDT_CFloat32 eBufType nPixelSpace nLineSpace) = err.
Proof.
  apply (@registered_function_error_code Host.codec AnnexF.libm
           "sqrt"%string SqrtPixelFunc).
  is_registered.
Defined.
(** ** real, imag and conj: the copies *)

Section Copies.

Context {codec : Codec}.

(** A word of a real type is its sample and a zero imaginary part. *)
Lemma load_word_real (eType : GDALDataType) (p : Ptr) (ii : Z) :
  GDALDataTypeIsComplex eType = false ->
  load_word eType (ptr_buf p) (ptr_ofs p + GDALGetDataTypeSize eType ÷ 8 * ii)
  = (SRCVAL p eType ii, 0%float).
Proof.
  intros H. rewrite <- (load_word_SRCVAL eType p ii).
  unfold load_word. destruct (part_type eType); [|reflexivity].
  now rewrite H.
Qed.

(** A word of a complex type is the two parts [SRCVAL] reads at the start
    of the word and half a word further. *)
Lemma load_word_complex (eType : GDALDataType) (p : Ptr) (ii : Z) :
  GDALDataTypeIsComplex eType = true ->
  load_word eType (ptr_buf p) (ptr_ofs p + GDALGetDataTypeSize eType ÷ 8 * ii)
  = (SRCVAL p eType ii,
     SRCVAL (ptr_add p (GDALGetDataTypeSize eType ÷ 8 ÷ 2)) eType ii).
Proof.
  intros H. unfold load_word, SRCVAL, index.
  destruct eType; try discriminate H;
    cbn [part_type GDALDataTypeIsComplex GDALGetDataTypeSize sizeof ptr_add
         ptr_buf ptr_ofs];
    repeat match goal with
      | |- context [?n ÷ 8 ÷ 2] =>
          let v := eval vm_compute in (n ÷ 8 ÷ 2) in change (n ÷ 8 ÷ 2) with v
      | |- context [?n ÷ 8] =>
          let v := eval vm_compute in (n ÷ 8) in change (n ÷ 8) with v
      end;
    f_equal; do 2 f_equal; lia.
Qed.

(** The word half a word into a complex sample: the imaginary part of the
    sample, and then the real part of the sample that follows. *)
Lemma load_word_imag (eType : GDALDataType) (p : Ptr) (ii : Z) :
  GDALDataTypeIsComplex eType = true ->
  load_word eType (ptr_buf p)
    (ptr_ofs p + GDALGetDataTypeSize eType ÷ 8 ÷ 2 + GDALGetDataTypeSize eType ÷ 8 * ii)
  = (SRCVAL (ptr_add p (GDALGetDataTypeSize eType ÷ 8 ÷ 2)) eType ii,
     SRCVAL p eType (ii + 1)).
Proof.
  intros H. unfold load_word, SRCVAL, index.
  destruct eType; try discriminate H;
    cbn [part_type GDALDataTypeIsComplex GDALGetDataTypeSize sizeof ptr_add
         ptr_buf ptr_ofs];
    repeat match goal with
      | |- context [?n ÷ 8 ÷ 2] =>
          let v := eval vm_compute in (n ÷ 8 ÷ 2) in change (n ÷ 8 ÷ 2) with v
      | |- context [?n ÷ 8] =>
          let v := eval vm_compute in (n ÷ 8) in change (n ÷ 8) with v
      end;
    f_equal; do 2 f_equal; lia.
Qed.

Lemma write_tile_ext (eBufType : GDALDataType) (nPixelSpace nLineSpace : Z)
    (nYSize nXSize : Z) (val val' : Z -> Z -> double * double) (pData : Buffer) :
  (forall row col d ofs,
      store_word eBufType d ofs (val row col) = store_word eBufType d ofs (val' row col)) ->
  write_tile eBufType nPixelSpace nLineSpace nYSize nXSize val pData
  = write_tile eBufType nPixelSpace nLineSpace nYSize nXSize val' pData.
Proof.
  intros E. unfold write_tile. apply fold_left_ext_in. intros d [row col] _. apply E.
Qed.

End Copies.

(** X6.  real, when the source type or the destination type is real,
    writes at each position the sample of the source at the linear index
    [row * nXSize + col], as a real number; so does conj when the source
    type is real. *)
Theorem RealPixelFunc_writes_the_real_part {codec : Codec}
    (papoSources : list Ptr) (pData : Buffer) (nXSize nYSize : Z)
    (eSrcType eBufType : GDALDataType) (nPixelSpace nLineSpace : Z) :
  GDALDataTypeIsComplex eSrcType = false \/ GDALDataTypeIsComplex eBufType = false ->
  RealPixelFunc papoSources 1 pData nXSize nYSize eSrcType eBufType
                nPixelSpace nLineSpace
  = (CE_None,
     write_tile eBufType nPixelSpace nLineSpace nYSize nXSize
       (fun row col => (SRCVAL papoSources.[0] eSrcType (row * nXSize + col), 0%float))
       pData)
  /\ (GDALDataTypeIsComplex eSrcType = false ->
      ConjPixelFunc papoSources 1 pData nXSize nYSize eSrcType eBufType
                    nPixelSpace nLineSpace
      = (CE_None,
         write_tile eBufType nPixelSpace nLineSpace nYSize nXSize
           (fun row col =>
              (SRCVAL papoSources.[0] eSrcType (row * nXSize + col), 0%float))
           pData)).
Proof.
  intros H.
  assert (E : RealPixelFunc papoSources 1 pData nXSize nYSize eSrcType eBufType
                nPixelSpace nLineSpace
              = (CE_None,
                 write_tile eBufType nPixelSpace nLineSpace nYSize nXSize
                   (fun row col =>
                      (SRCVAL papoSources.[0] eSrcType (row * nXSize + col), 0%float))
                   pData)).
  { destruct H as [Hs | Hb].
    - rewrite RealPixelFunc_writes. f_equal. apply write_tile_ext.
      intros row col d ofs. now rewrite load_word_real.
    - now apply RealPixelFunc_real_destination. }
  split; [exact E|].
  intros Hs. unfold ConjPixelFunc. cbn [Z.eqb Pos.eqb negb]. rewrite Hs. cbn [andb].
  exact E.
Qed.

(** real from 16-bit integers into 64-bit complex floats. *)
Lemma RealPixelFunc_writes_the_real_part_witness :
  RealPixelFunc (codec := Host.codec) [Host.packed GInt16 [7; -2]%float] 1 sentinel
                2 1 GDT_Int16 GDT_CFloat64 16 32
  = (CE_None,
     write_tile (codec := Host.codec) GDT_CFloat64 16 32 1 2
       (fun row col =>
          (SRCVAL (codec := Host.codec) [Host.packed GInt16 [7; -2]%float].[0]
                  GDT_Int16 (row * 2 + col), 0%float))
       sentinel).
Proof.
  apply (@RealPixelFunc_writes_the_real_part Host.codec).
  left. reflexivity.
Defined.

(** X7.  real from a complex source into a complex destination copies the
    whole word: the imaginary part written at a position is the imaginary
    part of the source sample, not zero. *)
Theorem RealPixelFunc_complex_keeps_the_imaginary_part {codec : Codec}
    (papoSources : list Ptr) (pData : Buffer) (nXSize nYSize : Z)
    (eSrcType eBufType : GDALDataType) (nPixelSpace nLineSpace : Z) :
  GDALDataTypeIsComplex eSrcType = true ->
  RealPixelFunc papoSources 1 pData nXSize nYSize eSrcType eBufType
                nPixelSpace nLineSpace
  = (CE_None,
     write_tile eBufType nPixelSpace nLineSpace nYSize nXSize
       (fun row col =>
          (SRCVAL papoSources.[0] eSrcType (row * nXSize + col),
           SRCVAL (ptr_add papoSources.[0] (GDALGetDataTypeSize eSrcType ÷ 8 ÷ 2))
                  eSrcType (row * nXSize + col)))
       pData).
Proof.
  intros Hs. rewrite RealPixelFunc_writes. f_equal. apply write_tile_ext.
  intros row col d ofs. now rewrite load_word_complex.
Qed.

(** The sample 3 + 4i as 64-bit complex floats: real leaves 3 + 4i in a
    destination of the same type. *)
Lemma RealPixelFunc_complex_keeps_the_imaginary_part_witness :
  RealPixelFunc (codec := Host.codec) [Host.packed c_double [3; 4]%float] 1 sentinel
                1 1 GDT_CFloat64 GDT_CFloat64 16 16
  = (CE_None,
     write_tile (codec := Host.codec) GDT_CFloat64 16 16 1 1
       (fun row col =>
          (SRCVAL (codec := Host.codec) [Host.packed c_double [3; 4]%float].[0]
                  GDT_CFloat64 (row * 1 + col),
           SRCVAL (codec := Host.codec)
                  (ptr_add [Host.packed c_double [3; 4]%float].[0]
                           (GDALGetDataTypeSize GDT_CFloat64 ÷ 8 ÷ 2))
                  GDT_CFloat64 (row * 1 + col)))
       sentinel).
Proof.
  apply (@RealPixelFunc_complex_keeps_the_imaginary_part Host.codec).
  reflexivity.
Defined.

(** X8.  On the host, real between buffers of the same type with [double]
    parts (64-bit float, 128-bit complex float) copies the numbers exactly:
    when the pixels and the lines of the destination do not overlap, the
    word read at each position of the tile afterwards has the parts, as
    [double]s, of the word of the source at its linear index.  (The numbers,
    not the bits: the sign and the payload of a NaN are not tracked.) *)
Theorem RealPixelFunc_host_double_copy
    (pSrc : Ptr) (pData : Buffer) (nXSize nYSize : Z) (eType : GDALDataType)
    (nPixelSpace nLineSpace : Z) (row col : Z) :
  part_type eType = Some c_double ->
  word_size eType <= nPixelSpace ->
  nPixelSpace * nXSize <= nLineSpace ->
  0 <= row < nYSize -> 0 <= col < nXSize ->
  load_word (codec := Host.codec) eType
    (snd (RealPixelFunc (codec := Host.codec) [pSrc] 1 pData nXSize nYSize
            eType eType nPixelSpace nLineSpace))
    (nLineSpace * row + col * nPixelSpace)
  = load_word (codec := Host.codec) eType (ptr_buf pSrc)
      (ptr_ofs pSrc + word_size eType * (row * nXSize + col)).
Proof.
  intros Hp Hw Hl Hr Hc. rewrite RealPixelFunc_writes. cbn [snd].
  rewrite write_tile_in_place by (try assumption; apply in_tile; split; assumption).
  change ([pSrc].[0]) with pSrc. fold (word_size eType).
  unfold converted. rewrite Hp, !host_double_lossless.
  unfold load_word. rewrite Hp. cbv zeta.
  destruct (GDALDataTypeIsComplex eType); reflexivity.
Qed.

Lemma RealPixelFunc_host_double_copy_witness :
  load_word (codec := Host.codec) GDT_CFloat64
    (snd (RealPixelFunc (codec := Host.codec)
            [Host.packed c_double [1; 2; 3; 4]%float] 1 sentinel 2 1
            GDT_CFloat64 GDT_CFloat64 16 32))
    (32 * 0 + 1 * 16)
  = load_word (codec := Host.codec) GDT_CFloat64
      (ptr_buf (Host.packed c_double [1; 2; 3; 4]%float))
      (ptr_ofs (Host.packed c_double [1; 2; 3; 4]%float)
       + word_size GDT_CFloat64 * (0 * 2 + 1)).
Proof.
  apply RealPixelFunc_host_double_copy.
  - reflexivity.
  - change (word_size GDT_CFloat64) with 16. lia.
  - lia.
  - lia.
  - lia.
Defined.

(** X9.  imag of a real source writes the same word at every position,
    whatever the sources hold: the [double] zero read as an element of the
    source type.  On the host that word is zero for every real type. *)
Theorem ImagPixelFunc_real_source_writes_zero {codec : Codec}
    (papoSources : list Ptr) (pData : Buffer) (nXSize nYSize : Z)
    (eSrcType eBufType : GDALDataType) (nPixelSpace nLineSpace : Z) :
  GDALDataTypeIsComplex eSrcType = false ->
  ImagPixelFunc papoSources 1 pData nXSize nYSize eSrcType eBufType
                nPixelSpace nLineSpace
  = (CE_None,
     write_tile eBufType nPixelSpace nLineSpace nYSize nXSize
       (fun _ _ => read_word (AtDouble 0) eSrcType 0) pData)
  /\ read_word (codec := Host.codec) (AtDouble 0) eSrcType 0 = (0, 0)%float.
Proof.
  intros Hs. split; [now apply ImagPixelFunc_real_writes|].
  destruct eSrcType; try discriminate Hs; vm_compute; reflexivity.
Qed.

Lemma ImagPixelFunc_real_source_writes_zero_witness :
  ImagPixelFunc (codec := Host.codec) [Host.packed GByte [9]%float] 1 sentinel
                1 1 GDT_Byte GDT_Float32 4 4
  = (CE_None,
     write_tile (codec := Host.codec) GDT_Float32 4 4 1 1
       (fun _ _ => read_word (codec := Host.codec) (AtDouble 0) GDT_Byte 0) sentinel)
  /\ read_word (codec := Host.codec) (AtDouble 0) GDT_Byte 0 = (0, 0)%float.
Proof.
  apply (@ImagPixelFunc_real_source_writes_zero Host.codec).
  reflexivity.
Defined.

(** X10.  imag of a complex source copies the words that start at the
    imaginary parts: the real part written at a position is the imaginary
    part of the source sample at the linear index [ii] of the position, and
    the imaginary part written, which only a complex destination keeps, is
    the real part of the source sample at [ii + 1]. *)
Theorem ImagPixelFunc_complex_source {codec : Codec}
    (papoSources : list Ptr) (pData : Buffer) (nXSize nYSize : Z)
    (eSrcType eBufType : GDALDataType) (nPixelSpace nLineSpace : Z) :
  GDALDataTypeIsComplex eSrcType = true ->
  ImagPixelFunc papoSources 1 pData nXSize nYSize eSrcType eBufType
                nPixelSpace nLineSpace
  = (CE_None,
     write_tile eBufType nPixelSpace nLineSpace nYSize nXSize
       (fun row col =>
          (SRCVAL (ptr_add papoSources.[0] (GDALGetDataTypeSize eSrcType ÷ 8 ÷ 2))
                  eSrcType (row * nXSize + col),
           SRCVAL papoSources.[0] eSrcType (row * nXSize + col + 1)))
       pData)
  /\ (GDALDataTypeIsComplex eBufType = false ->
      ImagPixelFunc papoSources 1 pData nXSize nYSize eSrcType eBufType
                    nPixelSpace nLineSpace
      = (CE_None,
         write_tile eBufType nPixelSpace nLineSpace nYSize nXSize
           (fun row col =>
              (SRCVAL (ptr_add papoSources.[0] (GDALGetDataTypeSize eSrcType ÷ 8 ÷ 2))
                      eSrcType (row * nXSize + col),
               0%float))
           pData)).
Proof.
  intros Hs.
  assert (E : ImagPixelFunc papoSources 1 pData nXSize nYSize eSrcType eBufType
                nPixelSpace nLineSpace
              = (CE_None,
                 write_tile eBufType nPixelSpace nLineSpace nYSize nXSize
                   (fun row col =>
                      (SRCVAL (ptr_add papoSources.[0]
                                 (GDALGetDataTypeSize eSrcType ÷ 8 ÷ 2))
                              eSrcType (row * nXSize + col),
                       SRCVAL papoSources.[0] eSrcType (row * nXSize + col + 1)))
                   pData)).
  { rewrite ImagPixelFunc_complex_writes by exact Hs. f_equal. apply write_tile_ext.
    intros row col d ofs. now rewrite load_word_imag. }
  split; [exact E|].
  intros Hb. rewrite E. f_equal. apply write_tile_ext.
  intros row col d ofs. now rewrite store_word_real.
Qed.

(** The samples 1 + 2i and 3 + 4i. *)
Lemma ImagPixelFunc_complex_source_witness :
  ImagPixelFunc (codec := Host.codec) [Host.packed c_double [1; 2; 3; 4]%float] 1
                sentinel 2 1 GDT_CFloat64 GDT_CFloat64 16 32
  = (CE_None,
     write_tile (codec := Host.codec) GDT_CFloat64 16 32 1 2
       (fun row col =>
          (SRCVAL (codec := Host.codec)
                  (ptr_add [Host.packed c_double [1; 2; 3; 4]%float].[0]
                           (GDALGetDataTypeSize GDT_CFloat64 ÷ 8 ÷ 2))
                  GDT_CFloat64 (row * 2 + col),
           SRCVAL (codec := Host.codec) [Host.packed c_double [1; 2; 3; 4]%float].[0]
                  GDT_CFloat64 (row * 2 + col + 1)))
       sentinel).
Proof.
  apply (proj1 (@ImagPixelFunc_complex_source Host.codec
                  [Host.packed c_double [1; 2; 3; 4]%float] sentinel 2 1
                  GDT_CFloat64 GDT_CFloat64 16 32 eq_refl)).
Defined.
(** ** Numbers that are never negative *)

(** A rounded number with the sign bit clear is not below zero. *)
Lemma binary_round_aux_not_negative (mx ex : Z) (lx : location) :
  SFltb (binary_round_aux prec emax false mx ex lx) (S754_zero false) = false.
Proof.
  unfold binary_round_aux.
  destruct (shr_fexp prec emax mx ex lx) as [mrs' e'].
  destruct (shr_fexp prec emax _ e' loc_Exact) as [mrs'' e''].
  destruct (shr_m mrs''); [|destruct (e'' <=? emax - prec)|]; reflexivity.
Qed.

(** The square root is never below zero. *)
Lemma sqrt_not_negative (x : double) : (C.sqrt x <? 0)%float = false.
Proof.
  unfold C.sqrt. rewrite ltb_spec, sqrt_spec.
  change (Prim2SF 0) with (S754_zero false). unfold SF64sqrt, SFsqrt.
  destruct (Prim2SF x) as [s|[|]| |[|] m e]; try reflexivity.
  destruct (SFsqrt_core_binary prec emax (Z.pos m) e) as [[mz ez] lz].
  apply binary_round_aux_not_negative.
Qed.

(** The square root of a number below zero is not a number. *)
Lemma sqrt_of_negative (x : double) : (x <? 0)%float = true -> C.sqrt x = nan.
Proof.
  unfold C.sqrt. rewrite ltb_spec. change (Prim2SF 0) with (S754_zero false).
  intros H. apply Prim2SF_inj. rewrite sqrt_spec. unfold SF64sqrt, SFsqrt.
  destruct (Prim2SF x) as [s|[|]| |[|] m e]; try reflexivity; discriminate H.
Qed.

(** A square is never below zero. *)
Lemma square_not_negative (x : double) : (x * x <? 0)%float = false.
Proof.
  rewrite ltb_spec, mul_spec. change (Prim2SF 0) with (S754_zero false).
  unfold SF64mul, SFmul.
  destruct (Prim2SF x) as [s|s| |s m e]; try (destruct s; reflexivity);
    try reflexivity.
  destruct s; apply binary_round_aux_not_negative.
Qed.

Lemma binary_round_not_negative (m : positive) (e : Z) :
  SFltb (binary_round prec emax false m e) (S754_zero false) = false.
Proof.
  unfold binary_round.
  destruct (shl_align m e (fexp prec emax (Z.pos (digits2_pos m) + e))) as [mz ez].
  apply binary_round_aux_not_negative.
Qed.

(** The sum of two numbers that are not below zero is not below zero. *)
Lemma add_not_negative (x y : double) :
  (x <? 0)%float = false -> (y <? 0)%float = false -> (x + y <? 0)%float = false.
Proof.
  rewrite !ltb_spec, add_spec. change (Prim2SF 0) with (S754_zero false).
  unfold SF64add, SFadd.
  destruct (Prim2SF x) as [sx|sx| |sx mx ex], (Prim2SF y) as [sy|sy| |sy my ey];
    try (destruct sx); try (destruct sy); intros Hx Hy;
    try reflexivity; try discriminate Hx; try discriminate Hy; try assumption.
  cbn [cond_Zopp]. unfold binary_normalize.
  destruct (shl_align mx ex (IntDef.Z.min ex ey)) as [a ea].
  destruct (shl_align my ey (IntDef.Z.min ex ey)) as [b eb].
  cbn [fst]. change (Z.pos a + Z.pos b) with (Z.pos (a + b)).
  apply binary_round_not_negative.
Qed.

(** The squared magnitude of a complex number is never below zero. *)
Lemma intensity_not_negative (re im : double) :
  (re * re + im * im <? 0)%float = false.
Proof. apply add_not_negative; apply square_not_negative. Qed.
(** Addition commutes. *)
Lemma add_commutative (x y : double) : (x + y)%float = (y + x)%float.
Proof.
  apply Prim2SF_inj. rewrite !add_spec. unfold SF64add, SFadd.
  destruct (Prim2SF x) as [sx|sx| |sx mx ex], (Prim2SF y) as [sy|sy| |sy my ey];
    try (destruct sx); try (destruct sy); try reflexivity.
  all: cbv zeta; change IntDef.Z.min with Z.min; rewrite (Z.min_comm ey ex);
    f_equal; apply Z.add_comm.
Qed.

Lemma fold_left_pair {A B C : Type} (f : A -> C -> A) (g : B -> C -> B)
    (l : list C) (a : A) (b : B) :
  fold_left (fun ab x => (f (fst ab) x, g (snd ab) x)) l (a, b)
  = (fold_left f l a, fold_left g l b).
Proof.
  revert a b; induction l as [|x l IH]; intros a b; [reflexivity|].
  cbn [fold_left fst snd]. apply IH.
Qed.

(** ** The arithmetic functions *)

Section Arithmetic.

Context {codec : Codec} {libm : LibM}.

(** A pixel loop that copies one local word to each position writes the
    tile. *)
Ltac tile_write :=
  f_equal; unfold write_tile;
  first [rewrite for_pixels_ii_tile | rewrite for_pixels_tile];
  apply fold_left_ext_in; intros ? [? ?] _; cbn [fst snd]; cbv zeta;
  rewrite GDALCopyWords_one.

Lemma SqrtPixelFunc_real (papoSources : list Ptr) (pData : Buffer)
    (nXSize nYSize : Z) (eSrcType eBufType : GDALDataType) (nPixelSpace nLineSpace : Z) :
  GDALDataTypeIsComplex eSrcType = false ->
  SqrtPixelFunc papoSources 1 pData nXSize nYSize eSrcType eBufType
                nPixelSpace nLineSpace
  = (CE_None,
     write_tile eBufType nPixelSpace nLineSpace nYSize nXSize
       (fun row col =>
          (C.sqrt (SRCVAL papoSources.[0] eSrcType (row * nXSize + col)), 0%float))
       pData).
Proof.
  intros Hs. unfold SqrtPixelFunc. cbn [Z.eqb Pos.eqb negb]. rewrite Hs.
  tile_write. reflexivity.
Qed.

Lemma UVToMagnitude_writes (papoSources : list Ptr) (pData : Buffer)
    (nXSize nYSize : Z) (eSrcType eBufType : GDALDataType) (nPixelSpace nLineSpace : Z) :
  UVToMagnitude papoSources 2 pData nXSize nYSize eSrcType eBufType
                nPixelSpace nLineSpace
  = (CE_None,
     write_tile eBufType nPixelSpace nLineSpace nYSize nXSize
       (fun row col =>
          let u := SRCVAL papoSources.[0] eSrcType (row * nXSize + col) in
          let v := SRCVAL papoSources.[1] eSrcType (row * nXSize + col) in
          (C.sqrt (u * u + v * v), 0%float))
       pData).
Proof.
  unfold UVToMagnitude. cbn [Z.eqb Pos.eqb negb]. tile_write. reflexivity.
Qed.

Lemma UVToDirectionFrom_writes (papoSources : list Ptr) (pData : Buffer)
    (nXSize nYSize : Z) (eSrcType eBufType : GDALDataType) (nPixelSpace nLineSpace : Z) :
  UVToDirectionFrom papoSources 2 pData nXSize nYSize eSrcType eBufType
                    nPixelSpace nLineSpace
  = (CE_None,
     write_tile eBufType nPixelSpace nLineSpace nYSize nXSize
       (fun row col =>
          let u := SRCVAL papoSources.[0] eSrcType (row * nXSize + col) in
          let v := SRCVAL papoSources.[1] eSrcType (row * nXSize + col) in
          ((atan2 u v * 180 / PI + 180)%float, 0%float))
       pData).
Proof.
  unfold UVToDirectionFrom. cbn [Z.eqb Pos.eqb negb]. tile_write. reflexivity.
Qed.

(** X22.  Sigma0HHIncidenceToSigma0VV writes the first sample times the
    squared polarisation ratio
    [((1 + 2 tan(a)^2) / (1 + 0.6 tan(a)^2))^2], where the angle [a] is the
    second sample times [PI / 180], the squares being taken with [pow]. *)
Theorem Sigma0HHIncidenceToSigma0VV_writes_sigma0VV
    (papoSources : list Ptr) (pData : Buffer)
    (nXSize nYSize : Z) (eSrcType eBufType : GDALDataType) (nPixelSpace nLineSpace : Z) :
  Sigma0HHIncidenceToSigma0VV papoSources 2 pData nXSize nYSize eSrcType eBufType
                              nPixelSpace nLineSpace
  = (CE_None,
     write_tile eBufType nPixelSpace nLineSpace nYSize nXSize
       (fun row col =>
          let sigma0HH := SRCVAL papoSources.[0] eSrcType (row * nXSize + col) in
          let incidence_angle :=
            (SRCVAL papoSources.[1] eSrcType (row * nXSize + col) * PI / 180)%float in
          let t2 := pow (tan incidence_angle) 2 in
          ((sigma0HH * pow ((1 + 2 * t2) / (1 + 0.6 * t2)) 2)%float, 0%float))
       pData).
Proof.
  unfold Sigma0HHIncidenceToSigma0VV. cbn [Z.eqb Pos.eqb negb]. tile_write.
  reflexivity.
Qed.

Lemma IntensityPixelFunc_complex (papoSources : list Ptr) (pData : Buffer)
    (nXSize nYSize : Z) (eSrcType eBufType : GDALDataType) (nPixelSpace nLineSpace : Z) :
  GDALDataTypeIsComplex eSrcType = true ->
  IntensityPixelFunc papoSources 1 pData nXSize nYSize eSrcType eBufType
                     nPixelSpace nLineSpace
  = (CE_None,
     write_tile eBufType nPixelSpace nLineSpace nYSize nXSize
       (fun row col =>
          let dfReal := SRCVAL papoSources.[0] eSrcType (row * nXSize + col) in
          let dfImag :=
            SRCVAL (ptr_add papoSources.[0] (GDALGetDataTypeSize eSrcType ÷ 8 ÷ 2))
                   eSrcType (row * nXSize + col) in
          ((dfReal * dfReal + dfImag * dfImag)%float, 0%float))
       pData).
Proof.
  intros Hs. unfold IntensityPixelFunc. cbn [Z.eqb Pos.eqb negb]. rewrite Hs.
  tile_write. reflexivity.
Qed.

Lemma IntensityPixelFunc_real (papoSources : list Ptr) (pData : Buffer)
    (nXSize nYSize : Z) (eSrcType eBufType : GDALDataType) (nPixelSpace nLineSpace : Z) :
  GDALDataTypeIsComplex eSrcType = false ->
  IntensityPixelFunc papoSources 1 pData nXSize nYSize eSrcType eBufType
                     nPixelSpace nLineSpace
  = (CE_None,
     write_tile eBufType nPixelSpace nLineSpace nYSize nXSize
       (fun row col =>
          let dfPixVal := SRCVAL papoSources.[0] eSrcType (row * nXSize + col) in
          ((dfPixVal * dfPixVal)%float, 0%float))
       pData).
Proof.
  intros Hs. unfold IntensityPixelFunc. cbn [Z.eqb Pos.eqb negb]. rewrite Hs.
  tile_write. reflexivity.
Qed.

Lemma InvPixelFunc_complex (papoSources : list Ptr) (pData : Buffer)
    (nXSize nYSize : Z) (eSrcType eBufType : GDALDataType) (nPixelSpace nLineSpace : Z) :
  GDALDataTypeIsComplex eSrcType = true ->
  InvPixelFunc papoSources 1 pData nXSize nYSize eSrcType eBufType
               nPixelSpace nLineSpace
  = (CE_None,
     write_tile eBufType nPixelSpace nLineSpace nYSize nXSize
       (fun row col =>
          let dfReal := SRCVAL papoSources.[0] eSrcType (row * nXSize + col) in
          let dfImag :=
            SRCVAL (ptr_add papoSources.[0] (GDALGetDataTypeSize eSrcType ÷ 8 ÷ 2))
                   eSrcType (row * nXSize + col) in
          let dfAux := (dfReal * dfReal + dfImag * dfImag)%float in
          ((dfReal / dfAux)%float, (- dfImag / dfAux)%float))
       pData).
Proof.
  intros Hs. unfold InvPixelFunc. cbn [Z.eqb Pos.eqb negb]. rewrite Hs.
  tile_write. reflexivity.
Qed.

Lemma DiffPixelFunc_real (papoSources : list Ptr) (pData : Buffer)
    (nXSize nYSize : Z) (eSrcType eBufType : GDALDataType) (nPixelSpace nLineSpace : Z) :
  GDALDataTypeIsComplex eSrcType = false ->
  DiffPixelFunc papoSources 2 pData nXSize nYSize eSrcType eBufType
                nPixelSpace nLineSpace
  = (CE_None,
     write_tile eBufType nPixelSpace nLineSpace nYSize nXSize
       (fun row col =>
          ((SRCVAL papoSources.[0] eSrcType (row * nXSize + col)
            - SRCVAL papoSources.[1] eSrcType (row * nXSize + col))%float, 0%float))
       pData).
Proof.
  intros Hs. unfold DiffPixelFunc. cbn [Z.eqb Pos.eqb negb]. rewrite Hs.
  tile_write. reflexivity.
Qed.

Lemma DiffPixelFunc_complex (papoSources : list Ptr) (pData : Buffer)
    (nXSize nYSize : Z) (eSrcType eBufType : GDALDataType) (nPixelSpace nLineSpace : Z) :
  GDALDataTypeIsComplex eSrcType = true ->
  DiffPixelFunc papoSources 2 pData nXSize nYSize eSrcType eBufType
                nPixelSpace nLineSpace
  = (CE_None,
     write_tile eBufType nPixelSpace nLineSpace nYSize nXSize
       (fun row col =>
          let nOffset := GDALGetDataTypeSize eSrcType ÷ 8 ÷ 2 in
          ((SRCVAL papoSources.[0] eSrcType (row * nXSize + col)
            - SRCVAL papoSources.[1] eSrcType (row * nXSize + col))%float,
           (SRCVAL (ptr_add papoSources.[0] nOffset) eSrcType (row * nXSize + col)
            - SRCVAL (ptr_add papoSources.[1] nOffset) eSrcType (row * nXSize + col))%float))
       pData).
Proof.
  intros Hs. unfold DiffPixelFunc. cbn [Z.eqb Pos.eqb negb]. rewrite Hs.
  tile_write. reflexivity.
Qed.

Lemma CMulPixelFunc_real (papoSources : list Ptr) (pData : Buffer)
    (nXSize nYSize : Z) (eSrcType eBufType : GDALDataType) (nPixelSpace nLineSpace : Z) :
  GDALDataTypeIsComplex eSrcType = false ->
  CMulPixelFunc papoSources 2 pData nXSize nYSize eSrcType eBufType
                nPixelSpace nLineSpace
  = (CE_None,
     write_tile eBufType nPixelSpace nLineSpace nYSize nXSize
       (fun row col =>
          ((SRCVAL papoSources.[0] eSrcType (row * nXSize + col)
            * SRCVAL papoSources.[1] eSrcType (row * nXSize + col))%float, 0%float))
       pData).
Proof.
  intros Hs. unfold CMulPixelFunc. cbn [Z.eqb Pos.eqb negb]. rewrite Hs.
  tile_write. reflexivity.
Qed.

Lemma CMulPixelFunc_complex (papoSources : list Ptr) (pData : Buffer)
    (nXSize nYSize : Z) (eSrcType eBufType : GDALDataType) (nPixelSpace nLineSpace : Z) :
  GDALDataTypeIsComplex eSrcType = true ->
  CMulPixelFunc papoSources 2 pData nXSize nYSize eSrcType eBufType
                nPixelSpace nLineSpace
  = (CE_None,
     write_tile eBufType nPixelSpace nLineSpace nYSize nXSize
       (fun row col =>
          let nOffset := GDALGetDataTypeSize eSrcType ÷ 8 ÷ 2 in
          let dfReal0 := SRCVAL papoSources.[0] eSrcType (row * nXSize + col) in
          let dfReal1 := SRCVAL papoSources.[1] eSrcType (row * nXSize + col) in
          let dfImag0 :=
            SRCVAL (ptr_add papoSources.[0] nOffset) eSrcType (row * nXSize + col) in
          let dfImag1 :=
            SRCVAL (ptr_add papoSources.[1] nOffset) eSrcType (row * nXSize + col) in
          ((dfReal0 * dfReal1 + dfImag0 * dfImag1)%float,
           (dfReal1 * dfImag0 - dfReal0 * dfImag1)%float))
       pData).
Proof.
  intros Hs. unfold CMulPixelFunc. cbn [Z.eqb Pos.eqb negb]. rewrite Hs.
  tile_write. reflexivity.
Qed.

Lemma PowPixelFuncHelper_real (papoSources : list Ptr) (pData : Buffer)
    (nXSize nYSize : Z) (eSrcType eBufType : GDALDataType) (nPixelSpace nLineSpace : Z)
    (base fact : double) :
  GDALDataTypeIsComplex eSrcType = false ->
  PowPixelFuncHelper papoSources 1 pData nXSize nYSize eSrcType eBufType
                     nPixelSpace nLineSpace base fact
  = (CE_None,
     write_tile eBufType nPixelSpace nLineSpace nYSize nXSize
       (fun row col =>
          (pow base (SRCVAL papoSources.[0] eSrcType (row * nXSize + col) / fact),
           0%float))
       pData).
Proof.
  intros Hs. unfold PowPixelFuncHelper. cbn [Z.eqb Pos.eqb negb]. rewrite Hs.
  tile_write. reflexivity.
Qed.

Lemma MulPixelFunc_real (papoSources : list Ptr) (nSources : Z) (pData : Buffer)
    (nXSize nYSize : Z) (eSrcType eBufType : GDALDataType) (nPixelSpace nLineSpace : Z) :
  nSources = Z.of_nat (List.length papoSources) ->
  2 <= nSources ->
  GDALDataTypeIsComplex eSrcType = false ->
  MulPixelFunc papoSources nSources pData nXSize nYSize eSrcType eBufType
               nPixelSpace nLineSpace
  = (CE_None,
     write_tile eBufType nPixelSpace nLineSpace nYSize nXSize
       (fun row col =>
          (fold_left (fun dfPixVal p =>
                        (dfPixVal * SRCVAL p eSrcType (row * nXSize + col))%float)
                     papoSources 1%float,
           0%float))
       pData).
Proof.
  intros Hn H2 Hs. unfold MulPixelFunc.
  destruct (Z.ltb_spec nSources 2) as [?|_]; [lia|]. rewrite Hs.
  tile_write. cbn [read_word]. do 2 f_equal.
  exact (for_sources_fold
           (fun dfPixVal p => (dfPixVal * SRCVAL p eSrcType (_ * nXSize + _))%float)
           papoSources nSources 1%float Hn).
Qed.

Lemma MulPixelFunc_complex (papoSources : list Ptr) (nSources : Z) (pData : Buffer)
    (nXSize nYSize : Z) (eSrcType eBufType : GDALDataType) (nPixelSpace nLineSpace : Z) :
  nSources = Z.of_nat (List.length papoSources) ->
  2 <= nSources ->
  GDALDataTypeIsComplex eSrcType = true ->
  MulPixelFunc papoSources nSources pData nXSize nYSize eSrcType eBufType
               nPixelSpace nLineSpace
  = (CE_None,
     write_tile eBufType nPixelSpace nLineSpace nYSize nXSize
       (fun row col =>
          fold_left
            (fun (z : double * double) p =>
               let dfNewR := SRCVAL p eSrcType (row * nXSize + col) in
               let dfNewI :=
                 SRCVAL (ptr_add p (GDALGetDataTypeSize eSrcType ÷ 8 ÷ 2)) eSrcType
                        (row * nXSize + col) in
               (fst z * dfNewR - snd z * dfNewI, fst z * dfNewI + snd z * dfNewR)%float)
            papoSources (1, 0)%float)
       pData).
Proof.
  intros Hn H2 Hs. unfold MulPixelFunc.
  destruct (Z.ltb_spec nSources 2) as [?|_]; [lia|]. rewrite Hs.
  tile_write. cbn [read_word]. f_equal.
  rewrite <- surjective_pairing.
  exact (for_sources_fold
           (fun (z : double * double) p =>
              (fst z * SRCVAL p eSrcType (_ * nXSize + _)
               - snd z * SRCVAL (ptr_add p (GDALGetDataTypeSize eSrcType ÷ 8 ÷ 2))
                                eSrcType (_ * nXSize + _),
               fst z * SRCVAL (ptr_add p (GDALGetDataTypeSize eSrcType ÷ 8 ÷ 2))
                              eSrcType (_ * nXSize + _)
               + snd z * SRCVAL p eSrcType (_ * nXSize + _))%float)
           papoSources nSources (1, 0)%float Hn).
Qed.

(** X20.  sum of complex sources adds part by part: the real part written
    is the sum of the real parts, which is what sum computes for real
    sources, and the imaginary part written is the sum of the imaginary
    parts. *)
Theorem SumPixelFunc_complex_adds_part_by_part
    (papoSources : list Ptr) (nSources : Z) (pData : Buffer)
    (nXSize nYSize : Z) (eSrcType eBufType : GDALDataType) (nPixelSpace nLineSpace : Z) :
  nSources = Z.of_nat (List.length papoSources) ->
  2 <= nSources ->
  GDALDataTypeIsComplex eSrcType = true ->
  SumPixelFunc papoSources nSources pData nXSize nYSize eSrcType eBufType
               nPixelSpace nLineSpace
  = (CE_None,
     write_tile eBufType nPixelSpace nLineSpace nYSize nXSize
       (fun row col =>
          (fold_left (fun dfSum p => (dfSum + SRCVAL p eSrcType (row * nXSize + col))%float)
                     papoSources 0%float,
           fold_left (fun dfSum p =>
                        (dfSum
                         + SRCVAL (ptr_add p (GDALGetDataTypeSize eSrcType ÷ 8 ÷ 2))
                                  eSrcType (row * nXSize + col))%float)
                     papoSources 0%float))
       pData).
Proof.
  intros Hn H2 Hs. unfold SumPixelFunc.
  destruct (Z.ltb_spec nSources 2) as [?|_]; [lia|]. rewrite Hs.
  tile_write. cbn [read_word]. f_equal.
  rewrite <- surjective_pairing.
  rewrite (for_sources_fold
             (fun (adfSum : double * double) p =>
                (fst adfSum + SRCVAL p eSrcType (_ * nXSize + _),
                 snd adfSum
                 + SRCVAL (ptr_add p (GDALGetDataTypeSize eSrcType ÷ 8 ÷ 2))
                          eSrcType (_ * nXSize + _))%float)
             papoSources nSources (0, 0)%float Hn).
  apply (fold_left_pair
           (fun dfSum p => (dfSum + SRCVAL p eSrcType _)%float)
           (fun dfSum p => (dfSum + SRCVAL (ptr_add p _) eSrcType _)%float)).
Qed.

End Arithmetic.
(** X11.  sqrt of a real source writes the square root of each sample and
    succeeds whatever the samples are: the square root written for a sample
    below zero is not-a-number, and no square root written is below zero. *)
Theorem SqrtPixelFunc_writes_the_square_root {codec : Codec}
    (papoSources : list Ptr) (pData : Buffer) (nXSize nYSize : Z)
    (eSrcType eBufType : GDALDataType) (nPixelSpace nLineSpace : Z) :
  GDALDataTypeIsComplex eSrcType = false ->
  SqrtPixelFunc papoSources 1 pData nXSize nYSize eSrcType eBufType
                nPixelSpace nLineSpace
  = (CE_None,
     write_tile eBufType nPixelSpace nLineSpace nYSize nXSize
       (fun row col =>
          (C.sqrt (SRCVAL papoSources.[0] eSrcType (row * nXSize + col)), 0%float))
       pData)
  /\ (forall x : double, (x <? 0)%float = true -> C.sqrt x = nan)
  /\ (forall x : double, (C.sqrt x <? 0)%float = false).
Proof.
  intros Hs. split; [now apply SqrtPixelFunc_real|].
  split; [exact sqrt_of_negative | exact sqrt_not_negative].
Qed.

(** The sample -4. *)
Lemma SqrtPixelFunc_writes_the_square_root_witness :
  SqrtPixelFunc (codec := Host.codec) [Host.packed c_double [-4]%float] 1 sentinel
                1 1 GDT_Float64 GDT_Float64 8 8
  = (CE_None,
     write_tile (codec := Host.codec) GDT_Float64 8 8 1 1
       (fun row col =>
          (C.sqrt (SRCVAL (codec := Host.codec) [Host.packed c_double [-4]%float].[0]
                          GDT_Float64 (row * 1 + col)), 0%float))
       sentinel)
  /\ (forall x : double, (x <? 0)%float = true -> C.sqrt x = nan)
  /\ (forall x : double, (C.sqrt x <? 0)%float = false).
Proof.
  apply (@SqrtPixelFunc_writes_the_square_root Host.codec).
  reflexivity.
Defined.

(** X12.  UVToMagnitude writes [sqrt (u * u + v * v)] for the samples [u]
    and [v] of its two sources.  The number is never below zero, and the
    two sources can be exchanged. *)
Theorem UVToMagnitude_writes_the_magnitude {codec : Codec}
    (pU pV : Ptr) (pData : Buffer) (nXSize nYSize : Z)
    (eSrcType eBufType : GDALDataType) (nPixelSpace nLineSpace : Z) :
  UVToMagnitude [pU; pV] 2 pData nXSize nYSize eSrcType eBufType
                nPixelSpace nLineSpace
  = (CE_None,
     write_tile eBufType nPixelSpace nLineSpace nYSize nXSize
       (fun row col =>
          let u := SRCVAL pU eSrcType (row * nXSize + col) in
          let v := SRCVAL pV eSrcType (row * nXSize + col) in
          (C.sqrt (u * u + v * v), 0%float))
       pData)
  /\ (forall u v : double, (C.sqrt (u * u + v * v) <? 0)%float = false)
  /\ UVToMagnitude [pV; pU] 2 pData nXSize nYSize eSrcType eBufType
                   nPixelSpace nLineSpace
     = UVToMagnitude [pU; pV] 2 pData nXSize nYSize eSrcType eBufType
                     nPixelSpace nLineSpace.
Proof.
  split; [exact (UVToMagnitude_writes [pU; pV] _ _ _ _ _ _ _)|].
  split; [intros u v; apply sqrt_not_negative|].
  rewrite !UVToMagnitude_writes. f_equal. apply write_tile_ext.
  intros row col d ofs. cbv zeta.
  change ([pV; pU].[0]) with pV. change ([pV; pU].[1]) with pU.
  change ([pU; pV].[0]) with pU. change ([pU; pV].[1]) with pV.
  now rewrite add_commutative.
Qed.

(** X13.  UVToDirectionFrom writes [atan2 (u, v) * 180 / PI + 180].  It
    is UVToDirectionTo of the reversed vector when reversing negates the
    [double] samples, the sign of a zero included: on sources whose samples
    in the tile are the negations of the samples of [u] and [v],
    UVToDirectionTo leaves what UVToDirectionFrom leaves on [u] and [v].
    A source of an integer type holds no negative zero, and for a zero
    sample the two differ: on the host, with 16-bit integers,
    UVToDirectionFrom of (0, -1) is above 360 and UVToDirectionTo of (0, 1)
    is below 0. *)
Theorem UVToDirectionFrom_is_UVToDirectionTo_reversed {codec : Codec} {libm : LibM}
    (pU pV : Ptr) (pData : Buffer) (nXSize nYSize : Z)
    (eSrcType eBufType : GDALDataType) (nPixelSpace nLineSpace : Z) :
  UVToDirectionFrom [pU; pV] 2 pData nXSize nYSize eSrcType eBufType
                    nPixelSpace nLineSpace
  = (CE_None,
     write_tile eBufType nPixelSpace nLineSpace nYSize nXSize
       (fun row col =>
          let u := SRCVAL pU eSrcType (row * nXSize + col) in
          let v := SRCVAL pV eSrcType (row * nXSize + col) in
          ((atan2 u v * 180 / PI + 180)%float, 0%float))
       pData)
  /\ (forall pU' pV' : Ptr,
        (forall row col, 0 <= row < nYSize -> 0 <= col < nXSize ->
            SRCVAL pU' eSrcType (row * nXSize + col)
            = (- SRCVAL pU eSrcType (row * nXSize + col))%float
            /\ SRCVAL pV' eSrcType (row * nXSize + col)
               = (- SRCVAL pV eSrcType (row * nXSize + col))%float) ->
        UVToDirectionTo [pU'; pV'] 2 pData nXSize nYSize eSrcType eBufType
                        nPixelSpace nLineSpace
        = UVToDirectionFrom [pU; pV] 2 pData nXSize nYSize eSrcType eBufType
                            nPixelSpace nLineSpace)
  /\ (let from :=
        fst (load_word (codec := Host.codec) GDT_Float64
               (snd (UVToDirectionFrom (codec := Host.codec) (libm := AnnexF.libm)
                       [Host.packed GInt16 [0]%float; Host.packed GInt16 [-1]%float]
                       2 sentinel 1 1 GDT_Int16 GDT_Float64 8 8)) 0) in
      let to :=
        fst (load_word (codec := Host.codec) GDT_Float64
               (snd (UVToDirectionTo (codec := Host.codec) (libm := AnnexF.libm)
                       [Host.packed GInt16 [0]%float; Host.packed GInt16 [1]%float]
                       2 sentinel 1 1 GDT_Int16 GDT_Float64 8 8)) 0) in
      (360 <? from)%float = true /\ (to <? 0)%float = true).
Proof.
  split; [exact (UVToDirectionFrom_writes [pU; pV] _ _ _ _ _ _ _)|]. split.
  - intros pU' pV' H.
    rewrite UVToDirectionTo_writes, UVToDirectionFrom_writes. f_equal.
    unfold write_tile. apply fold_left_ext_in. intros d [row col] Hin.
    apply in_tile in Hin. destruct Hin as [Hr Hc]. cbn [fst snd]. cbv zeta.
    change ([pU'; pV'].[0]) with pU'. change ([pU'; pV'].[1]) with pV'.
    change ([pU; pV].[0]) with pU. change ([pU; pV].[1]) with pV.
    destruct (H row col Hr Hc) as [-> ->]. now rewrite !opp_involutive.
  - split; vm_compute; reflexivity.
Qed.

(** The vector (1, 2) and the reversed vector (-1, -2). *)
Lemma UVToDirectionFrom_is_UVToDirectionTo_reversed_witness :
  UVToDirectionTo (codec := Host.codec) (libm := AnnexF.libm)
    [Host.packed c_double [-1]%float; Host.packed c_double [-2]%float] 2 sentinel
    1 1 GDT_Float64 GDT_Float64 8 8
  = UVToDirectionFrom (codec := Host.codec) (libm := AnnexF.libm)
      [Host.packed c_double [1]%float; Host.packed c_double [2]%float] 2 sentinel
      1 1 GDT_Float64 GDT_Float64 8 8.
Proof.
  refine (proj1 (proj2 (@UVToDirectionFrom_is_UVToDirectionTo_reversed
                          Host.codec AnnexF.libm
                          (Host.packed c_double [1]%float)
                          (Host.packed c_double [2]%float) sentinel 1 1
                          GDT_Float64 GDT_Float64 8 8))
            (Host.packed c_double [-1]%float) (Host.packed c_double [-2]%float) _).
  intros row col Hr Hc.
  assert (row = 0) as -> by lia. assert (col = 0) as -> by lia.
  split; vm_compute; reflexivity.
Defined.

(** X14.  On a complex source, intensity writes the squared magnitude
    [re * re + im * im] of each sample, mod writes its square root and
    log10 writes its logarithm; the squared magnitude and the magnitude are
    never below zero. *)
Theorem IntensityPixelFunc_complex_squared_magnitude {codec : Codec} {libm : LibM}
    (papoSources : list Ptr) (pData : Buffer) (nXSize nYSize : Z)
    (eSrcType eBufType : GDALDataType) (nPixelSpace nLineSpace : Z) :
  GDALDataTypeIsComplex eSrcType = true ->
  let intensity row col :=
    let dfReal := SRCVAL papoSources.[0] eSrcType (row * nXSize + col) in
    let dfImag :=
      SRCVAL (ptr_add papoSources.[0] (GDALGetDataTypeSize eSrcType ÷ 8 ÷ 2))
             eSrcType (row * nXSize + col) in
    (dfReal * dfReal + dfImag * dfImag)%float in
  IntensityPixelFunc papoSources 1 pData nXSize nYSize eSrcType eBufType
                     nPixelSpace nLineSpace
  = (CE_None,
     write_tile eBufType nPixelSpace nLineSpace nYSize nXSize
       (fun row col => (intensity row col, 0%float)) pData)
  /\ ModulePixelFunc papoSources 1 pData nXSize nYSize eSrcType eBufType
                     nPixelSpace nLineSpace
     = (CE_None,
        write_tile eBufType nPixelSpace nLineSpace nYSize nXSize
          (fun row col => (C.sqrt (intensity row col), 0%float)) pData)
  /\ Log10PixelFunc papoSources 1 pData nXSize nYSize eSrcType eBufType
                    nPixelSpace nLineSpace
     = (CE_None,
        write_tile eBufType nPixelSpace nLineSpace nYSize nXSize
          (fun row col => (log10 (intensity row col), 0%float)) pData)
  /\ (forall row col,
         (intensity row col <? 0)%float = false
         /\ (C.sqrt (intensity row col) <? 0)%float = false).
Proof.
  intros Hs intensity. subst intensity. cbv beta zeta.
  split; [now apply IntensityPixelFunc_complex|].
  split; [now rewrite ModulePixelFunc_complex|].
  split; [now rewrite Log10PixelFunc_complex|].
  intros row col. split; [apply intensity_not_negative | apply sqrt_not_negative].
Qed.

(** The sample 3 + 4i: the squared magnitude is 25. *)
Lemma IntensityPixelFunc_complex_squared_magnitude_witness :
  IntensityPixelFunc (codec := Host.codec) [Host.packed c_double [3; 4]%float] 1
                     sentinel 1 1 GDT_CFloat64 GDT_Float64 8 8
  = (CE_None,
     write_tile (codec := Host.codec) GDT_Float64 8 8 1 1
       (fun row col =>
          ((SRCVAL (codec := Host.codec) [Host.packed c_double [3; 4]%float].[0]
                   GDT_CFloat64 (row * 1 + col)
            * SRCVAL (codec := Host.codec) [Host.packed c_double [3; 4]%float].[0]
                     GDT_CFloat64 (row * 1 + col)
            + SRCVAL (codec := Host.codec)
                     (ptr_add [Host.packed c_double [3; 4]%float].[0]
                              (GDALGetDataTypeSize GDT_CFloat64 ÷ 8 ÷ 2))
                     GDT_CFloat64 (row * 1 + col)
              * SRCVAL (codec := Host.codec)
                       (ptr_add [Host.packed c_double [3; 4]%float].[0]
                                (GDALGetDataTypeSize GDT_CFloat64 ÷ 8 ÷ 2))
                       GDT_CFloat64 (row * 1 + col))%float,
           0%float))
       sentinel).
Proof.
  apply (proj1 (@IntensityPixelFunc_complex_squared_magnitude Host.codec AnnexF.libm
                  [Host.packed c_double [3; 4]%float] sentinel 1 1
                  GDT_CFloat64 GDT_Float64 8 8 eq_refl)).
Defined.

(** X15.  On a real source, intensity writes the square of each sample,
    which is never below zero. *)
Theorem IntensityPixelFunc_real_square {codec : Codec}
    (papoSources : list Ptr) (pData : Buffer) (nXSize nYSize : Z)
    (eSrcType eBufType : GDALDataType) (nPixelSpace nLineSpace : Z) :
  GDALDataTypeIsComplex eSrcType = false ->
  IntensityPixelFunc papoSources 1 pData nXSize nYSize eSrcType eBufType
                     nPixelSpace nLineSpace
  = (CE_None,
     write_tile eBufType nPixelSpace nLineSpace nYSize nXSize
       (fun row col =>
          let dfPixVal := SRCVAL papoSources.[0] eSrcType (row * nXSize + col) in
          ((dfPixVal * dfPixVal)%float, 0%float))
       pData)
  /\ (forall x : double, (x * x <? 0)%float = false).
Proof.
  intros Hs. split; [now apply IntensityPixelFunc_real | exact square_not_negative].
Qed.

Lemma IntensityPixelFunc_real_square_witness :
  IntensityPixelFunc (codec := Host.codec) [Host.packed GInt16 [-3]%float] 1
                     sentinel 1 1 GDT_Int16 GDT_Float64 8 8
  = (CE_None,
     write_tile (codec := Host.codec) GDT_Float64 8 8 1 1
       (fun row col =>
          let dfPixVal :=
            SRCVAL (codec := Host.codec) [Host.packed GInt16 [-3]%float].[0]
                   GDT_Int16 (row * 1 + col) in
          ((dfPixVal * dfPixVal)%float, 0%float))
       sentinel)
  /\ (forall x : double, (x * x <? 0)%float = false).
Proof.
  apply (@IntensityPixelFunc_real_square Host.codec).
  reflexivity.
Defined.

(** X16.  inv of a complex source writes
    [(re / (re * re + im * im), - im / (re * re + im * im))] and checks no
    division: for a sample whose two parts are zero both parts written are
    not-a-number, and the call returns [CE_None]. *)
Theorem InvPixelFunc_complex_reciprocal {codec : Codec}
    (papoSources : list Ptr) (pData : Buffer) (nXSize nYSize : Z)
    (eSrcType eBufType : GDALDataType) (nPixelSpace nLineSpace : Z) :
  GDALDataTypeIsComplex eSrcType = true ->
  InvPixelFunc papoSources 1 pData nXSize nYSize eSrcType eBufType
               nPixelSpace nLineSpace
  = (CE_None,
     write_tile eBufType nPixelSpace nLineSpace nYSize nXSize
       (fun row col =>
          let dfReal := SRCVAL papoSources.[0] eSrcType (row * nXSize + col) in
          let dfImag :=
            SRCVAL (ptr_add papoSources.[0] (GDALGetDataTypeSize eSrcType ÷ 8 ÷ 2))
                   eSrcType (row * nXSize + col) in
          let dfAux := (dfReal * dfReal + dfImag * dfImag)%float in
          ((dfReal / dfAux)%float, (- dfImag / dfAux)%float))
       pData)
  /\ (forall re im : double,
         (re =? 0)%float = true -> (im =? 0)%float = true ->
         (re / (re * re + im * im))%float = nan
         /\ (- im / (re * re + im * im))%float = nan).
Proof.
  intros Hs. split; [now apply InvPixelFunc_complex|].
  intros re im Hre Him.
  apply eqb_0_inv in Hre, Him.
  destruct Hre as [-> | ->], Him as [-> | ->]; split; reflexivity.
Qed.

(** The sample 0 + 0i. *)
Lemma InvPixelFunc_complex_reciprocal_witness :
  (0 / (0 * 0 + 0 * 0))%float = nan /\ (- 0 / (0 * 0 + 0 * 0))%float = nan.
Proof.
  apply (proj2 (@InvPixelFunc_complex_reciprocal Host.codec
                  [Host.packed c_double [0; 0]%float] sentinel 1 1
                  GDT_CFloat64 GDT_CFloat64 16 16 eq_refl) 0%float 0%float);
    reflexivity.
Defined.

(** X17.  diff writes the first source minus the second: sample by sample
    on a real source, and part by part on a complex one. *)
Theorem DiffPixelFunc_writes_the_difference {codec : Codec}
    (papoSources : list Ptr) (pData : Buffer) (nXSize nYSize : Z)
    (eSrcType eBufType : GDALDataType) (nPixelSpace nLineSpace : Z) :
  DiffPixelFunc papoSources 2 pData nXSize nYSize eSrcType eBufType
                nPixelSpace nLineSpace
  = (CE_None,
     write_tile eBufType nPixelSpace nLineSpace nYSize nXSize
       (fun row col =>
          let nOffset := GDALGetDataTypeSize eSrcType ÷ 8 ÷ 2 in
          ((SRCVAL papoSources.[0] eSrcType (row * nXSize + col)
            - SRCVAL papoSources.[1] eSrcType (row * nXSize + col))%float,
           if GDALDataTypeIsComplex eSrcType
           then (SRCVAL (ptr_add papoSources.[0] nOffset) eSrcType (row * nXSize + col)
                 - SRCVAL (ptr_add papoSources.[1] nOffset) eSrcType
                          (row * nXSize + col))%float
           else 0%float))
       pData).
Proof.
  destruct (GDALDataTypeIsComplex eSrcType) eqn:Hs.
  - now apply DiffPixelFunc_complex.
  - now apply DiffPixelFunc_real.
Qed.

(** X18.  cmul writes the first source times the complex conjugate of the
    second: [(re0 * re1 + im0 * im1, re1 * im0 - re0 * im1)] on a complex
    source, and the product of the two samples, with a zero imaginary part,
    on a real one. *)
Theorem CMulPixelFunc_multiplies_by_the_conjugate {codec : Codec}
    (papoSources : list Ptr) (pData : Buffer) (nXSize nYSize : Z)
    (eSrcType eBufType : GDALDataType) (nPixelSpace nLineSpace : Z) :
  CMulPixelFunc papoSources 2 pData nXSize nYSize eSrcType eBufType
                nPixelSpace nLineSpace
  = (CE_None,
     write_tile eBufType nPixelSpace nLineSpace nYSize nXSize
       (fun row col =>
          let nOffset := GDALGetDataTypeSize eSrcType ÷ 8 ÷ 2 in
          let dfReal0 := SRCVAL papoSources.[0] eSrcType (row * nXSize + col) in
          let dfReal1 := SRCVAL papoSources.[1] eSrcType (row * nXSize + col) in
          let dfImag0 :=
            SRCVAL (ptr_add papoSources.[0] nOffset) eSrcType (row * nXSize + col) in
          let dfImag1 :=
            SRCVAL (ptr_add papoSources.[1] nOffset) eSrcType (row * nXSize + col) in
          if GDALDataTypeIsComplex eSrcType
          then ((dfReal0 * dfReal1 + dfImag0 * dfImag1)%float,
                (dfReal1 * dfImag0 - dfReal0 * dfImag1)%float)
          else ((dfReal0 * dfReal1)%float, 0%float))
       pData).
Proof.
  destruct (GDALDataTypeIsComplex eSrcType) eqn:Hs.
  - now apply CMulPixelFunc_complex.
  - now apply CMulPixelFunc_real.
Qed.

(** X19.  mul of the sources [papoSources] writes their product, taken
    from left to right: on a real source the product that starts from 1,
    and on a complex one the complex product that starts from 1 + 0i. *)
Theorem MulPixelFunc_multiplies_the_sources {codec : Codec}
    (papoSources : list Ptr) (nSources : Z) (pData : Buffer) (nXSize nYSize : Z)
    (eSrcType eBufType : GDALDataType) (nPixelSpace nLineSpace : Z) :
  nSources = Z.of_nat (List.length papoSources) ->
  2 <= nSources ->
  MulPixelFunc papoSources nSources pData nXSize nYSize eSrcType eBufType
               nPixelSpace nLineSpace
  = (CE_None,
     write_tile eBufType nPixelSpace nLineSpace nYSize nXSize
       (fun row col =>
          if GDALDataTypeIsComplex eSrcType
          then
            fold_left
              (fun (z : double * double) p =>
                 let dfNewR := SRCVAL p eSrcType (row * nXSize + col) in
                 let dfNewI :=
                   SRCVAL (ptr_add p (GDALGetDataTypeSize eSrcType ÷ 8 ÷ 2)) eSrcType
                          (row * nXSize + col) in
                 (fst z * dfNewR - snd z * dfNewI,
                  fst z * dfNewI + snd z * dfNewR)%float)
              papoSources (1, 0)%float
          else
            (fold_left (fun dfPixVal p =>
                          (dfPixVal * SRCVAL p eSrcType (row * nXSize + col))%float)
                       papoSources 1%float,
             0%float))
       pData).
Proof.
  intros Hn H2. destruct (GDALDataTypeIsComplex eSrcType) eqn:Hs.
  - now apply MulPixelFunc_complex.
  - now apply MulPixelFunc_real.
Qed.

(** Three sources of 64-bit floats: 2, 3 and 4. *)
Lemma MulPixelFunc_multiplies_the_sources_witness :
  MulPixelFunc (codec := Host.codec)
    [Host.packed c_double [2]%float; Host.packed c_double [3]%float;
     Host.packed c_double [4]%float] 3 sentinel 1 1 GDT_Float64 GDT_Float64 8 8
  = (CE_None,
     write_tile (codec := Host.codec) GDT_Float64 8 8 1 1
       (fun row col =>
          if GDALDataTypeIsComplex GDT_Float64
          then
            fold_left
              (fun (z : double * double) p =>
                 let dfNewR := SRCVAL (codec := Host.codec) p GDT_Float64 (row * 1 + col) in
                 let dfNewI :=
                   SRCVAL (codec := Host.codec)
                          (ptr_add p (GDALGetDataTypeSize GDT_Float64 ÷ 8 ÷ 2))
                          GDT_Float64 (row * 1 + col) in
                 (fst z * dfNewR - snd z * dfNewI,
                  fst z * dfNewI + snd z * dfNewR)%float)
              [Host.packed c_double [2]%float; Host.packed c_double [3]%float;
               Host.packed c_double [4]%float] (1, 0)%float
          else
            (fold_left (fun dfPixVal p =>
                          (dfPixVal
                           * SRCVAL (codec := Host.codec) p GDT_Float64
                                    (row * 1 + col))%float)
                       [Host.packed c_double [2]%float; Host.packed c_double [3]%float;
                        Host.packed c_double [4]%float] 1%float,
             0%float))
       sentinel).
Proof.
  apply (@MulPixelFunc_multiplies_the_sources Host.codec).
  - reflexivity.
  - lia.
Defined.

(** The samples 1 + 2i and 3 + 4i. *)
Lemma SumPixelFunc_complex_adds_part_by_part_witness :
  SumPixelFunc (codec := Host.codec)
    [Host.packed c_double [1; 2]%float; Host.packed c_double [3; 4]%float] 2
    sentinel 1 1 GDT_CFloat64 GDT_CFloat64 16 16
  = (CE_None,
     write_tile (codec := Host.codec) GDT_CFloat64 16 16 1 1
       (fun row col =>
          (fold_left (fun dfSum p =>
                        (dfSum + SRCVAL (codec := Host.codec) p GDT_CFloat64
                                        (row * 1 + col))%float)
                     [Host.packed c_double [1; 2]%float;
                      Host.packed c_double [3; 4]%float] 0%float,
           fold_left (fun dfSum p =>
                        (dfSum
                         + SRCVAL (codec := Host.codec)
                                  (ptr_add p (GDALGetDataTypeSize GDT_CFloat64 ÷ 8 ÷ 2))
                                  GDT_CFloat64 (row * 1 + col))%float)
                     [Host.packed c_double [1; 2]%float;
                      Host.packed c_double [3; 4]%float] 0%float))
       sentinel).
Proof.
  apply (@SumPixelFunc_complex_adds_part_by_part Host.codec).
  - reflexivity.
  - lia.
  - reflexivity.
Defined.

(** X21.  dB2amp writes [pow (10, x / 20)] and dB2pow writes
    [pow (10, x / 10)] for each sample [x] of a real source. *)
Theorem dB2AmpPixelFunc_dB2PowPixelFunc_write_powers_of_ten
    {codec : Codec} {libm : LibM}
    (papoSources : list Ptr) (pData : Buffer) (nXSize nYSize : Z)
    (eSrcType eBufType : GDALDataType) (nPixelSpace nLineSpace : Z) :
  GDALDataTypeIsComplex eSrcType = false ->
  dB2AmpPixelFunc papoSources 1 pData nXSize nYSize eSrcType eBufType
                  nPixelSpace nLineSpace
  = (CE_None,
     write_tile eBufType nPixelSpace nLineSpace nYSize nXSize
       (fun row col =>
          (pow 10 (SRCVAL papoSources.[0] eSrcType (row * nXSize + col) / 20), 0%float))
       pData)
  /\ dB2PowPixelFunc papoSources 1 pData nXSize nYSize eSrcType eBufType
                     nPixelSpace nLineSpace
     = (CE_None,
        write_tile eBufType nPixelSpace nLineSpace nYSize nXSize
          (fun row col =>
             (pow 10 (SRCVAL papoSources.[0] eSrcType (row * nXSize + col) / 10),
              0%float))
          pData).
Proof.
  intros Hs. unfold dB2AmpPixelFunc, dB2PowPixelFunc.
  split; now apply PowPixelFuncHelper_real.
Qed.

(** The sample 0 dB. *)
Lemma dB2AmpPixelFunc_dB2PowPixelFunc_write_powers_of_ten_witness :
  dB2AmpPixelFunc (codec := Host.codec) (libm := AnnexF.libm)
    [Host.packed c_double [0]%float] 1 sentinel 1 1 GDT_Float64 GDT_Float64 8 8
  = (CE_None,
     write_tile (codec := Host.codec) GDT_Float64 8 8 1 1
       (fun row col =>
          (pow (LibM := AnnexF.libm) 10
               (SRCVAL (codec := Host.codec) [Host.packed c_double [0]%float].[0]
                       GDT_Float64 (row * 1 + col) / 20), 0%float))
       sentinel).
Proof.
  apply (proj1 (@dB2AmpPixelFunc_dB2PowPixelFunc_write_powers_of_ten
                  Host.codec AnnexF.libm
                  [Host.packed c_double [0]%float] sentinel 1 1
                  GDT_Float64 GDT_Float64 8 8 eq_refl)).
Defined.

(** ** Relations between the functions *)

(** The square of the opposite is the square. *)
Lemma square_opp (x : double) : (- x * - x)%float = (x * x)%float.
Proof.
  apply Prim2SF_inj. rewrite !mul_spec, !opp_spec. unfold SF64mul, SFmul.
  destruct (Prim2SF x) as [s|s| |s m e]; cbn [SFopp]; try (destruct s; reflexivity);
    reflexivity.
Qed.

(** Numbers that compare equal are the same [double] or two zeros. *)
Lemma eqb_true_inv (x y : double) :
  (x =? y)%float = true ->
  x = y \/ ((x =? 0)%float = true /\ (y =? 0)%float = true).
Proof.
  rewrite !eqb_spec. change (Prim2SF 0) with (S754_zero false).
  intros H.
  assert (E : Prim2SF x = Prim2SF y
              \/ (SFeqb (Prim2SF x) (S754_zero false) = true
                  /\ SFeqb (Prim2SF y) (S754_zero false) = true)).
  { unfold SFeqb, SFcompare in *.
    destruct (Prim2SF x) as [sx|sx| |sx mx ex], (Prim2SF y) as [sy|sy| |sy my ey];
      try discriminate H; try (destruct sx; discriminate H);
      try (destruct sy; discriminate H).
    - right. split; reflexivity.
    - left. destruct sx, sy; try discriminate H; reflexivity.
    - left. change (PosDef.Pos.compare_cont Eq mx my) with (Pos.compare mx my) in H.
      destruct sx, sy; try discriminate H;
        destruct (Z.compare_spec ex ey) as [->| |]; try discriminate H;
        destruct (Pos.compare_spec mx my) as [->| |];
        try discriminate H; reflexivity. }
  destruct E as [E | E]; [left; now apply Prim2SF_inj | now right].
Qed.

(** The same number has the same square. *)
Lemma same_number_square (x y : double) :
  same_number x y -> (x * x)%float = (y * y)%float.
Proof.
  intros [-> | H]; [reflexivity|].
  destruct (eqb_true_inv x y H) as [-> | [Hx Hy]]; [reflexivity|].
  apply eqb_0_inv in Hx, Hy.
  destruct Hx as [-> | ->], Hy as [-> | ->]; reflexivity.
Qed.

(** X24.  intensity, mod and log10 of a complex source do not see
    conjugation: on a source whose samples in the tile are the conjugates
    of the samples of another (the real part the same number, the imaginary
    part the same number as the negated one, a zero of either sign being
    the same number), each of them leaves what it leaves on the other.
    So an integer sample with a zero imaginary part is its own
    conjugate. *)
Theorem IntensityPixelFunc_of_the_conjugate {codec : Codec} {libm : LibM}
    (p q : Ptr) (pData : Buffer) (nXSize nYSize : Z)
    (eSrcType eBufType : GDALDataType) (nPixelSpace nLineSpace : Z) :
  GDALDataTypeIsComplex eSrcType = true ->
  (forall row col, 0 <= row < nYSize -> 0 <= col < nXSize ->
      same_number (SRCVAL q eSrcType (row * nXSize + col))
                  (SRCVAL p eSrcType (row * nXSize + col))
      /\ same_number
           (SRCVAL (ptr_add q (GDALGetDataTypeSize eSrcType ÷ 8 ÷ 2)) eSrcType
                   (row * nXSize + col))
           (- SRCVAL (ptr_add p (GDALGetDataTypeSize eSrcType ÷ 8 ÷ 2)) eSrcType
                     (row * nXSize + col))%float) ->
  IntensityPixelFunc [q] 1 pData nXSize nYSize eSrcType eBufType nPixelSpace nLineSpace
  = IntensityPixelFunc [p] 1 pData nXSize nYSize eSrcType eBufType
                       nPixelSpace nLineSpace
  /\ ModulePixelFunc [q] 1 pData nXSize nYSize eSrcType eBufType nPixelSpace nLineSpace
     = ModulePixelFunc [p] 1 pData nXSize nYSize eSrcType eBufType
                       nPixelSpace nLineSpace
  /\ Log10PixelFunc [q] 1 pData nXSize nYSize eSrcType eBufType nPixelSpace nLineSpace
     = Log10PixelFunc [p] 1 pData nXSize nYSize eSrcType eBufType
                      nPixelSpace nLineSpace.
Proof.
  intros Hs H.
  rewrite !IntensityPixelFunc_complex, !ModulePixelFunc_complex,
    !Log10PixelFunc_complex by exact Hs.
  change ([q].[0]) with q. change ([p].[0]) with p.
  repeat split; f_equal; unfold write_tile; apply fold_left_ext_in;
    intros d [row col] Hin; apply in_tile in Hin; destruct Hin as [Hr Hc];
    cbn [fst snd]; cbv zeta; destruct (H row col Hr Hc) as [Hre Him];
    apply same_number_square in Hre, Him; rewrite square_opp in Him;
    now rewrite Hre, Him.
Qed.

(** 16-bit complex integers: the samples 3 + 4i and 5 + 0i, and their
    conjugates 3 - 4i and 5 + 0i. *)
Lemma IntensityPixelFunc_of_the_conjugate_witness :
  IntensityPixelFunc (codec := Host.codec)
    [Host.packed GInt16 [3; -4; 5; 0]%float] 1
    sentinel 2 1 GDT_CInt16 GDT_Float64 8 16
  = IntensityPixelFunc (codec := Host.codec)
      [Host.packed GInt16 [3; 4; 5; 0]%float] 1
      sentinel 2 1 GDT_CInt16 GDT_Float64 8 16.
Proof.
  refine (proj1 (@IntensityPixelFunc_of_the_conjugate Host.codec AnnexF.libm
                   (Host.packed GInt16 [3; 4; 5; 0]%float)
                   (Host.packed GInt16 [3; -4; 5; 0]%float) sentinel 2 1
                   GDT_CInt16 GDT_Float64 8 16 eq_refl _)).
  intros row col Hr Hc.
  assert (row = 0) as -> by lia.
  assert (col = 0 \/ col = 1) as [-> | ->] by lia;
    (split; [left; vm_compute; reflexivity|]).
  - left. vm_compute. reflexivity.
  - right. vm_compute. reflexivity.
Defined.

(** X25.  cmul of a source with itself, into a real destination, is
    intensity of that source: the real part of a sample times its
    conjugate. *)
Theorem CMulPixelFunc_with_itself_is_intensity {codec : Codec}
    (p : Ptr) (pData : Buffer) (nXSize nYSize : Z)
    (eSrcType eBufType : GDALDataType) (nPixelSpace nLineSpace : Z) :
  GDALDataTypeIsComplex eBufType = false ->
  CMulPixelFunc [p; p] 2 pData nXSize nYSize eSrcType eBufType nPixelSpace nLineSpace
  = IntensityPixelFunc [p] 1 pData nXSize nYSize eSrcType eBufType
                       nPixelSpace nLineSpace.
Proof.
  intros Hb. destruct (GDALDataTypeIsComplex eSrcType) eqn:Hs.
  - rewrite CMulPixelFunc_complex, IntensityPixelFunc_complex by exact Hs.
    f_equal. apply write_tile_ext. intros row col d ofs.
    now rewrite store_word_real by exact Hb.
  - rewrite CMulPixelFunc_real, IntensityPixelFunc_real by exact Hs.
    f_equal.
Qed.

Lemma CMulPixelFunc_with_itself_is_intensity_witness :
  CMulPixelFunc (codec := Host.codec)
    [Host.packed c_float [1; 2]%float; Host.packed c_float [1; 2]%float] 2
    sentinel 1 1 GDT_CFloat32 GDT_Float32 4 4
  = IntensityPixelFunc (codec := Host.codec) [Host.packed c_float [1; 2]%float] 1
      sentinel 1 1 GDT_CFloat32 GDT_Float32 4 4.
Proof.
  apply (@CMulPixelFunc_with_itself_is_intensity Host.codec).
  reflexivity.
Defined.

(** ** mod of bytes *)

(** On the host the magnitude mod computes for a real sample, through
    [int], is the sample itself when the sample is a byte. *)
Lemma abs_of_byte (b : byte) :
  C.double_of_int (C.abs (C.int_of_double (Host.host_decode GByte [b])))
  = Host.host_decode GByte [b].
Proof. destruct b; vm_compute; reflexivity. Qed.

(** X26.  On the host, mod of a source of bytes writes the samples as they
    are: the detour of the real case through [int] loses nothing of a
    byte. *)
Theorem ModulePixelFunc_host_Byte_keeps_the_samples
    (papoSources : list Ptr) (pData : Buffer) (nXSize nYSize : Z)
    (eBufType : GDALDataType) (nPixelSpace nLineSpace : Z) :
  ModulePixelFunc (codec := Host.codec) papoSources 1 pData nXSize nYSize
                  GDT_Byte eBufType nPixelSpace nLineSpace
  = (CE_None,
     write_tile (codec := Host.codec) eBufType nPixelSpace nLineSpace nYSize nXSize
       (fun row col =>
          (SRCVAL (codec := Host.codec) papoSources.[0] GDT_Byte (row * nXSize + col),
           0%float))
       pData).
Proof.
  rewrite ModulePixelFunc_real by reflexivity. f_equal. apply write_tile_ext.
  intros row col d ofs. do 2 f_equal.
  unfold SRCVAL, index, load_bytes. cbn [sizeof Z.to_nat Pos.to_nat Pos.iter_op seq map].
  apply abs_of_byte.
Qed.
(** ** The sources a call reads *)

Lemma at_index_firstn (l l' : list Ptr) (n i : Z) :
  firstn (Z.to_nat n) l = firstn (Z.to_nat n) l' ->
  0 <= i < n -> l.[i] = l'.[i].
Proof.
  intros H Hi. unfold at_index.
  pose proof (nth_firstn (Z.to_nat n) l (Z.to_nat i) NULL) as E.
  pose proof (nth_firstn (Z.to_nat n) l' (Z.to_nat i) NULL) as E'.
  destruct (Nat.ltb_spec (Z.to_nat i) (Z.to_nat n)); [|lia].
  now rewrite <- E, <- E', H.
Qed.

Lemma for_sources_firstn {A : Type} (F : A -> Ptr -> A) (l l' : list Ptr) (n : Z) (a : A) :
  firstn (Z.to_nat n) l = firstn (Z.to_nat n) l' ->
  c_for n (fun iSrc a => F a l.[iSrc]) a = c_for n (fun iSrc a => F a l'.[iSrc]) a.
Proof.
  intros H. unfold c_for. rewrite !for_from_fold.
  apply fold_left_ext_in. intros a' i Hi. apply in_zfrom in Hi.
  f_equal. apply (at_index_firstn l l' n); [exact H | lia].
Qed.

Section SourcesRead.

Context {codec : Codec} {libm : LibM}.

Variables (l l' : list Ptr) (nSources : Z).
Hypothesis same : firstn (Z.to_nat nSources) l = firstn (Z.to_nat nSources) l'.

Lemma SumPixelFunc_firstn (pData : Buffer) (nXSize nYSize : Z)
    (eSrcType eBufType : GDALDataType) (nPixelSpace nLineSpace : Z) :
  SumPixelFunc l nSources pData nXSize nYSize eSrcType eBufType nPixelSpace nLineSpace
  = SumPixelFunc l' nSources pData nXSize nYSize eSrcType eBufType
                 nPixelSpace nLineSpace.
Proof.
  unfold SumPixelFunc. destruct (nSources <? 2); [reflexivity|].
  destruct (GDALDataTypeIsComplex eSrcType); f_equal; rewrite !for_pixels_ii_tile;
    apply fold_left_ext_in; intros d [row col] _; cbn [fst snd]; cbv zeta.
  - now rewrite (for_sources_firstn
                   (fun (adfSum : double * double) pReal =>
                      (fst adfSum + SRCVAL pReal eSrcType (row * nXSize + col),
                       snd adfSum
                       + SRCVAL (ptr_add pReal (GDALGetDataTypeSize eSrcType ÷ 8 ÷ 2))
                                eSrcType (row * nXSize + col))%float)
                   l l' nSources _ same).
  - now rewrite (for_sources_firstn
                   (fun (dfSum : double) p =>
                      (dfSum + SRCVAL p eSrcType (row * nXSize + col))%float)
                   l l' nSources _ same).
Qed.

Lemma MulPixelFunc_firstn (pData : Buffer) (nXSize nYSize : Z)
    (eSrcType eBufType : GDALDataType) (nPixelSpace nLineSpace : Z) :
  MulPixelFunc l nSources pData nXSize nYSize eSrcType eBufType nPixelSpace nLineSpace
  = MulPixelFunc l' nSources pData nXSize nYSize eSrcType eBufType
                 nPixelSpace nLineSpace.
Proof.
  unfold MulPixelFunc. destruct (nSources <? 2); [reflexivity|].
  destruct (GDALDataTypeIsComplex eSrcType); f_equal; rewrite !for_pixels_ii_tile;
    apply fold_left_ext_in; intros d [row col] _; cbn [fst snd]; cbv zeta.
  - now rewrite (for_sources_firstn
                   (fun (adfPixVal : double * double) pReal =>
                      (fst adfPixVal * SRCVAL pReal eSrcType (row * nXSize + col)
                       - snd adfPixVal
                         * SRCVAL (ptr_add pReal (GDALGetDataTypeSize eSrcType ÷ 8 ÷ 2))
                                  eSrcType (row * nXSize + col),
                       fst adfPixVal
                       * SRCVAL (ptr_add pReal (GDALGetDataTypeSize eSrcType ÷ 8 ÷ 2))
                                eSrcType (row * nXSize + col)
                       + snd adfPixVal * SRCVAL pReal eSrcType (row * nXSize + col))%float)
                   l l' nSources _ same).
  - now rewrite (for_sources_firstn
                   (fun (dfPixVal : double) p =>
                      (dfPixVal * SRCVAL p eSrcType (row * nXSize + col))%float)
                   l l' nSources _ same).
Qed.

(** A function that takes [k] sources reads [papoSources[0]], ...,
    [papoSources[k - 1]]. *)
Ltac fixed_arity k :=
  destruct (Z.eqb_spec nSources k) as [E|]; cbn [negb]; [|reflexivity];
  try (assert (E0 : l.[0] = l'.[0])
         by (apply (at_index_firstn l l' nSources 0 same); lia);
       rewrite E0);
  try (assert (E1 : l.[1] = l'.[1])
         by (apply (at_index_firstn l l' nSources 1 same); lia);
       rewrite E1);
  reflexivity.

Lemma registered_firstn (name : string) (f : PixelFunc) :
  In (name, f) (snd (GDALRegisterDefaultPixelFunc [])) ->
  forall pData nXSize nYSize eSrcType eBufType nPixelSpace nLineSpace,
    f l nSources pData nXSize nYSize eSrcType eBufType nPixelSpace nLineSpace
    = f l' nSources pData nXSize nYSize eSrcType eBufType nPixelSpace nLineSpace.
Proof.
  intros H.
  unfold GDALRegisterDefaultPixelFunc in H;
    cbn [GDALAddDerivedBandPixelFunc String.eqb Ascii.eqb Bool.eqb snd In] in H;
    repeat (destruct H as [H|H]; [injection H as <- <- | ]); [ .. | contradiction ];
    intros pData nXSize nYSize eSrcType eBufType nPixelSpace nLineSpace;
    try apply SumPixelFunc_firstn; try apply MulPixelFunc_firstn;
    unfold dB2AmpPixelFunc, dB2PowPixelFunc;
    unfold ModulePixelFunc, PhasePixelFunc, ConjPixelFunc, ImagPixelFunc, RealPixelFunc,
      DiffPixelFunc, CMulPixelFunc, InvPixelFunc, IntensityPixelFunc, SqrtPixelFunc,
      Log10PixelFunc, PowPixelFuncHelper, BetaSigmaToIncidence, UVToMagnitude,
      UVToDirectionTo, UVToDirectionFrom, Sigma0HHIncidenceToSigma0VV;
    first [fixed_arity 1 | fixed_arity 2].
Qed.

End SourcesRead.

(** X27.  A registered pixel function reads the first [nSources] entries
    of [papoSources] and no other: two calls whose arrays of sources agree
    on these entries return the same. *)
Theorem registered_function_reads_nSources_sources
    {codec : Codec} {libm : LibM} (name : string) (f : PixelFunc) :
  In (name, f) (snd (GDALRegisterDefaultPixelFunc [])) ->
  forall papoSources papoSources' nSources pData nXSize nYSize eSrcType eBufType
         nPixelSpace nLineSpace,
    firstn (Z.to_nat nSources) papoSources = firstn (Z.to_nat nSources) papoSources' ->
    f papoSources nSources pData nXSize nYSize eSrcType eBufType nPixelSpace nLineSpace
    = f papoSources' nSources pData nXSize nYSize eSrcType eBufType
        nPixelSpace nLineSpace.
Proof.
  intros H papoSources papoSources' nSources pData nXSize nYSize eSrcType eBufType
         nPixelSpace nLineSpace Hsame.
  now apply (registered_firstn papoSources papoSources' nSources Hsame name f H).
Qed.

(** diff called with an array of three sources and the count 2. *)
Lemma registered_function_reads_nSources_sources_witness :
  DiffPixelFunc (codec := Host.codec)
    [Host.packed c_double [5]%float; Host.packed c_double [3]%float;
     Host.packed c_double [9]%float] 2 sentinel 1 1 GDT_Float64 GDT_Float64 8 8
  = DiffPixelFunc (codec := Host.codec)
      [Host.packed c_double [5]%float; Host.packed c_double [3]%float] 2
      sentinel 1 1 GDT_Float64 GDT_Float64 8 8.
Proof.
  apply (@registered_function_reads_nSources_sources Host.codec AnnexF.libm
           "diff"%string DiffPixelFunc).
  - is_registered.
  - reflexivity.
Defined.
